(** * Sci-Hub PDF Downloader: content script and background worker

    A shallow embedding of the extension's two scripts:
    - the content script (DOI detection and button injection), and
    - the background service worker in its two variants: the one that
      parses the mirror page with [DOMParser] and saves a blob
      (src/background.js), and the one that scans the page with regular
      expressions and hands the address to [chrome.downloads]
      (the Manifest V3 worker).

    JavaScript strings are sequences of UTF-16 code units; regular
    expressions are kept as syntax trees and run by a backtracking matcher
    that follows the order in which the JavaScript matcher tries
    alternatives. *)

From Stdlib Require String Ascii.
From Stdlib Require Import List NArith ZArith Bool Lia Arith.
Import ListNotations.
Import String.StringSyntax.
Delimit Scope string_scope with string.

Set Implicit Arguments.

(* ================================================================== *)
(** * JavaScript strings *)
(* ================================================================== *)

Module JS.

(** A code unit, and a string of them. *)
Definition char := N.
Definition jsstring := list char.

(** String literals of the source, written as Rocq strings. *)
Definition str (s : String.string) : jsstring :=
  map Ascii.N_of_ascii (String.list_ascii_of_string s).
Arguments str s%_string.

(** A one-unit literal. *)
Definition ch (s : String.string) : char := hd 0%N (str s).
Arguments ch s%_string.

(** The double quote, which a Rocq literal cannot hold directly. *)
Definition dq : char := 34%N.
Definition sq : char := 39%N.

Definition char_in (cs : jsstring) (c : char) : bool :=
  existsb (N.eqb c) cs.

Definition between (lo hi : N) (c : char) : bool :=
  (N.leb lo c && N.leb c hi)%bool.

Definition is_digit : char -> bool := between 48 57.
Definition is_lower : char -> bool := between 97 122.
Definition is_upper : char -> bool := between 65 90.

(** [\w]: ASCII letters, digits and the underscore. *)
Definition is_word (c : char) : bool :=
  is_lower c || is_upper c || is_digit c || N.eqb c 95.

(** [\s], and what [trim] removes: WhiteSpace and LineTerminator. *)
Definition is_space (c : char) : bool :=
  between 9 13 c || N.eqb c 32 || N.eqb c 160 || N.eqb c 5760
  || between 8192 8202 c || N.eqb c 8232 || N.eqb c 8233
  || N.eqb c 8239 || N.eqb c 8287 || N.eqb c 12288 || N.eqb c 65279.

(** What [.] refuses: the line terminators. *)
Definition is_line_terminator (c : char) : bool :=
  N.eqb c 10 || N.eqb c 13 || N.eqb c 8232 || N.eqb c 8233.

Fixpoint eqb (a b : jsstring) : bool :=
  match a, b with
  | [], [] => true
  | x :: a', y :: b' => N.eqb x y && eqb a' b'
  | _, _ => false
  end.

(** [s.startsWith(p)] *)
Fixpoint startsWith (s p : jsstring) {struct p} : bool :=
  match p, s with
  | [], _ => true
  | x :: p', y :: s' => N.eqb x y && startsWith s' p'
  | _ :: _, [] => false
  end.

(** [s.includes(sub)] *)
Fixpoint includes (s sub : jsstring) : bool :=
  startsWith s sub ||
  match s with
  | [] => false
  | _ :: s' => includes s' sub
  end.

Fixpoint dropWhile (p : char -> bool) (s : jsstring) : jsstring :=
  match s with
  | [] => []
  | c :: s' => if p c then dropWhile p s' else s
  end.

Definition dropWhileEnd (p : char -> bool) (s : jsstring) : jsstring :=
  rev (dropWhile p (rev s)).

(** [s.trim()] *)
Definition trim (s : jsstring) : jsstring :=
  dropWhileEnd is_space (dropWhile is_space s).

(** Truthiness of a value that is a string or null/undefined. *)
Definition truthy (v : option jsstring) : bool :=
  match v with
  | Some (_ :: _) => true
  | _ => false
  end.

(** [v || d] for such a value. *)
Definition or_else (v : option jsstring) (d : jsstring) : jsstring :=
  match v with
  | Some (c :: s) => c :: s
  | _ => d
  end.

End JS.
Import JS.

(* ================================================================== *)
(** * Regular expressions *)
(* ================================================================== *)

Module Regex.

(** The fragment of the pattern language the two scripts use.  Every
    pattern of the program holds at most one capture group, so the matcher
    tracks group 1 only. *)
Inductive regex : Type :=
| Chr (p : char -> bool)          (* one code unit of a class *)
| Eps
| Seq (r1 r2 : regex)
| Alt (r1 r2 : regex)             (* r1|r2 *)
| Rep (greedy : bool) (lo : nat) (hi : option nat) (r : regex)
| Grp (r : regex)                 (* ( r ), capture group 1 *)
| Bol                             (* ^ *)
| Eol                             (* $ *)
| WordB.                          (* \b *)

(** Position of the matcher in the input: the code units already passed
    (nearest first), those still ahead, and group 1. *)
Record mstate : Type := MState {
  seen : list char;
  rest : list char;
  cap : option jsstring
}.

Definition cont := mstate -> option mstate.

Definition pred_hi (hi : option nat) : option nat :=
  match hi with
  | Some h => Some (pred h)
  | None => None
  end.

Definition hi_is_zero (hi : option nat) : bool :=
  match hi with
  | Some 0 => true
  | _ => false
  end.

(** The quantifier loop.  Once the minimum is met an iteration that
    consumes nothing is refused, as in the language's RepeatMatcher. *)
Fixpoint rep (fuel : nat) (body : mstate -> cont -> option mstate)
    (greedy : bool) (lo : nat) (hi : option nat)
    (st : mstate) (k : cont) : option mstate :=
  match fuel with
  | 0 => None
  | S fuel' =>
    match lo with
    | S lo' =>
        body st (fun st' => rep fuel' body greedy lo' (pred_hi hi) st' k)
    | 0 =>
        if hi_is_zero hi then k st
        else
          let again :=
            body st (fun st' =>
              if Nat.eqb (length (rest st')) (length (rest st)) then None
              else rep fuel' body greedy 0 (pred_hi hi) st' k) in
          if greedy then
            match again with
            | Some res => Some res
            | None => k st
            end
          else
            match k st with
            | Some res => Some res
            | None => again
            end
    end
  end.

Definition prev_is_word (st : mstate) : bool :=
  match seen st with
  | c :: _ => is_word c
  | [] => false
  end.

Definition next_is_word (st : mstate) : bool :=
  match rest st with
  | c :: _ => is_word c
  | [] => false
  end.

(** The code units passed between two positions of one run. *)
Definition consumed (st st' : mstate) : jsstring :=
  rev (firstn (length (seen st') - length (seen st)) (seen st')).

Fixpoint m (r : regex) (st : mstate) (k : cont) : option mstate :=
  match r with
  | Chr p =>
      match rest st with
      | c :: tl =>
          if p c then k (MState (c :: seen st) tl (cap st)) else None
      | [] => None
      end
  | Eps => k st
  | Seq r1 r2 => m r1 st (fun st' => m r2 st' k)
  | Alt r1 r2 =>
      match m r1 st k with
      | Some res => Some res
      | None => m r2 st k
      end
  | Rep greedy lo hi r' =>
      rep (lo + length (rest st) + 1) (m r') greedy lo hi st k
  | Grp r' =>
      m r' st (fun st' =>
        k (MState (seen st') (rest st') (Some (consumed st st'))))
  | Bol => match seen st with [] => k st | _ :: _ => None end
  | Eol => match rest st with [] => k st | _ :: _ => None end
  | WordB => if xorb (prev_is_word st) (next_is_word st) then k st else None
  end.

(** What [exec] hands back: the text before the match, the match, group 1
    and the text after it. *)
Record mresult : Type := MResult {
  before : jsstring;
  whole : jsstring;
  group1 : option jsstring;
  after : jsstring
}.

(** [exec] scans for the leftmost position where the pattern matches. *)
Fixpoint exec_from (r : regex) (sn rs : list char) : option mresult :=
  match m r (MState sn rs None) Some with
  | Some st' =>
      Some (MResult (rev sn) (consumed (MState sn rs None) st')
                    (cap st') (rest st'))
  | None =>
      match rs with
      | [] => None
      | c :: tl => exec_from r (c :: sn) tl
      end
  end.

Definition exec (r : regex) (s : jsstring) : option mresult :=
  exec_from r [] s.

(** [s.match(r)[1]] for a pattern without the g flag; [None] stands for a
    null match as well as for an undefined group. *)
Definition match1 (r : regex) (s : jsstring) : option jsstring :=
  match exec r s with
  | Some res => group1 res
  | None => None
  end.

Definition test (r : regex) (s : jsstring) : bool :=
  match exec r s with
  | Some _ => true
  | None => false
  end.

(** [s.replace(r, by)] for a pattern without the g flag and a replacement
    text without [$] patterns. *)
Definition replace (r : regex) (by_ : jsstring) (s : jsstring) : jsstring :=
  match exec r s with
  | Some res => before res ++ by_ ++ after res
  | None => s
  end.

(** The successive matches of a pattern with the g flag, each searched from
    the end of the one before it; an empty match advances by one unit. *)
Fixpoint matches_from (fuel : nat) (r : regex) (sn rs : list char)
  : list mresult :=
  match fuel with
  | 0 => []
  | S fuel' =>
      match exec_from r sn rs with
      | None => []
      | Some res =>
          let sn' := rev (whole res) ++ rev (before res) in
          res ::
          match whole res, after res with
          | [], [] => []
          | [], c :: tl => matches_from fuel' r (c :: sn') tl
          | _ :: _, tl => matches_from fuel' r sn' tl
          end
      end
  end.

(** [s.matchAll(r)] *)
Definition matchAll (r : regex) (s : jsstring) : list mresult :=
  matches_from (S (length s)) r [] s.

(** The text between the end of the previous match and the start of this
    one, for a result found from position [sn]. *)
Definition gap (sn : list char) (res : mresult) : jsstring :=
  skipn (length sn) (before res).

(** [s.replace(r, by)] for a pattern with the g flag. *)
Fixpoint replace_from (fuel : nat) (r : regex) (by_ : jsstring)
    (sn rs : list char) : jsstring :=
  match fuel with
  | 0 => rs
  | S fuel' =>
      match exec_from r sn rs with
      | None => rs
      | Some res =>
          let sn' := rev (whole res) ++ rev (before res) in
          gap sn res ++ by_ ++
          match whole res, after res with
          | [], [] => []
          | [], c :: tl => c :: replace_from fuel' r by_ (c :: sn') tl
          | _ :: _, tl => replace_from fuel' r by_ sn' tl
          end
      end
  end.

Definition replaceAll (r : regex) (by_ : jsstring) (s : jsstring) : jsstring :=
  replace_from (S (length s)) r by_ [] s.

(** ** Pattern building blocks *)

Definition one (c : char) : regex := Chr (N.eqb c).

(** A literal text. *)
Fixpoint lit (s : jsstring) : regex :=
  match s with
  | [] => Eps
  | [c] => one c
  | c :: s' => Seq (one c) (lit s')
  end.

(** Under the i flag an ASCII letter of the pattern accepts both of its
    cases and nothing else; other code units accept themselves. *)
Definition ci (c x : char) : bool :=
  N.eqb x c
  || (is_lower c && N.eqb x (c - 32))
  || (is_upper c && N.eqb x (c + 32)).

Fixpoint lit_i (s : jsstring) : regex :=
  match s with
  | [] => Eps
  | [c] => Chr (ci c)
  | c :: s' => Seq (Chr (ci c)) (lit_i s')
  end.

Fixpoint seqs (rs : list regex) : regex :=
  match rs with
  | [] => Eps
  | [r] => r
  | r :: rs' => Seq r (seqs rs')
  end.

Definition star (r : regex) : regex := Rep true 0 None r.
Definition plus (r : regex) : regex := Rep true 1 None r.
Definition opt (r : regex) : regex := Rep true 0 (Some 1) r.
Definition lazy_star (r : regex) : regex := Rep false 0 None r.

(** [[^...]] *)
Definition none_of (cs : jsstring) : regex := Chr (fun c => negb (char_in cs c)).
Definition any_of (cs : jsstring) : regex := Chr (char_in cs).
Definition digit : regex := Chr is_digit.
Definition space : regex := Chr is_space.
(** [.] *)
Definition dot : regex := Chr (fun c => negb (is_line_terminator c)).
(** [[\s\S]] *)
Definition anything : regex := Chr (fun _ => true).

End Regex.
Import Regex.

(* ================================================================== *)
(** * Values parsed from JSON *)
(* ================================================================== *)

Module Json.

(** What [JSON.parse] returns.  A number matters to the program only
    through its truthiness, so an integer stands for it. *)
#[warnings="-register-all"]
Inductive json : Type :=
| JNull
| JBool (b : bool)
| JNum (n : Z)
| JStr (s : jsstring)
| JArr (items : list json)
| JObj (members : list (jsstring * json)).

(** [!data] *)
Definition falsy (data : json) : bool :=
  match data with
  | JNull => true
  | JBool b => negb b
  | JNum n => Z.eqb n 0
  | JStr s => match s with [] => true | _ :: _ => false end
  | JArr _ | JObj _ => false
  end.

(** [data[key]]; [None] is undefined. *)
Fixpoint get (key : jsstring) (members : list (jsstring * json)) : option json :=
  match members with
  | [] => None
  | (k, v) :: more => if JS.eqb k key then Some v else get key more
  end.

(** Induction over JSON values, arrays item by item. *)
Section JsonInduction.

Variable P : json -> Prop.
Hypothesis Hnull : P JNull.
Hypothesis Hbool : forall b, P (JBool b).
Hypothesis Hnum : forall n, P (JNum n).
Hypothesis Hstr : forall s, P (JStr s).
Hypothesis Harr : forall items, Forall P items -> P (JArr items).
Hypothesis Hobj : forall members, P (JObj members).

Fixpoint json_induction (data : json) : P data :=
  match data with
  | JNull => Hnull
  | JBool b => Hbool b
  | JNum n => Hnum n
  | JStr s => Hstr s
  | JArr items =>
      Harr ((fix all (l : list json) : Forall P l :=
               match l with
               | [] => Forall_nil P
               | x :: l' => Forall_cons x (json_induction x) (all l')
               end) items)
  | JObj members => Hobj members
  end.

End JsonInduction.

End Json.
Import Json.

(* ================================================================== *)
(** * The document, as the scripts see it *)
(* ================================================================== *)

Module Dom.

(** Selectors, kept as syntax: a comma-separated list of compound
    selectors. *)
Inductive simple : Type :=
| Tag (name : String.string)                 (* meta *)
| Has (attr : String.string)                 (* [src] *)
| Eq (attr value : String.string)            (* [name=doi], value quoted *)
| Sub (attr value : String.string)           (* [class*=doi], value quoted *)
| Cls (name : String.string)                 (* .citation *)
| NotHas (attr : String.string).             (* :not([src]) *)

Definition compound := list simple.
Definition selector := list compound.

Record element : Type := Element {
  tagName : jsstring;
  attributes : list (jsstring * jsstring);
  textContent : jsstring
}.

(** [el.getAttribute(name)] *)
Fixpoint lookup (name : jsstring) (l : list (jsstring * jsstring)) : option jsstring :=
  match l with
  | [] => None
  | (k, v) :: more => if JS.eqb k name then Some v else lookup name more
  end.

Definition getAttribute (el : element) (name : String.string) : option jsstring :=
  lookup (str name) (attributes el).
Arguments getAttribute el name%_string.

(** A document answers selector queries with its matching elements in
    document order; how it matches is the browser's business. *)
Record document : Type := Document {
  querySelectorAll : selector -> list element
}.

Definition querySelector (doc : document) (sel : selector) : option element :=
  hd_error (querySelectorAll doc sel).

(** ** A plain document for examples: a list of elements in document
    order, matched attribute by attribute. *)

Fixpoint words (cur : jsstring) (s : jsstring) : list jsstring :=
  match s with
  | [] => match cur with [] => [] | _ => [rev cur] end
  | c :: s' =>
      if is_space c then
        match cur with [] => words [] s' | _ => rev cur :: words [] s' end
      else words (c :: cur) s'
  end.

(** In an HTML document the value of some attributes is compared without
    regard to ASCII case in a selector; of those the scripts' selectors
    name, this holds for [type] only. *)
Definition lower (c : char) : char :=
  if is_upper c then (c + 32)%N else c.

Definition value_eqb (attr : String.string) (x v : jsstring) : bool :=
  if String.eqb attr "type" then JS.eqb (map lower x) (map lower v)
  else JS.eqb x v.

Definition simple_matches (el : element) (s : simple) : bool :=
  match s with
  | Tag name => JS.eqb (tagName el) (str name)
  | Has a => match getAttribute el a with Some _ => true | None => false end
  | Eq a v =>
      match getAttribute el a with
      | Some x => value_eqb a x (str v)
      | None => false
      end
  | Sub a v =>
      match getAttribute el a with
      | Some x => includes x (str v)
      | None => false
      end
  | Cls c =>
      match getAttribute el "class" with
      | Some x => existsb (JS.eqb (str c)) (words [] x)
      | None => false
      end
  | NotHas a => match getAttribute el a with Some _ => false | None => true end
  end.

Definition selector_matches (sel : selector) (el : element) : bool :=
  existsb (forallb (simple_matches el)) sel.

Definition document_of (els : list element) : document :=
  Document (fun sel => filter (selector_matches sel) els).

End Dom.
Import Dom.

(* ================================================================== *)
(** * The content script *)
(* ================================================================== *)

Module Content.

Arguments Tag name%_string.
Arguments Has attr%_string.
Arguments Eq (attr value)%_string.
Arguments Sub (attr value)%_string.
Arguments Cls name%_string.
Arguments NotHas attr%_string.

(** The loaded page: [window.location] and the document. *)
Record page : Type := Page {
  hostname : jsstring;
  href : jsstring;
  doc : document
}.

(** The head every DOI pattern of the script shares: [10\.\d{4,9}\/]
    followed by one or more units of a class. *)
Definition doi_body (tail : char -> bool) : regex :=
  seqs [lit (str "10."); Rep true 4 (Some 9) digit; one (ch "/");
        plus (Chr tail)].

(** [[^\s\x22'<>&]], where \x22 is the double quote *)
Definition doi_unit (c : char) : bool :=
  negb (is_space c || char_in (dq :: sq :: str "<>&") c).

(** [/\b(10\.\d{4,9}\/[^\s\x22'<>&]+)\b/] *)
Definition DOI_REGEX : regex :=
  seqs [WordB; Grp (doi_body doi_unit); WordB].

Definition IGNORE_DOMAINS : list jsstring :=
  [str "google.com"; str "bing.com"; str "duckduckgo.com";
   str "facebook.com"; str "twitter.com"; str "x.com"; str "reddit.com";
   str "youtube.com"; str "github.com"; str "sci-hub."].

Definition shouldIgnorePage (p : page) : bool :=
  existsb (fun d => includes (hostname p) d) IGNORE_DOMAINS.

Definition metaSelectors : list selector :=
  [ [[Tag "meta"; Eq "name" "citation_doi"]];
    [[Tag "meta"; Eq "name" "dc.identifier"; Eq "scheme" "doi"]];
    [[Tag "meta"; Eq "name" "dc.identifier"]];
    [[Tag "meta"; Eq "name" "DC.identifier"]];
    [[Tag "meta"; Eq "name" "DC.Identifier"]];
    [[Tag "meta"; Eq "name" "doi"]];
    [[Tag "meta"; Eq "name" "DOI"]];
    [[Tag "meta"; Eq "property" "citation_doi"]];
    [[Tag "meta"; Eq "name" "prism.doi"]];
    [[Tag "meta"; Eq "name" "bepress_citation_doi"]];
    [[Tag "meta"; Eq "name" "eprints.id_number"]] ].

(** [/^(doi:|https?:\/\/doi\.org\/)/] *)
Definition prefix_re : regex :=
  Seq Bol (Grp (Alt (lit (str "doi:"))
                    (seqs [lit (str "http"); opt (one (ch "s"));
                           lit (str "://doi.org/")]))).

Definition strip_prefix (s : jsstring) : jsstring := replace prefix_re [] s.

(** The body shared by the meta-tag loop and the JSON-LD walker: strip the
    prefix, then look for the DOI pattern. *)
Definition doi_in (s : jsstring) : option jsstring :=
  match1 DOI_REGEX (strip_prefix s).

(** Step 1 of [detectDOI]: the meta tags. *)
Fixpoint meta_tier (d : document) (sels : list selector) : option jsstring :=
  match sels with
  | [] => None
  | sel :: more =>
      match querySelector d sel with
      | Some el =>
          let content := or_else (getAttribute el "content") [] in
          match doi_in content with
          | Some doi => Some doi
          | None => meta_tier d more
          end
      | None => meta_tier d more
      end
  end.

(** [[^\s?#]] *)
Definition url_unit (c : char) : bool :=
  negb (is_space c || char_in (str "?#") c).

(** [/https?:\/\/(?:dx\.)?doi\.org\/(10\.\d{4,9}\/[^\s?#]+)/] *)
Definition doiOrg_re : regex :=
  seqs [lit (str "http"); opt (one (ch "s")); lit (str "://");
        opt (lit (str "dx.")); lit (str "doi.org/");
        Grp (doi_body url_unit)].

(** [/\/(?:doi|article|abs|full|pdf)\/?(10\.\d{4,9}\/[^\s?#]+)/] *)
Definition urlDoi_re : regex :=
  seqs [one (ch "/");
        Alt (lit (str "doi"))
          (Alt (lit (str "article"))
            (Alt (lit (str "abs"))
              (Alt (lit (str "full")) (lit (str "pdf")))));
        opt (one (ch "/"));
        Grp (doi_body url_unit)].

(** Step 2: the page address. *)
Definition url_tier (url : jsstring) : option jsstring :=
  match match1 doiOrg_re url with
  | Some doi => Some doi
  | None => match1 urlDoi_re url
  end.

(** The first truthy result of [f] over a list, as the [for ... of] loops
    with [if (x) return x] compute it. *)
Fixpoint first_truthy (A : Type) (f : A -> option jsstring) (l : list A)
  : option jsstring :=
  match l with
  | [] => None
  | x :: more =>
      if truthy (f x) then f x else first_truthy f more
  end.

(** The first match over a list, as the loops with
    [if (match) return match[1]] compute it. *)
Fixpoint first_match (A : Type) (f : A -> option jsstring) (l : list A)
  : option jsstring :=
  match l with
  | [] => None
  | x :: more =>
      match f x with
      | Some r => Some r
      | None => first_match f more
      end
  end.

Definition ld_keys : list jsstring :=
  [str "doi"; str "DOI"; str "@id"; str "identifier"; str "sameAs"].

(** What one key of an object contributes. *)
Definition ld_value (val : option json) : option jsstring :=
  match val with
  | Some (JStr s) => doi_in s
  | Some (JArr items) =>
      first_match (fun item =>
        match item with
        | JStr s => doi_in s
        | _ => None
        end) items
  | _ => None
  end.

Fixpoint extractDOIFromLD (data : json) : option jsstring :=
  if falsy data then None
  else
    match data with
    | JArr items =>
        (fix walk (l : list json) : option jsstring :=
           match l with
           | [] => None
           | item :: more =>
               if truthy (extractDOIFromLD item) then extractDOIFromLD item
               else walk more
           end) items
    | JObj members =>
        first_match (fun key => ld_value (get key members)) ld_keys
    | _ => None
    end.

(** [/(?:dx\.)?doi\.org\/(10\.\d{4,9}\/[^\s?#\x22']+)/] *)
Definition link_unit (c : char) : bool :=
  negb (is_space c || char_in (dq :: sq :: str "?#") c).

Definition link_re : regex :=
  seqs [opt (lit (str "dx.")); lit (str "doi.org/");
        Grp (doi_body link_unit)].

(** [/[\x22']?doi[\x22']?\s*[:=]\s*[\x22'](10\.\d{4,9}\/[^\x22']+)[\x22']/i] *)
Definition quote : regex := any_of [dq; sq].
Definition script_unit (c : char) : bool := negb (char_in [dq; sq] c).

Definition script_re : regex :=
  seqs [opt quote; lit_i (str "doi"); opt quote; star space;
        any_of (str ":="); star space; quote;
        Grp (doi_body script_unit); quote].

Definition ldSelector : selector :=
  [[Tag "script"; Eq "type" "application/ld+json"]].

Definition linkSelector : selector :=
  [[Tag "a"; Sub "href" "doi.org/10."];
   [Tag "a"; Sub "href" "dx.doi.org/10."]].

Definition inlineScriptSelector : selector := [[Tag "script"; NotHas "src"]].

Definition containerSelector : selector :=
  [[Cls "article-header"]; [Cls "article-info"]; [Cls "citation"];
   [Cls "doi"]; [Sub "class" "doi"]; [Sub "class" "DOI"]; [Sub "id" "doi"];
   [Cls "metadata"]; [Cls "article-meta"]; [Tag "header"]].

Section Detect.

(** [JSON.parse]; [None] when it throws. *)
Variable JSON_parse : jsstring -> option json.

(** Step 3: JSON-LD blocks; a block that does not parse is passed over. *)
Definition ld_tier (d : document) : option jsstring :=
  first_truthy (fun script =>
      match JSON_parse (textContent script) with
      | Some data => extractDOIFromLD data
      | None => None
      end)
    (querySelectorAll d ldSelector).

(** Step 4: links to doi.org. *)
Definition link_tier (d : document) : option jsstring :=
  first_match (fun link =>
      match1 link_re (or_else (getAttribute link "href") []))
    (querySelectorAll d linkSelector).

(** Step 5: inline scripts. *)
Definition script_tier (d : document) : option jsstring :=
  first_match (fun script => match1 script_re (textContent script))
    (querySelectorAll d inlineScriptSelector).

(** Step 6: visible text of the metadata containers. *)
Definition text_tier (d : document) : option jsstring :=
  first_match (fun container => match1 DOI_REGEX (textContent container))
    (querySelectorAll d containerSelector).

Definition detectDOI (p : page) : option jsstring :=
  match meta_tier (doc p) metaSelectors with
  | Some doi => Some doi
  | None =>
  match url_tier (href p) with
  | Some doi => Some doi
  | None =>
  match ld_tier (doc p) with
  | Some doi => Some doi
  | None =>
  match link_tier (doc p) with
  | Some doi => Some doi
  | None =>
  match script_tier (doc p) with
  | Some doi => Some doi
  | None => text_tier (doc p)
  end end end end end.

(** [/[.,;)\]]+$/] *)
Definition trailing_unit : char -> bool := char_in (str ".,;)]").

Definition trailing_re : regex := Seq (plus (Chr trailing_unit)) Eol.

Definition cleanDOI (doi : jsstring) : jsstring := replace trailing_re [] doi.

(** The one thing the script changes in the page: the button, which holds
    the DOI it was made for.  [None]: no element with id [scihub-ext-btn]. *)
Definition button := option jsstring.

Definition injectButton (doi : jsstring) (b : button) : button :=
  match b with
  | Some _ => b
  | None => Some doi
  end.

Definition init (p : page) (b : button) : button :=
  if shouldIgnorePage p then b
  else
    match detectDOI p with
    | Some (c :: d) =>
        match cleanDOI (c :: d) with
        | [] => b
        | cleaned => injectButton cleaned b
        end
    | _ => b
    end.

(** The script as a whole: [init] once the page has loaded, and once more
    two seconds later if the button is still missing then.  The page may
    have changed in between.  (On a page that takes more than two seconds
    to load the two runs come in the other order; [injectButton] refuses a
    second button either way.) *)
Definition contentScript (loaded later : page) : button :=
  let b := init loaded None in
  match b with
  | Some _ => b
  | None => init later b
  end.

(** The request a click on the button sends to the background worker. *)
Record message : Type := Message {
  action : jsstring;
  doi : option jsstring
}.

Definition downloadPDF (b : button) : option message :=
  match b with
  | Some d => Some (Message (str "downloadPDF") (Some d))
  | None => None
  end.

End Detect.

End Content.

(* ================================================================== *)
(** * The browser, as the background worker sees it *)
(* ================================================================== *)

Module Platform.

(** A settled promise: fulfilled, or rejected with an [Error] whose
    [message] is kept. *)
Inductive result (A : Type) : Type :=
| Ok (a : A)
| Err (message : jsstring).
Arguments Ok {A} a.
Arguments Err {A} message.

Inductive method : Type := GET | HEAD.

Record request : Type := Request {
  req_url : jsstring;
  req_method : method;
  userAgent : option jsstring        (* the User-Agent header, if set *)
}.

Record response : Type := Response {
  res_url : jsstring;                (* res.url, after redirects *)
  contentType : option jsstring;     (* res.headers.get("Content-Type") *)
  res_text : result jsstring;        (* res.text() *)
  res_blob : result (list N)         (* res.blob(), as bytes *)
}.

(** What [chrome.downloads.download] is asked to fetch: a remote address,
    or the object URL of a blob held by the worker. *)
Inductive source : Type :=
| Address (url : jsstring)
| ObjectURL (payload : list N).

Record downloadOptions : Type := DownloadOptions {
  dl_url : source;
  filename : jsstring;
  saveAs : bool
}.

Inductive event : Type :=
| Fetch (r : request)
| Download (o : downloadOptions)
| Revoke (payload : list N)          (* URL.revokeObjectURL *)
| Log (text : jsstring).             (* console.log *)

(** UTF-8 decoding of a byte sequence into code units, malformed
    sequences giving U+FFFD. *)
Definition continuation (b : N) : bool := between 128 191 b.

Definition second_ok (b0 b1 : N) : bool :=
  if N.eqb b0 224 then between 160 191 b1
  else if N.eqb b0 237 then between 128 159 b1
  else if N.eqb b0 240 then between 144 191 b1
  else if N.eqb b0 244 then between 128 143 b1
  else continuation b1.

Fixpoint utf8 (bs : list N) : jsstring :=
  match bs with
  | [] => []
  | b0 :: t0 =>
    if N.ltb b0 128 then b0 :: utf8 t0
    else if between 194 223 b0 then
      match t0 with
      | b1 :: t1 =>
          if continuation b1
          then ((b0 - 192) * 64 + (b1 - 128))%N :: utf8 t1
          else 65533%N :: utf8 t0
      | [] => [65533%N]
      end
    else if between 224 239 b0 then
      match t0 with
      | b1 :: t1 =>
          if second_ok b0 b1 then
            match t1 with
            | b2 :: t2 =>
                if continuation b2
                then ((b0 - 224) * 4096 + (b1 - 128) * 64 + (b2 - 128))%N
                     :: utf8 t2
                else 65533%N :: utf8 t1
            | [] => [65533%N]
            end
          else 65533%N :: utf8 t0
      | [] => [65533%N]
      end
    else if between 240 244 b0 then
      match t0 with
      | b1 :: t1 =>
          if second_ok b0 b1 then
            match t1 with
            | b2 :: t2 =>
                if continuation b2 then
                  match t2 with
                  | b3 :: t3 =>
                      if continuation b3 then
                        let cp := ((b0 - 240) * 262144 + (b1 - 128) * 4096
                                   + (b2 - 128) * 64 + (b3 - 128))%N in
                        (55296 + (cp - 65536) / 1024)%N
                        :: (56320 + (cp - 65536) mod 1024)%N :: utf8 t3
                      else 65533%N :: utf8 t2
                  | [] => [65533%N]
                  end
                else 65533%N :: utf8 t1
            | [] => [65533%N]
            end
          else 65533%N :: utf8 t0
      | [] => [65533%N]
      end
    else 65533%N :: utf8 t0
  end.

(** [blob.text()]: UTF-8 decoding, a leading byte order mark dropped. *)
Definition blob_text (bs : list N) : jsstring :=
  if startsWith bs [239; 187; 191]%N then utf8 (skipn 3 bs) else utf8 bs.

(** [blob.slice(0, n)] *)
Definition blob_slice (n : nat) (bs : list N) : list N := firstn n bs.

Section Run.

(** The rest of the world: servers, the network, the download manager. *)
Variable World : Type.

Definition state : Type := (World * list event)%type.

(** An asynchronous function of the worker, awaited to its end: it moves
    the world on, leaves a trace of what it asked of the browser, and
    returns or throws. *)
Definition Run (A : Type) : Type := state -> result A * state.

Definition ret (A : Type) (a : A) : Run A := fun s => (Ok a, s).

Definition throw (A : Type) (message : jsstring) : Run A :=
  fun s => (Err message, s).

Definition bind (A B : Type) (c : Run A) (f : A -> Run B) : Run B :=
  fun s =>
    match c s with
    | (Ok a, s') => f a s'
    | (Err e, s') => (Err e, s')
    end.

(** [try { c } catch (err) { h(err.message) }] *)
Definition try_catch (A : Type) (c : Run A) (h : jsstring -> Run A) : Run A :=
  fun s =>
    match c s with
    | (Ok a, s') => (Ok a, s')
    | (Err e, s') => h e s'
    end.

Definition emit (e : event) : Run unit :=
  fun s => (Ok tt, (fst s, snd s ++ [e])).

(** [await p] for a promise that has settled. *)
Definition await (A : Type) (p : result A) : Run A :=
  fun s => (p, s).

(** A call into the browser: traced, then answered by the world. *)
Definition call (A : Type) (e : event) (f : World -> result A * World) : Run A :=
  fun s =>
    let (r, w') := f (fst s) in
    (r, (w', snd s ++ [e])).

End Run.

Arguments ret {World A} a.
Arguments throw {World A} message.
Arguments bind {World A B} c f.
Arguments try_catch {World A} c h.
Arguments emit {World} e.
Arguments await {World A} p.
Arguments call {World A} e f.

End Platform.
Import Platform.

Declare Scope run_scope.
Delimit Scope run_scope with run.
Notation "x <- c ;; k" := (bind c (fun x => k))
  (at level 61, c at next level, right associativity) : run_scope.
Notation "c ;;; k" := (bind c (fun _ => k))
  (at level 61, right associativity) : run_scope.

Local Open Scope run_scope.

(* ================================================================== *)
(** * The background worker: what both variants share *)
(* ================================================================== *)

Module Worker.

(** Sci-Hub mirrors in priority order. *)
Definition SCIHUB_MIRRORS : list jsstring :=
  [str "https://sci-hub.vg"; str "https://sci-hub.al";
   str "https://sci-hub.mk"; str "https://sci-hub.ru"].

Definition USER_AGENT : jsstring :=
  str "Mozilla/5.0 (Macintosh; Intel Mac OS X 10_15_7) "
  ++ str "AppleWebKit/537.36 (KHTML, like Gecko) Chrome/120.0.0.0 Safari/537.36".

(** The request [findPDFUrl] sends to a mirror. *)
Definition lookup_request (mirror doi : jsstring) : request :=
  Request (mirror ++ str "/" ++ doi) GET (Some USER_AGENT).

(** [doi.replace(/\//g, "_").replace(/[^a-zA-Z0-9._-]/g, "")] *)
Definition slash_re : regex := one (ch "/").

Definition allowed (c : char) : bool :=
  is_lower c || is_upper c || is_digit c || char_in (str "._-") c.

Definition unsafe_re : regex := Chr (fun c => negb (allowed c)).

Definition safe_name (doi : jsstring) : jsstring :=
  replaceAll unsafe_re [] (replaceAll slash_re (str "_") doi).

Definition filename_of (doi : jsstring) : jsstring :=
  safe_name doi ++ str ".pdf".

(** [{ success: true }] or [{ success: false, error }] *)
Inductive outcome : Type :=
| Success
| Failure (error : jsstring).

(** How one pass through the body of the mirror loop ends: with the
    function's [return], or with [continue] and a new [lastError]. *)
Inductive pass : Type :=
| Returned
| Continue (lastError : jsstring).

Section Loop.

Variable World : Type.
Variable findPDFUrl : jsstring -> jsstring -> Run World (option jsstring).
Variable downloadFromUrl : jsstring -> jsstring -> Run World N.

Definition attempt (mirror doi : jsstring) : Run World pass :=
  try_catch
    (pdfUrl <- findPDFUrl mirror doi ;;
     if truthy pdfUrl then
       downloadFromUrl (or_else pdfUrl []) doi ;;;
       ret Returned
     else ret (Continue (str "Could not find PDF URL")))
    (fun message =>
       emit (Log (str "Sci-Hub ext: mirror " ++ mirror ++ str " failed for "
                  ++ doi ++ str ": " ++ message)) ;;;
       ret (Continue message)).

Fixpoint mirror_loop (mirrors : list jsstring) (doi : jsstring)
    (lastError : option jsstring) : Run World outcome :=
  match mirrors with
  | [] => ret (Failure (or_else lastError (str "All mirrors failed")))
  | mirror :: more =>
      p <- attempt mirror doi ;;
      match p with
      | Returned => ret Success
      | Continue e => mirror_loop more doi (Some e)
      end
  end.

Definition handleDownload (doi : jsstring) : Run World outcome :=
  mirror_loop SCIHUB_MIRRORS doi None.

(** The message listener; [None]: the message is not answered. *)
Definition onMessage (request : Content.message) : Run World (option outcome) :=
  if JS.eqb (Content.action request) (str "downloadPDF")
     && truthy (Content.doi request)
  then
    try_catch
      (r <- handleDownload (or_else (Content.doi request) []) ;; ret (Some r))
      (fun message => ret (Some (Failure message)))
  else ret None.

End Loop.

End Worker.
Import Worker.

(* ================================================================== *)
(** * The worker that scans the mirror page with patterns *)
(* ================================================================== *)

Module Mv3.

Definition ws : regex := star space.
Definition quote : regex := any_of [dq; sq].
Definition unquoted (c : char) : bool := negb (char_in [dq; sq] c).
Definition in_tag : regex := none_of (str ">").

(** [name\s*=\s*[\x22']([^\x22']+)[\x22']], the name under the i flag *)
Definition attr_capture (name : jsstring) : regex :=
  seqs [lit_i name; ws; one (ch "="); ws; quote; Grp (plus (Chr unquoted));
        quote].

(** [type\s*=\s*[\x22']application\/pdf[\x22']] *)
Definition type_pdf : regex :=
  seqs [lit_i (str "type"); ws; one (ch "="); ws; quote;
        lit_i (str "application/pdf"); quote].

(** [/<iframe[^>]+src\s*=\s*[\x22']([^\x22']+)[\x22']/i] *)
Definition iframe_re : regex :=
  seqs [lit_i (str "<iframe"); plus in_tag; attr_capture (str "src")].

Definition embedPdf_re : regex :=
  seqs [lit_i (str "<embed"); plus in_tag; type_pdf; plus in_tag;
        attr_capture (str "src")].

Definition embedPdf2_re : regex :=
  seqs [lit_i (str "<embed"); plus in_tag; attr_capture (str "src");
        plus in_tag; type_pdf].

Definition embed_re : regex :=
  seqs [lit_i (str "<embed"); plus in_tag; attr_capture (str "src")].

Definition object_re : regex :=
  seqs [lit_i (str "<object"); plus in_tag; attr_capture (str "data")].

(** [/<button[^>]+onclick\s*=\s*[\x22']([^\x22']+)[\x22']/gi] *)
Definition button_re : regex :=
  seqs [lit_i (str "<button"); plus in_tag; attr_capture (str "onclick")].

(** [location\.href\s*=\s*['\x22]] and then, as group 1,
    [[^'\x22]+\.pdf[^'\x22]*] *)
Definition location_re : regex :=
  seqs [lit (str "location.href"); ws; one (ch "="); ws; quote;
        Grp (seqs [plus (Chr unquoted); lit (str ".pdf");
                   star (Chr unquoted)])].

(** [/\\\//g]: a backslash before a slash *)
Definition escaped_slash_re : regex := lit (str "\/").

(** [/<script[^>]*>([\s\S]*?)<\/script>/gi] *)
Definition scriptTag_re : regex :=
  seqs [lit_i (str "<script"); star in_tag; one (ch ">");
        Grp (lazy_star anything); lit_i (str "</script>")].

(** [[^\s\x22<>']] *)
Definition url_unit (c : char) : bool :=
  negb (is_space c || char_in (dq :: sq :: str "<>") c).

(** As group 1, [https?:\/\/[^\s\x22<>']+\.pdf[^\s\x22<>']*] *)
Definition pdfUrl_re : regex :=
  Grp (seqs [lit (str "http"); opt (one (ch "s")); lit (str "://");
             plus (Chr url_unit); lit (str ".pdf"); star (Chr url_unit)]).

(** Under the i flag, [(?:src|href|data)\s*=\s*[\x22']] and then, as
    group 1, [(?:https?:)?\/\/[^\x22']+\.pdf[^\x22']*] *)
Definition anyPdf_re : regex :=
  seqs [Alt (lit_i (str "src")) (Alt (lit_i (str "href")) (lit_i (str "data")));
        ws; one (ch "="); ws; quote;
        Grp (seqs [opt (seqs [lit_i (str "http"); opt (Chr (ci (ch "s")));
                              one (ch ":")]);
                   lit (str "//"); plus (Chr unquoted); lit_i (str ".pdf");
                   star (Chr unquoted)])].

(** [/&amp;/g] and [/#.*$/] *)
Definition amp_re : regex := lit (str "&amp;").
Definition fragment_re : regex := seqs [one (ch "#"); star dot; Eol].

Definition normalizeUrl (url mirror : jsstring) : option jsstring :=
  match url with
  | [] => None
  | _ :: _ =>
      let url := trim url in
      let url := replaceAll amp_re (str "&") url in
      let url := replace fragment_re [] url in
      if startsWith url (str "//") then Some (str "https:" ++ url)
      else if startsWith url (str "/") then Some (mirror ++ url)
      else if startsWith url (str "http") then Some url
      else Some (mirror ++ str "/" ++ url)
  end.

(** The reference each step of the scan extracts, before it is resolved. *)
Definition object_ref (html : jsstring) : option jsstring :=
  match match1 object_re html with
  | Some dataUrl =>
      if includes dataUrl (str ".pdf") || includes dataUrl (str "/pdf/")
         || includes dataUrl (str "/storage/")
      then Some dataUrl else None
  | None => None
  end.

Definition button_ref (html : jsstring) : option jsstring :=
  Content.first_match (fun bm =>
      match group1 bm with
      | Some onclick =>
          match match1 location_re onclick with
          | Some loc => Some (replaceAll escaped_slash_re (str "/") loc)
          | None => None
          end
      | None => None
      end)
    (matchAll button_re html).

Definition script_url (html : jsstring) : option jsstring :=
  Content.first_match (fun sm =>
      match group1 sm with
      | Some txt => match1 pdfUrl_re txt
      | None => None
      end)
    (matchAll scriptTag_re html).

(** The scan of [findPDFUrl] over the mirror's page. *)
Definition scan (html mirror : jsstring) : option jsstring :=
  match match1 iframe_re html with
  | Some ref => normalizeUrl ref mirror
  | None =>
  match match1 embedPdf_re html with
  | Some ref => normalizeUrl ref mirror
  | None =>
  match match1 embedPdf2_re html with
  | Some ref => normalizeUrl ref mirror
  | None =>
  match match1 embed_re html with
  | Some ref => normalizeUrl ref mirror
  | None =>
  match object_ref html with
  | Some ref => normalizeUrl ref mirror
  | None =>
  match button_ref html with
  | Some ref => normalizeUrl ref mirror
  | None =>
  match script_url html with
  | Some url => Some url
  | None =>
  match match1 anyPdf_re html with
  | Some ref => normalizeUrl ref mirror
  | None => None
  end end end end end end end end.

Section Worker.

Variable World : Type.
Variable fetch : request -> World -> result response * World.
Variable chrome_download : downloadOptions -> World -> result N * World.

Definition findPDFUrl (mirror doi : jsstring) : Run World (option jsstring) :=
  let req := lookup_request mirror doi in
  res <- call (Fetch req) (fetch req) ;;
  let contentType := or_else (contentType res) [] in
  if includes contentType (str "application/pdf") then ret (Some (res_url res))
  else
    html <- await (res_text res) ;;
    if includes html (str "Just a moment") && includes html (str "cf_chl")
    then throw (str "Cloudflare challenge")
    else ret (scan html mirror).

Definition downloadFromUrl (pdfUrl doi : jsstring) : Run World N :=
  try_catch
    (let req := Request pdfUrl HEAD None in
     headRes <- call (Fetch req) (fetch req) ;;
     let contentType := or_else (contentType headRes) [] in
     if negb (includes contentType (str "application/pdf"))
        && negb (includes contentType (str "application/octet-stream"))
        && negb (includes contentType (str "application/x-pdf"))
     then emit (Log (str "Sci-Hub ext: HEAD content-type was " ++ contentType
                     ++ str ", trying download anyway"))
     else ret tt)
    (fun _ => ret tt) ;;;
  let opts := DownloadOptions (Address pdfUrl) (filename_of doi) false in
  call (Download opts) (chrome_download opts).

Definition handleDownload : jsstring -> Run World outcome :=
  Worker.handleDownload findPDFUrl downloadFromUrl.

Definition onMessage : Content.message -> Run World (option outcome) :=
  Worker.onMessage findPDFUrl downloadFromUrl.

End Worker.

End Mv3.

(* ================================================================== *)
(** * The worker that parses the mirror page and saves a blob *)
(* ================================================================== *)

Module Blob.

Import Content.

(** [/#.*$/] *)
Definition fragment_re : regex := seqs [one (ch "#"); star dot; Eol].

Definition normalizeUrl (url : option jsstring) (mirror : jsstring)
  : option jsstring :=
  match url with
  | Some (c :: u) =>
      let url := trim (c :: u) in
      let url := replace fragment_re [] url in
      if startsWith url (str "//") then Some (str "https:" ++ url)
      else if startsWith url (str "/") then Some (mirror ++ url)
      else if startsWith url (str "http") then Some url
      else Some (mirror ++ str "/" ++ url)
  | _ => None
  end.

(** [location\.href\s*=\s*['\x22]] and then, as group 1,
    [[^'\x22]+\.pdf[^'\x22]*] *)
Definition location_re : regex := Mv3.location_re.

(** As group 1, [https?:\/\/[^\s\x22<>']+\.pdf[^\s\x22<>']*] *)
Definition pdfUrl_re : regex := Mv3.pdfUrl_re.

Definition object_pick (d : document) (mirror : jsstring)
    (otherwise : option jsstring) : option jsstring :=
  match querySelector d [[Tag "object"; Has "data"]] with
  | Some obj =>
      let dataUrl := or_else (getAttribute obj "data") [] in
      if includes dataUrl (str ".pdf") || includes dataUrl (str "/pdf/")
         || includes dataUrl (str "/storage/")
      then normalizeUrl (Some dataUrl) mirror
      else otherwise
  | None => otherwise
  end.

Fixpoint button_pick (buttons : list element) (mirror : jsstring)
    (otherwise : option jsstring) : option jsstring :=
  match buttons with
  | [] => otherwise
  | btn :: more =>
      let onclick := or_else (getAttribute btn "onclick") [] in
      match match1 location_re onclick with
      | Some loc =>
          normalizeUrl
            (Some (replaceAll Mv3.escaped_slash_re (str "/") loc)) mirror
      | None => button_pick more mirror otherwise
      end
  end.

(** The walk of [findPDFUrl] over the parsed page. *)
Definition pick (d : document) (mirror : jsstring) : option jsstring :=
  match querySelector d [[Tag "iframe"; Has "src"]] with
  | Some iframe => normalizeUrl (getAttribute iframe "src") mirror
  | None =>
  match querySelector d [[Tag "embed"; Eq "type" "application/pdf"; Has "src"]] with
  | Some embed => normalizeUrl (getAttribute embed "src") mirror
  | None =>
  match querySelector d [[Tag "embed"; Has "src"]] with
  | Some embed => normalizeUrl (getAttribute embed "src") mirror
  | None =>
      object_pick d mirror
        (button_pick (querySelectorAll d [[Tag "button"; Has "onclick"]]) mirror
           (first_match (fun script => match1 pdfUrl_re (textContent script))
              (querySelectorAll d [[Tag "script"]])))
  end end end.

Section Worker.

Variable World : Type.
Variable fetch : request -> World -> result response * World.
Variable chrome_download : downloadOptions -> World -> result N * World.
(** [new DOMParser().parseFromString(html, "text/html")] *)
Variable parseFromString : jsstring -> document.

Definition findPDFUrl (mirror doi : jsstring) : Run World (option jsstring) :=
  let req := lookup_request mirror doi in
  res <- call (Fetch req) (fetch req) ;;
  let contentType := or_else (contentType res) [] in
  if includes contentType (str "application/pdf") then ret (Some (res_url res))
  else
    html <- await (res_text res) ;;
    if includes html (str "Just a moment") && includes html (str "cf_chl")
    then throw (str "Cloudflare challenge")
    else ret (pick (parseFromString html) mirror).

Definition downloadFromUrl (pdfUrl doi : jsstring) : Run World N :=
  let req := Request pdfUrl GET None in
  res <- call (Fetch req) (fetch req) ;;
  let contentType := or_else (contentType res) [] in
  if negb (includes contentType (str "application/pdf")) then
    throw (str "Response is not a PDF (got " ++ contentType ++ str ")")
  else
    blob <- await (res_blob res) ;;
    let header := blob_text (blob_slice 5 blob) in
    if negb (startsWith header (str "%PDF-")) then
      throw (str "Invalid PDF content")
    else
      let opts := DownloadOptions (ObjectURL blob) (filename_of doi) false in
      try_catch
        (call (Download opts) (chrome_download opts))
        (fun message => emit (Revoke blob) ;;; throw message).

Definition handleDownload : jsstring -> Run World outcome :=
  Worker.handleDownload findPDFUrl downloadFromUrl.

Definition onMessage : Content.message -> Run World (option outcome) :=
  Worker.onMessage findPDFUrl downloadFromUrl.

End Worker.

End Blob.

(* ================================================================== *)
(** * The specification's vocabulary *)
(* ================================================================== *)

Module Spec.

Import Content.

(** The longest run of units of a class at the head of a text, and what
    follows it. *)
Fixpoint span (p : char -> bool) (s : jsstring) : jsstring * jsstring :=
  match s with
  | [] => ([], [])
  | c :: s' =>
      if p c then let (a, b) := span p s' in (c :: a, b) else ([], s)
  end.

(** What follows the head [10.<4-9 digits>/] of a text, if it has one. *)
Definition after_doi_head (s : jsstring) : option jsstring :=
  if startsWith s (str "10.") then
    let (ds, r) := span is_digit (skipn 3 s) in
    if (4 <=? length ds) && (length ds <=? 9) then
      match r with
      | c :: token => if N.eqb c (ch "/") then Some token else None
      | [] => None
      end
    else None
  else None.

Definition has_doi_head (s : jsstring) : bool :=
  match after_doi_head s with
  | Some _ => true
  | None => false
  end.

(** The DOI syntax [10.<4-9 digits>/<token>], the token being one or
    more units of the class [unit]. *)
Definition doi_pattern (unit : char -> bool) (s : jsstring) : bool :=
  match after_doi_head s with
  | Some (c :: token) => forallb unit (c :: token)
  | _ => false
  end.

(** The syntax as the script's own [DOI_REGEX] spells the token. *)
Definition doi_syntax : jsstring -> bool := doi_pattern doi_unit.

(** The strings the JSON-LD walker looks at: those held under one of its
    five keys, directly or as items of an array, by an object that is the
    value itself or is reached from it through arrays. *)
Inductive ld_source : json -> jsstring -> Prop :=
| source_item items item s :
    In item items -> ld_source item s -> ld_source (JArr items) s
| source_string members key s :
    In key ld_keys -> get key members = Some (JStr s) ->
    ld_source (JObj members) s
| source_array members key items s :
    In key ld_keys -> get key members = Some (JArr items) ->
    In (JStr s) items ->
    ld_source (JObj members) s.

(** The shape of a text: [10.], 4 to 9 digits, a slash, a token. *)
Definition doi_shaped (unit : char -> bool) (d ds token : jsstring) : Prop :=
  d = str "10." ++ ds ++ ch "/" :: token
  /\ forallb is_digit ds = true /\ 4 <= length ds <= 9
  /\ forallb unit token = true.

(** A text that opens with [10.], 4 to 9 digits and a slash. *)
Definition captured (d : jsstring) : Prop :=
  exists unit ds token, doi_shaped unit d ds token.

(** The text after a DOI that ends it: nothing, or a unit outside the
    token class. *)
Definition ends_token (rest_ : jsstring) : Prop :=
  match rest_ with
  | [] => True
  | c :: _ => doi_unit c = false
  end.

(** What a meta tag may put before the DOI: nothing, [doi:], or the
    resolver's address. *)
Definition doi_prefixes : list jsstring :=
  [[]; str "doi:"; str "http://doi.org/"; str "https://doi.org/"].

(** ** Pages the script ignores *)

(** A page is on the ignore list when its host name is one of the
    entries or holds one of them. *)
Definition on_ignore_list (p : page) : Prop :=
  In (hostname p) IGNORE_DOMAINS
  \/ exists d, In d IGNORE_DOMAINS /\ includes (hostname p) d = true.

(** ** Normalizing a reference, in the words of the specification *)

(** Decode the HTML ampersand entity: every [&amp;], left to right,
    becomes [&]. *)
Fixpoint decode_ampersands (s : jsstring) : jsstring :=
  match s with
  | [] => []
  | c1 :: s' =>
      match s' with
      | _ :: _ :: _ :: _ :: r =>
          if startsWith s (str "&amp;") then ch "&" :: decode_ampersands r
          else c1 :: decode_ampersands s'
      | _ => c1 :: decode_ampersands s'
      end
  end.

Definition not_hash (c : char) : bool := negb (N.eqb (ch "#") c).

(** Strip the fragment: keep what stands before the first [#]. *)
Definition strip_fragment (s : jsstring) : jsstring :=
  fst (span not_hash s).

(** Resolve against the mirror base. *)
Definition resolve (mirror url : jsstring) : jsstring :=
  if startsWith url (str "//") then str "https:" ++ url
  else if startsWith url (str "/") then mirror ++ url
  else if startsWith url (str "http") then url
  else mirror ++ str "/" ++ url.

Definition normalized (url mirror : jsstring) : jsstring :=
  resolve mirror (strip_fragment (decode_ampersands (trim url))).

Definition no_line_terminator (s : jsstring) : bool :=
  forallb (fun c => negb (is_line_terminator c)) s.

(** The references the scan of the Manifest V3 worker takes from the
    page outside of inline scripts, step by step. *)
Definition references (html : jsstring) : list (option jsstring) :=
  [match1 Mv3.iframe_re html; match1 Mv3.embedPdf_re html;
   match1 Mv3.embedPdf2_re html; match1 Mv3.embed_re html;
   Mv3.object_ref html; Mv3.button_ref html; match1 Mv3.anyPdf_re html].

(** ** The file name, in the words of the specification *)

Definition underscore (c : char) : char :=
  if N.eqb (ch "/") c then ch "_" else c.

(** ** Traces of a resolution *)

(** The lookups among the requests of a trace: those that carry the
    User-Agent header, which only [findPDFUrl] sets. *)
Definition lookups (tr : list event) : list request :=
  flat_map (fun e =>
    match e with
    | Fetch r => match userAgent r with Some _ => [r] | None => [] end
    | _ => []
    end) tr.

Definition downloads (tr : list event) : list downloadOptions :=
  flat_map (fun e => match e with Download o => [o] | _ => [] end) tr.

Section Resolution.

Variable World : Type.
Variable findPDFUrl : jsstring -> jsstring -> Run World (option jsstring).
Variable downloadFromUrl : jsstring -> jsstring -> Run World N.

(** The state after the [console.log] of the catch clause. *)
Definition logged (mirror doi message : jsstring) (s : state World) : state World :=
  (fst s,
   snd s ++ [Log (str "Sci-Hub ext: mirror " ++ mirror ++ str " failed for "
                  ++ doi ++ str ": " ++ message)]).

(** Every mirror of a list fails, one after the other, with the given
    error messages. *)
Inductive all_fail (doi : jsstring) :
    list jsstring -> state World -> list jsstring -> state World -> Prop :=
| all_fail_nil s : all_fail doi [] s [] s
| all_fail_cons mirror more s e s1 errors s' :
    Worker.attempt findPDFUrl downloadFromUrl mirror doi s
    = (Ok (Continue e), s1) ->
    all_fail doi more s1 errors s' ->
    all_fail doi (mirror :: more) s (e :: errors) s'.

(** The error recorded last: that of the last mirror, or what was there
    before the loop when there is no mirror. *)
Definition recorded (lastError : option jsstring) (errors : list jsstring)
  : option jsstring :=
  match errors with
  | [] => lastError
  | _ :: _ => Some (last errors [])
  end.

End Resolution.

End Spec.
Import Spec.

(* ================================================================== *)
(** * What a match means: a declarative reading of the patterns *)
(* ================================================================== *)

Module Semantics.

(** [n] steps of a relation between positions. *)
Fixpoint iter (n : nat) (R : mstate -> mstate -> Prop) (st st' : mstate) : Prop :=
  match n with
  | 0 => st' = st
  | S n' => exists mid, R st mid /\ iter n' R mid st'
  end.

(** The bound a quantifier puts on the number of iterations. *)
Definition within (lo : nat) (hi : option nat) (n : nat) : Prop :=
  lo <= n /\ match hi with
             | Some h => n <= Nat.max lo h
             | None => True
             end.

(** [matches r st st']: from position [st] the pattern can reach [st'],
    whatever the order in which the matcher would try its choices. *)
Fixpoint matches (r : regex) (st st' : mstate) : Prop :=
  match r with
  | Chr p =>
      exists c, rest st = c :: rest st' /\ p c = true
                /\ seen st' = c :: seen st /\ cap st' = cap st
  | Eps => st' = st
  | Seq r1 r2 => exists mid, matches r1 st mid /\ matches r2 mid st'
  | Alt r1 r2 => matches r1 st st' \/ matches r2 st st'
  | Rep _ lo hi r' => exists n, within lo hi n /\ iter n (matches r') st st'
  | Grp r' =>
      exists mid, matches r' st mid
        /\ st' = MState (seen mid) (rest mid) (Some (consumed st mid))
  | Bol => seen st = [] /\ st' = st
  | Eol => rest st = [] /\ st' = st
  | WordB => xorb (prev_is_word st) (next_is_word st) = true /\ st' = st
  end.

(** The text a pattern can pass over, assertions and groups set aside. *)
Fixpoint pow (n : nat) (L : jsstring -> Prop) (w : jsstring) : Prop :=
  match n with
  | 0 => w = []
  | S n' => exists w1 w2, w = w1 ++ w2 /\ L w1 /\ pow n' L w2
  end.

Fixpoint lang (r : regex) (w : jsstring) : Prop :=
  match r with
  | Chr p => exists c, w = [c] /\ p c = true
  | Eps | Bol | Eol | WordB => w = []
  | Seq r1 r2 => exists w1 w2, w = w1 ++ w2 /\ lang r1 w1 /\ lang r2 w2
  | Alt r1 r2 => lang r1 w \/ lang r2 w
  | Rep _ lo hi r' => exists n, within lo hi n /\ pow n (lang r') w
  | Grp r' => lang r' w
  end.

(** The bodies of the groups of a pattern. *)
Fixpoint groups (r : regex) : list regex :=
  match r with
  | Grp r' => r' :: groups r'
  | Seq r1 r2 | Alt r1 r2 => groups r1 ++ groups r2
  | Rep _ _ _ r' => groups r'
  | _ => []
  end.

(** [st'] lies [w] further than [st] in the same input. *)
Definition advances (st : mstate) (w : jsstring) (st' : mstate) : Prop :=
  seen st' = rev w ++ seen st /\ rest st = w ++ rest st'.

(** Where group 1 comes from: it is left as it was, or holds a text of
    the language of one of the pattern's groups. *)
Definition from_group (r : regex) (c : option jsstring) : Prop :=
  exists body w, In body (groups r) /\ lang body w /\ c = Some w.

End Semantics.
Import Semantics.

(* ================================================================== *)
(** * Pages and worlds for the examples *)
(* ================================================================== *)

Module Examples.

Import Content.

(** A page at the resolver's address for a DOI that ends in a comma, with
    an empty document. *)
Definition comma_page : page :=
  Page (str "doi.org") (str "https://doi.org/10.1234/,") (document_of []).

(** A page of an ignored host with a well-formed DOI meta tag. *)
Definition google_page : page :=
  Page (str "scholar.google.com")
       (str "https://scholar.google.com/scholar?q=10.1038/nature12373")
       (document_of
          [Element (str "meta")
             [(str "name", str "citation_doi");
              (str "content", str "10.1038/nature12373")] []]).

(** A publisher page whose meta tag gives the DOI behind [doi:], while the
    address of the page holds another one. *)
Definition nature_meta : element :=
  Element (str "meta")
    [(str "name", str "citation_doi");
     (str "content", str "doi:10.1038/nature12373")] [].

Definition nature_page : page :=
  Page (str "www.nature.com")
       (str "https://www.nature.com/doi/10.9999/other")
       (document_of [nature_meta]).

Definition nature_doi : jsstring := str "10.1038/nature12373".

(** A page whose only reference sits in an inline script. *)
Definition script_page : jsstring :=
  str "<html><script>var pdf = 'https://cdn.example/a.pdf#page=2&amp;zoom=1';</script></html>".

(** Worlds without a memory: the servers answer by the request alone. *)
Definition stateless (A B : Type) (f : A -> result B) : A -> unit -> result B * unit :=
  fun a w => (f a, w).

Definition start : state unit := (tt, []).

Definition pdf_bytes : list N := str "%PDF-1.4 ...".
Definition html_bytes : list N := str "<html>Not found</html>".

(** Every address answers with a page of HTML; the download manager
    accepts what it is given. *)
Definition html_fetch : request -> unit -> result response * unit :=
  stateless (fun r =>
    Ok (Response (req_url r) (Some (str "text/html"))
                 (Ok (str "<html>Not found</html>")) (Ok html_bytes))).

Definition accepting : downloadOptions -> unit -> result N * unit :=
  stateless (fun _ => Ok 1%N).

(** The network is down. *)
Definition offline : request -> unit -> result response * unit :=
  stateless (fun _ => Err (str "Failed to fetch")).

(** The first mirror redirects to a file that is served as a PDF but is a
    page of HTML; the second redirects to a real PDF; the others cannot be
    reached. *)
Definition bad_file : jsstring := str "https://cdn.example/bad.pdf".
Definition good_file : jsstring := str "https://cdn.example/good.pdf".

Definition pdf_response (url : jsstring) (bytes : list N) : response :=
  Response url (Some (str "application/pdf")) (Err (str "body is not text")) (Ok bytes).

Definition second_mirror_works (r : request) : result response :=
  match userAgent r with
  | Some _ =>
      if startsWith (req_url r) (str "https://sci-hub.vg/")
      then Ok (pdf_response bad_file html_bytes)
      else if startsWith (req_url r) (str "https://sci-hub.al/")
      then Ok (pdf_response good_file pdf_bytes)
      else Err (str "Failed to fetch")
  | None =>
      if JS.eqb (req_url r) bad_file
      then Ok (pdf_response bad_file html_bytes)
      else Ok (pdf_response good_file pdf_bytes)
  end.

(** The same, with the second mirror out of reach as well. *)
Definition only_bad_file (r : request) : result response :=
  match userAgent r with
  | Some _ =>
      if startsWith (req_url r) (str "https://sci-hub.vg/")
      then Ok (pdf_response bad_file html_bytes)
      else Err (str "Failed to fetch")
  | None => Ok (pdf_response bad_file html_bytes)
  end.

(** The last mirror alone answers, with the bad file. *)
Definition last_mirror_bad_file (r : request) : result response :=
  match userAgent r with
  | Some _ =>
      if startsWith (req_url r) (str "https://sci-hub.ru/")
      then Ok (pdf_response bad_file html_bytes)
      else Err (str "Failed to fetch")
  | None => Ok (pdf_response bad_file html_bytes)
  end.

Definition empty_page : jsstring -> document := fun _ => document_of [].

End Examples.
Import Examples.

(* ================================================================== *)
(** * More vocabulary: what a resolution leaves in its trace *)
(* ================================================================== *)

Module TraceSpec.

(** The events a run adds to the trace it starts from. *)
Definition adds (World : Type) (A : Type) (c : Run World A) (s : state World)
    (events : list event) : Prop :=
  snd (snd (c s)) = snd s ++ events.

(** A download of a blob that opens with the PDF signature, saved under
    the file name of the DOI without asking. *)
Definition signed_download (doi : jsstring) (e : event) : Prop :=
  match e with
  | Download o =>
      (exists payload, dl_url o = ObjectURL payload
                       /\ firstn 5 payload = str "%PDF-")
      /\ filename o = filename_of doi /\ saveAs o = false
  | _ => True
  end.

(** A download of a remote address, saved under the file name of the DOI
    without asking. *)
Definition direct_download (doi : jsstring) (e : event) : Prop :=
  match e with
  | Download o =>
      (exists url, dl_url o = Address url)
      /\ filename o = filename_of doi /\ saveAs o = false
  | _ => True
  end.

(** The trace ends with a call of the download manager. *)
Definition ends_with_download (tr : list event) : Prop :=
  exists before o, tr = before ++ [Download o].

End TraceSpec.
Import TraceSpec.

(* ================================================================== *)
(** * The status line under the button *)
(* ================================================================== *)

Module Panel.

(** The element [scihub-ext-status]: its text and the two style
    properties the script sets.  It is part of the button's own markup,
    so it is there whenever the button is. *)
Record status : Type := Status {
  textContent : jsstring;
  display : jsstring;
  color : jsstring
}.

Definition setStatus (msg : jsstring) (isError : bool) : status :=
  Status msg
         (if truthy (Some msg) then str "block" else str "none")
         (if isError then str "#ff6b6b" else str "#a0a0a0").

(** The button while and after a download: whether it carries the class
    [scihub-ext-loading], and its status line. *)
Record panel : Type := Panel {
  loading : bool;
  line : status
}.

(** [downloadPDF] up to the message it sends. *)
Definition fetching : panel := Panel true (setStatus (str "Fetching...") false).

(** The callback [downloadPDF] gives to [sendMessage].  [lastError]:
    [chrome.runtime.lastError] is set; [response]: what the worker sent,
    [None] for undefined. *)
Definition respond (lastError : bool) (response : option outcome) : panel :=
  if lastError then Panel false (setStatus (str "Extension error") true)
  else
    match response with
    | Some Success => Panel false (setStatus (str "Downloaded!") false)
    | Some (Failure err) => Panel false (setStatus err true)
    | None => Panel false (setStatus (str "Unknown error") true)
    end.

(** Three seconds later: after a success the line is cleared. *)
Definition settled (lastError : bool) (response : option outcome) : panel :=
  let p := respond lastError response in
  if lastError then p
  else
    match response with
    | Some Success => Panel (loading p) (setStatus [] false)
    | _ => p
    end.

End Panel.

(* ================================================================== *)
(** * More vocabulary: mirrors that fail, and the prefix of a meta tag *)
(* ================================================================== *)

Module Exhaustion.

Section Calls.

Variable World : Type.
Variable findPDFUrl : jsstring -> jsstring -> Run World (option jsstring).
Variable downloadFromUrl : jsstring -> jsstring -> Run World N.

(** A mirror fails, told by the two calls made for it: the lookup throws,
    the lookup finds no address, or the download of the address found
    throws.  With it go the error recorded for the mirror and the state
    it leaves, the line of the catch clause logged where there was
    something to catch. *)
Inductive mirror_fails (mirror doi : jsstring) (s : state World)
  : jsstring -> state World -> Prop :=
| lookup_throws e s0 :
    findPDFUrl mirror doi s = (Err e, s0) ->
    mirror_fails mirror doi s e (logged mirror doi e s0)
| nothing_found v s0 :
    findPDFUrl mirror doi s = (Ok v, s0) -> truthy v = false ->
    mirror_fails mirror doi s (str "Could not find PDF URL") s0
| download_throws v s0 e s1 :
    findPDFUrl mirror doi s = (Ok v, s0) -> truthy v = true ->
    downloadFromUrl (or_else v []) doi s0 = (Err e, s1) ->
    mirror_fails mirror doi s e (logged mirror doi e s1).

(** The mirrors of a list fail one after the other, with these errors. *)
Inductive fail_in_turn (doi : jsstring)
  : list jsstring -> state World -> list jsstring -> state World -> Prop :=
| none_left s : fail_in_turn doi [] s [] s
| one_more mirror more s e s1 errors s' :
    mirror_fails mirror doi s e s1 ->
    fail_in_turn doi more s1 errors s' ->
    fail_in_turn doi (mirror :: more) s (e :: errors) s'.

End Calls.

End Exhaustion.
Import Exhaustion.

Module TagSpec.



End TagSpec.
Import TagSpec.

(* ================================================================== *)
(** * More pages and worlds for the examples *)
(* ================================================================== *)

Module MoreExamples.

Import Content.





(** Every request is rejected, with an error that has no message. *)
Definition silent : request -> unit -> result response * unit :=
  stateless (fun _ => Err []).

End MoreExamples.
Import MoreExamples.

(* ================================================================== *)
(** * The scripts on the examples of the documentation *)
(* ================================================================== *)

Module Checks.

Import Content.

(** The address of the resolver gives the DOI when the page has no
    metadata at all. *)
Example doi_from_resolver_address :
  detectDOI (fun _ => None)
    (Page (str "doi.org") (str "https://doi.org/10.1038/nature12373")
          (document_of []))
  = Some (str "10.1038/nature12373").
Proof. reflexivity. Qed.

(** Trailing punctuation is cut off. *)
Example cleaned_sentence_end :
  cleanDOI (str "10.1000/xyz123).") = str "10.1000/xyz123".
Proof. reflexivity. Qed.

(** An embedded PDF with a root-relative source. *)
Example embed_is_resolved :
  Mv3.scan (str "<embed type='application/pdf' src='/storage/123/x.pdf'>")
           (str "https://sci-hub.vg")
  = Some (str "https://sci-hub.vg/storage/123/x.pdf").
Proof. reflexivity. Qed.

(** The frame of the classic mirror page, with its viewer fragment. *)
Example iframe_is_resolved :
  Mv3.scan (str "<iframe id='pdf' src='//cdn.example/a/b.pdf#view=FitH'></iframe>")
           (str "https://sci-hub.vg")
  = Some (str "https://cdn.example/a/b.pdf").
Proof. reflexivity. Qed.

(** A challenge page makes the attempt at that mirror fail, and the loop
    goes on. *)
Example challenge_is_a_mirror_failure :
  fst (Worker.attempt
         (Mv3.findPDFUrl (stateless (fun r =>
            Ok (Response (req_url r) (Some (str "text/html"))
                  (Ok (str "<title>Just a moment...</title><script src='/cf_chl_opt.js'>"))
                  (Ok [])))))
         (Mv3.downloadFromUrl offline accepting)
         (str "https://sci-hub.vg") nature_doi start)
  = Ok (Continue (str "Cloudflare challenge")).
Proof. reflexivity. Qed.

(** The file name of a DOI. *)
Example file_name_of_doi :
  filename_of (str "10.1002/(SICI)1097-4571(199806)49:8")
  = str "10.1002_SICI1097-4571199806498.pdf".
Proof. reflexivity. Qed.

End Checks.

(* ================================================================== *)
(** * The matcher against the declarative reading *)
(* ================================================================== *)

Module RegexFacts.

Lemma advances_refl st : advances st [] st.
Proof. split; reflexivity. Qed.

Lemma advances_trans st w1 mid w2 st' :
  advances st w1 mid -> advances mid w2 st' -> advances st (w1 ++ w2) st'.
Proof.
  intros [H1 H2] [H3 H4]. split.
  - rewrite H3, H1, rev_app_distr, app_assoc. reflexivity.
  - rewrite H2, H4, app_assoc. reflexivity.
Qed.

Lemma advances_consumed st w st' : advances st w st' -> consumed st st' = w.
Proof.
  intros [H _]. unfold consumed. rewrite H, length_app, length_rev.
  replace (length w + length (seen st) - length (seen st)) with (length (rev w))
    by (rewrite length_rev; lia).
  rewrite firstn_app, firstn_all, Nat.sub_diag. simpl.
  rewrite app_nil_r. apply rev_involutive.
Qed.

Lemma rep_sound (body : mstate -> cont -> option mstate)
    (R : mstate -> mstate -> Prop) :
  (forall st k res, body st k = Some res ->
     exists st', R st st' /\ k st' = Some res) ->
  forall fuel greedy lo hi st k res,
    rep fuel body greedy lo hi st k = Some res ->
    exists n st', within lo hi n /\ iter n R st st' /\ k st' = Some res.
Proof.
  intros Hbody. induction fuel as [|fuel IH]; intros greedy lo hi st k res H.
  - discriminate.
  - simpl in H. destruct lo as [|lo].
    + destruct (hi_is_zero hi) eqn:Hz.
      * exists 0, st. repeat split; simpl; auto. destruct hi; lia.
      * assert (Hagain : forall res0,
          body st (fun st' =>
            if length (rest st') =? length (rest st) then None
            else rep fuel body greedy 0 (pred_hi hi) st' k) = Some res0 ->
          exists n st', within 0 hi n /\ iter n R st st' /\ k st' = Some res0).
        { intros res0 H0. apply Hbody in H0. destruct H0 as (st1 & HR & H0).
          destruct (length (rest st1) =? length (rest st)); [discriminate|].
          apply IH in H0. destruct H0 as (n & st' & [Hlo Hhi] & Hit & Hk).
          exists (S n), st'. split; [|split; auto].
          - split; [lia|]. destruct hi as [[|h]|]; [discriminate| |exact I].
            cbn [pred_hi] in Hhi. lia.
          - simpl. exists st1. auto. }
        assert (Hstop : forall res0, k st = Some res0 ->
          exists n st', within 0 hi n /\ iter n R st st' /\ k st' = Some res0).
        { intros res0 H0. exists 0, st. repeat split; simpl; auto.
          destruct hi; lia. }
        destruct greedy.
        -- destruct (body st _) eqn:E in H.
           ++ inversion H; subst. apply Hagain. exact E.
           ++ apply Hstop. exact H.
        -- destruct (k st) eqn:E in H.
           ++ inversion H; subst. apply Hstop. exact E.
           ++ apply Hagain. exact H.
    + apply Hbody in H. destruct H as (st1 & HR & H).
      apply IH in H. destruct H as (n & st' & [Hlo Hhi] & Hit & Hk).
      exists (S n), st'. split; [|split; auto].
      * split; [lia|]. destruct hi as [h|]; [|exact I].
        cbn [pred_hi] in Hhi. lia.
      * simpl. exists st1. auto.
Qed.

(** Whatever the matcher finds, the declarative reading allows. *)
Lemma m_sound r : forall st k res,
  m r st k = Some res -> exists st', matches r st st' /\ k st' = Some res.
Proof.
  induction r as [p| |r1 IH1 r2 IH2|r1 IH1 r2 IH2|g lo hi r IH|r IH| | |];
    intros st k res H; simpl in H.
  - destruct st as [sn [|c tl] cp]; simpl in *; [discriminate|].
    destruct (p c) eqn:Hp; [|discriminate].
    eexists. split; [|exact H]. simpl. exists c. auto.
  - exists st. simpl. auto.
  - apply IH1 in H. destruct H as (mid & H1 & H).
    apply IH2 in H. destruct H as (st' & H2 & H).
    exists st'. split; auto. simpl. exists mid. auto.
  - destruct (m r1 st k) eqn:E.
    + inversion H; subst. apply IH1 in E. destruct E as (st' & H1 & E).
      exists st'. simpl. auto.
    + apply IH2 in H. destruct H as (st' & H2 & H).
      exists st'. simpl. auto.
  - apply (rep_sound (m r) (matches r) IH) in H.
    destruct H as (n & st' & Hn & Hit & Hk).
    exists st'. split; auto. simpl. exists n. auto.
  - apply IH in H. destruct H as (mid & H1 & H).
    eexists. split; [|exact H]. simpl. exists mid. auto.
  - destruct (seen st) eqn:E; [|discriminate]. exists st. simpl. auto.
  - destruct (rest st) eqn:E; [|discriminate]. exists st. simpl. auto.
  - destruct (xorb _ _) eqn:E; [|discriminate]. exists st. simpl. auto.
Qed.

Lemma iter_lang (R : mstate -> mstate -> Prop) (L : jsstring -> Prop) :
  (forall st st', R st st' -> exists w, advances st w st' /\ L w) ->
  forall n st st', iter n R st st' ->
    exists w, advances st w st' /\ pow n L w.
Proof.
  intros HR. induction n as [|n IH]; intros st st' H; simpl in H.
  - subst. exists []. split; [apply advances_refl | reflexivity].
  - destruct H as (mid & H1 & H2).
    apply HR in H1. destruct H1 as (w1 & A1 & L1).
    apply IH in H2. destruct H2 as (w2 & A2 & L2).
    exists (w1 ++ w2). split; [eapply advances_trans; eauto|].
    simpl. exists w1, w2. auto.
Qed.

(** A match passes over a text of the pattern's language. *)
Lemma matches_lang r : forall st st',
  matches r st st' -> exists w, advances st w st' /\ lang r w.
Proof.
  induction r as [p| |r1 IH1 r2 IH2|r1 IH1 r2 IH2|g lo hi r IH|r IH| | |];
    intros st st' H; simpl in H.
  - destruct H as (c & Hr & Hp & Hs & _). exists [c]. split.
    + split; simpl; auto.
    + simpl. exists c. auto.
  - subst. exists []. split; [apply advances_refl | reflexivity].
  - destruct H as (mid & H1 & H2).
    apply IH1 in H1. destruct H1 as (w1 & A1 & L1).
    apply IH2 in H2. destruct H2 as (w2 & A2 & L2).
    exists (w1 ++ w2). split; [eapply advances_trans; eauto|].
    simpl. exists w1, w2. auto.
  - destruct H as [H|H]; [apply IH1 in H | apply IH2 in H];
      destruct H as (w & A & L); exists w; simpl; auto.
  - destruct H as (n & Hn & Hit).
    apply (iter_lang (matches r) (lang r) IH) in Hit.
    destruct Hit as (w & A & P). exists w. split; auto. simpl. exists n. auto.
  - destruct H as (mid & H & ->). apply IH in H. destruct H as (w & A & L).
    exists w. split; [|exact L]. destruct A as [A1 A2]. split; simpl; assumption.
  - destruct H as [_ ->]. exists []. split; [apply advances_refl | reflexivity].
  - destruct H as [_ ->]. exists []. split; [apply advances_refl | reflexivity].
  - destruct H as [_ ->]. exists []. split; [apply advances_refl | reflexivity].
Qed.

Lemma iter_cap (r : regex) :
  (forall st st', matches r st st' ->
     cap st' = cap st \/ from_group r (cap st')) ->
  forall n st st', iter n (matches r) st st' ->
    cap st' = cap st \/ from_group r (cap st').
Proof.
  intros HR. induction n as [|n IH]; intros st st' H; simpl in H.
  - subst. auto.
  - destruct H as (mid & H1 & H2). apply HR in H1. apply IH in H2.
    destruct H2 as [H2|H2]; auto. rewrite H2. exact H1.
Qed.

Lemma from_group_incl r r' c :
  incl (groups r) (groups r') -> from_group r c -> from_group r' c.
Proof.
  intros Hi (body & w & Hin & Hl & Hc). exists body, w. auto.
Qed.

Lemma matches_cap r : forall st st',
  matches r st st' -> cap st' = cap st \/ from_group r (cap st').
Proof.
  induction r as [p| |r1 IH1 r2 IH2|r1 IH1 r2 IH2|g lo hi r IH|r IH| | |];
    intros st st' H; simpl in H.
  - destruct H as (c & _ & _ & _ & Hc). auto.
  - subst. auto.
  - destruct H as (mid & H1 & H2). apply IH1 in H1. apply IH2 in H2.
    destruct H2 as [H2|H2].
    + rewrite H2. destruct H1 as [H1|H1]; auto. right.
      eapply from_group_incl; [|exact H1]. simpl. apply incl_appl, incl_refl.
    + right. eapply from_group_incl; [|exact H2].
      simpl. apply incl_appr, incl_refl.
  - destruct H as [H|H]; [apply IH1 in H | apply IH2 in H];
      (destruct H as [H|H]; auto; right; eapply from_group_incl; [|exact H]);
      simpl; [apply incl_appl | apply incl_appr]; apply incl_refl.
  - destruct H as (n & _ & Hit). apply (iter_cap IH) in Hit. exact Hit.
  - destruct H as (mid & H & ->). right.
    apply matches_lang in H. destruct H as (w & A & L).
    exists r, w. simpl. rewrite (advances_consumed A). auto.
  - destruct H as [_ ->]. auto.
  - destruct H as [_ ->]. auto.
  - destruct H as [_ ->]. auto.
Qed.

(** What [exec] found, in terms of the declarative reading. *)
Lemma exec_from_sound r : forall rs sn res,
  exec_from r sn rs = Some res ->
  exists skipped st',
    rs = skipped ++ whole res ++ after res
    /\ matches r (MState (rev skipped ++ sn) (whole res ++ after res) None) st'
    /\ before res = rev sn ++ skipped
    /\ group1 res = cap st'
    /\ after res = rest st'
    /\ lang r (whole res).
Proof.
  induction rs as [|c tl IH]; intros sn res H; simpl in H.
  - destruct (m r (MState sn [] None) Some) as [st'|] eqn:E; [|discriminate].
    inversion H; subst; clear H. simpl.
    apply m_sound in E. destruct E as (st'' & Hm & E). inversion E; subst.
    destruct (matches_lang _ _ _ Hm) as (w & A & L).
    rewrite (advances_consumed A). destruct A as [A1 A2]. simpl in A2.
    exists [], st'. simpl. rewrite <- A2, app_nil_r. auto 10.
  - destruct (m r (MState sn (c :: tl) None) Some) as [st'|] eqn:E.
    + inversion H; subst; clear H. simpl.
      apply m_sound in E. destruct E as (st'' & Hm & E). inversion E; subst.
      destruct (matches_lang _ _ _ Hm) as (w & A & L).
      rewrite (advances_consumed A). destruct A as [A1 A2]. simpl in A2.
      exists [], st'. simpl. rewrite <- A2, app_nil_r. auto 10.
    + apply IH in H.
      destruct H as (skipped & st' & Hrs & Hm & Hb & Hg & Ha & L).
      simpl in Hb. rewrite <- app_assoc in Hb. simpl in Hb.
      exists (c :: skipped), st'. simpl.
      rewrite <- app_assoc. simpl. rewrite <- Hrs. auto 10.
Qed.

Lemma exec_sound r s res :
  exec r s = Some res ->
  s = before res ++ whole res ++ after res
  /\ lang r (whole res)
  /\ (group1 res = None \/ from_group r (group1 res))
  /\ exists st', matches r (MState (rev (before res)) (whole res ++ after res) None) st'
                 /\ after res = rest st' /\ group1 res = cap st'.
Proof.
  unfold exec. intros H. apply exec_from_sound in H.
  destruct H as (skipped & st' & Hrs & Hm & Hb & Hg & Ha & L).
  simpl in Hb. rewrite Hb. rewrite app_nil_r in Hm.
  repeat split; auto.
  - apply matches_cap in Hm. simpl in Hm. rewrite Hg. exact Hm.
  - exists st'. auto.
Qed.

(** Group 1 of a match is a text of one of the pattern's groups. *)
Lemma match1_sound r s d :
  match1 r s = Some d -> exists body, In body (groups r) /\ lang body d.
Proof.
  unfold match1. destruct (exec r s) as [res|] eqn:E; [|discriminate].
  intros H. apply exec_sound in E. destruct E as (_ & _ & [E|E] & _).
  - congruence.
  - destruct E as (body & w & Hin & Hl & Hc). exists body.
    rewrite H in Hc. inversion Hc; subst. auto.
Qed.

(** ** Texts of simple patterns *)

Lemma lang_lit s w : lang (lit s) w -> w = s.
Proof.
  revert w. induction s as [|c s IH]; intros w H.
  - exact H.
  - destruct s as [|c' s'].
    + simpl in H. destruct H as (x & -> & Hx).
      apply N.eqb_eq in Hx. subst. reflexivity.
    + change (lit (c :: c' :: s')) with (Seq (one c) (lit (c' :: s'))) in H.
      simpl lang in H. destruct H as (w1 & w2 & -> & (x & -> & Hx) & H2).
      apply N.eqb_eq in Hx. subst. apply IH in H2. subst. reflexivity.
Qed.

Lemma pow_chr p : forall n w,
  pow n (lang (Chr p)) w -> length w = n /\ forallb p w = true.
Proof.
  induction n as [|n IH]; intros w H; simpl in H.
  - subst. auto.
  - destruct H as (w1 & w2 & -> & (c & -> & Hc) & H2).
    apply IH in H2. destruct H2 as [H2 H3]. simpl. rewrite Hc, H3, H2. auto.
Qed.

Lemma lang_rep_chr g lo hi p w :
  lang (Rep g lo hi (Chr p)) w ->
  within lo hi (length w) /\ forallb p w = true.
Proof.
  simpl. intros (n & Hn & H). apply pow_chr in H. destruct H as [<- H]. auto.
Qed.

(** ** The greedy loop over a class *)

(** When the whole run of units of the class can be taken and the rest of
    the pattern succeeds after it, that is the match: the longest choice
    is the first one tried. *)
Lemma rep_chr_all p : forall w fuel lo hi sn tl cp k res,
  forallb p w = true ->
  match tl with [] => True | c :: _ => p c = false end ->
  lo <= length w ->
  match hi with Some h => length w <= h | None => True end ->
  lo + length (w ++ tl) < fuel ->
  k (MState (rev w ++ sn) tl cp) = Some res ->
  rep fuel (m (Chr p)) true lo hi (MState sn (w ++ tl) cp) k = Some res.
Proof.
  induction w as [|c w IH]; intros fuel lo hi sn tl cp k res Hw Htl Hlo Hhi Hf Hk.
  - simpl in *. destruct fuel as [|fuel]; [lia|].
    destruct lo; [|lia]. simpl.
    destruct (hi_is_zero hi); [exact Hk|].
    destruct tl as [|c tl]; simpl; [exact Hk|]. rewrite Htl. exact Hk.
  - simpl in Hw. apply andb_true_iff in Hw. destruct Hw as [Hc Hw].
    destruct fuel as [|fuel]; [lia|].
    simpl rev in Hk. rewrite <- app_assoc in Hk. simpl app in Hk.
    simpl length in *. destruct lo as [|lo]; simpl.
    + destruct hi as [[|h]|]; simpl in Hhi; try lia; simpl; rewrite Hc;
        replace (length (w ++ tl) =? S (length (w ++ tl))) with false
          by (symmetry; apply Nat.eqb_neq; lia);
        (rewrite IH with (res := res); auto; simpl; lia).
    + rewrite Hc. apply IH; auto; try lia.
      destruct hi; simpl; auto. lia.
Qed.

Lemma m_rep_chr_all p w lo hi sn tl cp k res :
  forallb p w = true ->
  match tl with [] => True | c :: _ => p c = false end ->
  lo <= length w ->
  match hi with Some h => length w <= h | None => True end ->
  k (MState (rev w ++ sn) tl cp) = Some res ->
  m (Rep true lo hi (Chr p)) (MState sn (w ++ tl) cp) k = Some res.
Proof.
  intros. simpl. apply rep_chr_all; auto. lia.
Qed.

(** ** [exec], position by position *)

Lemma exec_from_here r sn rs st' :
  m r (MState sn rs None) Some = Some st' ->
  exec_from r sn rs =
    Some (MResult (rev sn) (consumed (MState sn rs None) st') (cap st') (rest st')).
Proof. intros H. destruct rs; simpl; rewrite H; reflexivity. Qed.

Lemma exec_from_next r sn c tl :
  m r (MState sn (c :: tl) None) Some = None ->
  exec_from r sn (c :: tl) = exec_from r (c :: sn) tl.
Proof. intros H. simpl. rewrite H. reflexivity. Qed.

(** A pattern that opens with [^] matches at the start or nowhere. *)
Lemma exec_from_bol r : forall rs sn,
  sn <> [] -> exec_from (Seq Bol r) sn rs = None.
Proof.
  induction rs as [|c tl IH]; intros sn Hsn; simpl;
    destruct sn; try congruence; auto.
  apply IH. discriminate.
Qed.

(** ** Literals, unit by unit *)

Lemma m_seq r1 r2 st k : m (Seq r1 r2) st k = m r1 st (fun st' => m r2 st' k).
Proof. reflexivity. Qed.

Lemma m_grp r st k :
  m (Grp r) st k =
  m r st (fun st' => k (MState (seen st') (rest st') (Some (consumed st st')))).
Proof. reflexivity. Qed.

Lemma m_wordb st k :
  m WordB st k =
  if xorb (prev_is_word st) (next_is_word st) then k st else None.
Proof. reflexivity. Qed.

Lemma m_one c sn tl cp k :
  m (one c) (MState sn (c :: tl) cp) k = k (MState (c :: sn) tl cp).
Proof. simpl. rewrite N.eqb_refl. reflexivity. Qed.

Lemma m_lit : forall s sn tl cp k,
  m (lit s) (MState sn (s ++ tl) cp) k = k (MState (rev s ++ sn) tl cp).
Proof.
  induction s as [|c s IH]; intros sn tl cp k.
  - reflexivity.
  - destruct s as [|c' s'].
    + apply m_one.
    + change (lit (c :: c' :: s')) with (Seq (one c) (lit (c' :: s'))).
      rewrite m_seq. change ((c :: c' :: s') ++ tl) with (c :: (c' :: s') ++ tl).
      rewrite m_one, IH. simpl. rewrite <- !app_assoc. reflexivity.
Qed.

Lemma m_bol rs cp k : m Bol (MState [] rs cp) k = k (MState [] rs cp).
Proof. reflexivity. Qed.

Lemma m_alt r1 r2 st k :
  m (Alt r1 r2) st k =
  match m r1 st k with
  | Some res => Some res
  | None => m r2 st k
  end.
Proof. reflexivity. Qed.

(** An optional unit that is there is taken first. *)
Lemma m_opt_take p c sn tl cp k :
  p c = true ->
  m (opt (Chr p)) (MState sn (c :: tl) cp) k =
  match k (MState (c :: sn) tl cp) with
  | Some res => Some res
  | None => k (MState sn (c :: tl) cp)
  end.
Proof.
  intros Hp. unfold opt. simpl. rewrite Hp.
  replace (length tl =? S (length tl)) with false
    by (symmetry; apply Nat.eqb_neq; lia).
  rewrite Nat.add_1_r. reflexivity.
Qed.

(** An optional unit that is not there is passed over. *)
Lemma m_opt_skip p sn tl cp k :
  match tl with [] => True | c :: _ => p c = false end ->
  m (opt (Chr p)) (MState sn tl cp) k = k (MState sn tl cp).
Proof.
  intros Hp. unfold opt. simpl. rewrite Nat.add_1_r. simpl.
  destruct tl as [|c tl]; simpl; [reflexivity|]. rewrite Hp. reflexivity.
Qed.

End RegexFacts.

(* ================================================================== *)
(** * The fuel of the loops is enough *)
(* ================================================================== *)

Module Adequacy.

Import RegexFacts.

(** The rest of a pattern is only ever tried at positions that are not
    behind the current one. *)
Definition forward (body : mstate -> cont -> option mstate) : Prop :=
  forall st k k',
    (forall st', length (rest st') <= length (rest st) -> k st' = k' st') ->
    body st k = body st k'.

Lemma rep_forward body :
  forward body ->
  forall fuel greedy lo hi, forward (rep fuel body greedy lo hi).
Proof.
  intros Hbody. induction fuel as [|fuel IH]; intros greedy lo hi st k k' H.
  - reflexivity.
  - simpl. destruct lo as [|lo].
    + rewrite (H st (Nat.le_refl _)).
      destruct (hi_is_zero hi); [reflexivity|].
      rewrite (Hbody st _ (fun st' =>
        if length (rest st') =? length (rest st) then None
        else rep fuel body greedy 0 (pred_hi hi) st' k')).
      * reflexivity.
      * intros st' Hle. destruct (_ =? _); [reflexivity|].
        apply IH. intros st'' Hle'. apply H. lia.
    + apply Hbody. intros st' Hle. apply IH.
      intros st'' Hle'. apply H. lia.
Qed.

Lemma m_forward r : forward (m r).
Proof.
  induction r as [p| |r1 IH1 r2 IH2|r1 IH1 r2 IH2|g lo hi r IH|r IH| | |];
    intros st k k' H; simpl.
  - destruct st as [sn [|c tl] cp]; simpl; [reflexivity|].
    destruct (p c); [|reflexivity]. apply H. simpl. lia.
  - apply H. lia.
  - apply IH1. intros st' Hle. apply IH2. intros st'' Hle'. apply H. lia.
  - rewrite (IH1 st k k' H), (IH2 st k k' H). reflexivity.
  - apply rep_forward; assumption.
  - apply IH. intros st' Hle. apply H. simpl. exact Hle.
  - destruct (seen st); [apply H; lia | reflexivity].
  - destruct (rest st) eqn:E; [apply H; rewrite E; simpl; lia | reflexivity].
  - destruct (xorb _ _); [apply H; lia | reflexivity].
Qed.

(** Above its threshold the fuel of a quantifier does not matter: the
    loop stops because the input runs out, never because the fuel does. *)
Lemma rep_fuel body greedy hi k :
  forward body ->
  forall n lo st fuel1 fuel2,
    lo + length (rest st) <= n ->
    lo + length (rest st) < fuel1 ->
    lo + length (rest st) < fuel2 ->
    rep fuel1 body greedy lo hi st k = rep fuel2 body greedy lo hi st k.
Proof.
  intros Hbody n. revert hi.
  induction n as [|n IH]; intros hi lo st fuel1 fuel2 Hn H1 H2;
    (destruct fuel1 as [|fuel1]; [lia|]); (destruct fuel2 as [|fuel2]; [lia|]);
    simpl; destruct lo as [|lo]; try lia.
  - destruct (hi_is_zero hi); [reflexivity|].
    rewrite (Hbody st _ (fun st' =>
      if length (rest st') =? length (rest st) then None
      else rep fuel2 body greedy 0 (pred_hi hi) st' k)); [reflexivity|].
    intros st' Hle. destruct (Nat.eqb_spec (length (rest st')) (length (rest st)));
      [reflexivity|]. simpl in *. lia.
  - destruct (hi_is_zero hi); [reflexivity|].
    rewrite (Hbody st _ (fun st' =>
      if length (rest st') =? length (rest st) then None
      else rep fuel2 body greedy 0 (pred_hi hi) st' k)); [reflexivity|].
    intros st' Hle. destruct (Nat.eqb_spec (length (rest st')) (length (rest st)));
      [reflexivity|]. apply IH; simpl in *; lia.
  - apply Hbody. intros st' Hle. apply IH; simpl in *; lia.
Qed.

(** The quantifier of the matcher with any fuel above the threshold. *)
Lemma m_rep_any_fuel greedy lo hi r st k fuel :
  lo + length (rest st) < fuel ->
  m (Rep greedy lo hi r) st k = rep fuel (m r) greedy lo hi st k.
Proof.
  intros H. simpl.
  apply rep_fuel with (n := lo + length (rest st)); try lia.
  apply m_forward.
Qed.

(** What is left after a match is a part of the text searched. *)
Lemma exec_from_after r rs sn res :
  exec_from r sn rs = Some res ->
  length (whole res) + length (after res) <= length rs.
Proof.
  intros H. apply exec_from_sound in H.
  destruct H as (skipped & st' & Hrs & _).
  rewrite Hrs, !length_app. lia.
Qed.

(** The list of all matches does not depend on the fuel either. *)
Lemma matches_from_fuel r : forall n rs sn fuel1 fuel2,
  length rs <= n -> length rs < fuel1 -> length rs < fuel2 ->
  matches_from fuel1 r sn rs = matches_from fuel2 r sn rs.
Proof.
  induction n as [|n IH]; intros rs sn fuel1 fuel2 Hn H1 H2;
    (destruct fuel1 as [|fuel1]; [lia|]); (destruct fuel2 as [|fuel2]; [lia|]);
    simpl; destruct (exec_from r sn rs) as [res|] eqn:E; try reflexivity;
    pose proof (exec_from_after _ _ _ E) as Ha;
    f_equal; destruct (whole res), (after res); try reflexivity;
    simpl in *; try lia; apply IH; simpl; lia.
Qed.

Lemma replace_from_fuel r by_ : forall n rs sn fuel1 fuel2,
  length rs <= n -> length rs < fuel1 -> length rs < fuel2 ->
  replace_from fuel1 r by_ sn rs = replace_from fuel2 r by_ sn rs.
Proof.
  induction n as [|n IH]; intros rs sn fuel1 fuel2 Hn H1 H2;
    (destruct fuel1 as [|fuel1]; [lia|]); (destruct fuel2 as [|fuel2]; [lia|]);
    simpl; destruct (exec_from r sn rs) as [res|] eqn:E; try reflexivity;
    pose proof (exec_from_after _ _ _ E) as Ha;
    f_equal; f_equal; destruct (whole res), (after res); try reflexivity;
    simpl in *; try lia;
    try match goal with |- _ :: _ = _ :: _ => f_equal end;
    apply IH; simpl; lia.
Qed.

End Adequacy.

(* ================================================================== *)
(** * The content script: what the DOI patterns capture *)
(* ================================================================== *)

Module ContentFacts.

Import RegexFacts Content.

Lemma span_run p : forall w c r,
  forallb p w = true -> p c = false -> span p (w ++ c :: r) = (w, c :: r).
Proof.
  induction w as [|x w IH]; intros c r Hw Hc; simpl.
  - rewrite Hc. reflexivity.
  - simpl in Hw. apply andb_true_iff in Hw. destruct Hw as [Hx Hw].
    rewrite Hx, (IH c r Hw Hc). reflexivity.
Qed.

Lemma doi_body_lang unit d :
  lang (doi_body unit) d ->
  exists ds token, doi_shaped unit d ds token /\ token <> [].
Proof.
  unfold doi_body. simpl seqs. intros H.
  change (lang (Seq (lit (str "10."))
           (Seq (Rep true 4 (Some 9) digit)
              (Seq (one (ch "/")) (plus (Chr unit))))) d) in H.
  cbn [lang] in H.
  destruct H as (w1 & x1 & -> & H1 & w2 & x2 & -> & H2 & w3 & w4 & -> & H3 & H4).
  apply lang_lit in H1. subst w1.
  destruct H2 as (n2 & [Hlo Hhi] & H2). apply pow_chr in H2. destruct H2 as [Hn2 Hd].
  destruct H3 as (c & -> & Hc). apply N.eqb_eq in Hc. subst c.
  destruct H4 as (n4 & [Hlo4 _] & H4). apply pow_chr in H4. destruct H4 as [Hn4 Ht].
  exists w2, w4. split.
  - repeat split; auto; simpl in Hhi; lia.
  - intros ->. simpl in Hn4. lia.
Qed.

Lemma doi_shaped_head unit d ds token :
  doi_shaped unit d ds token -> after_doi_head d = Some token.
Proof.
  intros (-> & Hd & Hn & _). unfold after_doi_head.
  change (startsWith (str "10." ++ ds ++ ch "/" :: token) (str "10.")) with true.
  change (skipn 3 (str "10." ++ ds ++ ch "/" :: token)) with (ds ++ ch "/" :: token).
  cbv iota. rewrite (@span_run _ _ (ch "/") token Hd eq_refl).
  destruct (Nat.leb_spec 4 (length ds)); [|lia].
  destruct (Nat.leb_spec (length ds) 9); [|lia].
  simpl. reflexivity.
Qed.

Lemma doi_shaped_pattern unit d ds token :
  doi_shaped unit d ds token -> token <> [] -> doi_pattern unit d = true.
Proof.
  intros H Hne. unfold doi_pattern. rewrite (doi_shaped_head H).
  destruct H as (_ & _ & _ & Ht). destruct token; [congruence|exact Ht].
Qed.

(** Group 1 of the script's own pattern has the DOI syntax. *)
Lemma DOI_REGEX_sound s d :
  match1 DOI_REGEX s = Some d -> doi_syntax d = true.
Proof.
  intros H. apply match1_sound in H. destruct H as (body & Hin & Hl).
  simpl in Hin. destruct Hin as [<-|[]].
  apply doi_body_lang in Hl. destruct Hl as (ds & token & Hs & Hne).
  exact (doi_shaped_pattern Hs Hne).
Qed.

Lemma doi_in_sound s d : doi_in s = Some d -> doi_syntax d = true.
Proof. apply DOI_REGEX_sound. Qed.

Lemma first_match_some (A : Type) (f : A -> option jsstring) l d :
  first_match f l = Some d -> exists a, In a l /\ f a = Some d.
Proof.
  induction l as [|x l IH]; simpl; [discriminate|].
  destruct (f x) eqn:E.
  - intros H. inversion H; subst. exists x. auto.
  - intros H. destruct (IH H) as (a & Ha & Hf). exists a. auto.
Qed.

Lemma first_truthy_some (A : Type) (f : A -> option jsstring) l d :
  first_truthy f l = Some d -> exists a, In a l /\ f a = Some d.
Proof.
  induction l as [|x l IH]; simpl; [discriminate|].
  destruct (truthy (f x)).
  - intros H. exists x. auto.
  - intros H. destruct (IH H) as (a & Ha & Hf). exists a. auto.
Qed.

Lemma ld_value_sound members key d :
  In key ld_keys ->
  ld_value (get key members) = Some d ->
  exists s, ld_source (JObj members) s /\ doi_in s = Some d.
Proof.
  intros Hk H. unfold ld_value in H.
  destruct (get key members) as [[| | |s|items|]|] eqn:E; try discriminate.
  - exists s. split; [eapply source_string; eauto | exact H].
  - apply first_match_some in H. destruct H as (item & Hin & H).
    destruct item as [| | |s| |]; try discriminate.
    exists s. split; [eapply source_array; eauto | exact H].
Qed.

(** What the walker returns was captured by [DOI_REGEX] from one of the
    strings it looks at. *)
Lemma extractDOIFromLD_sound : forall data d,
  extractDOIFromLD data = Some d ->
  exists s, ld_source data s /\ doi_in s = Some d.
Proof.
  induction data as [| | | |items IH|members] using json_induction;
    intros d H; try (simpl in H; discriminate).
  - simpl in H. destruct b; discriminate.
  - simpl in H. destruct (Z.eqb n 0); discriminate.
  - simpl in H. destruct s; discriminate.
  - simpl in H. induction IH as [|item items Hitem _ IHitems]; [discriminate|].
    destruct (truthy (extractDOIFromLD item)).
    + destruct (Hitem d H) as (s & Hs & Hd).
      exists s. split; [|exact Hd]. eapply source_item; [left; reflexivity|exact Hs].
    + destruct (IHitems H) as (s & Hs & Hd). exists s. split; [|exact Hd].
      inversion Hs; subst. eapply source_item; [right; eassumption|eassumption].
  - change (extractDOIFromLD (JObj members))
      with (first_match (fun key => ld_value (get key members)) ld_keys) in H.
    apply first_match_some in H. destruct H as (key & Hk & H).
    eapply ld_value_sound; eauto.
Qed.

(** ** Every step of [detectDOI] returns a capture of the DOI head *)

Lemma match1_captured r unit s d :
  groups r = [doi_body unit] -> match1 r s = Some d -> captured d.
Proof.
  intros Hg H. apply match1_sound in H. destruct H as (body & Hin & Hl).
  rewrite Hg in Hin. destruct Hin as [<-|[]].
  apply doi_body_lang in Hl. destruct Hl as (ds & token & Hs & _).
  exists unit, ds, token. exact Hs.
Qed.

Lemma doi_in_captured s d : doi_in s = Some d -> captured d.
Proof. apply (@match1_captured DOI_REGEX doi_unit). reflexivity. Qed.

Lemma meta_tier_captured d : forall sels x,
  meta_tier d sels = Some x -> captured x.
Proof.
  induction sels as [|sel sels IH]; intros x H; simpl in H; [discriminate|].
  destruct (querySelector d sel) as [el|]; [|auto].
  destruct (doi_in _) eqn:E; [|auto].
  inversion H; subst. eapply doi_in_captured; eauto.
Qed.

Lemma url_tier_captured url x : url_tier url = Some x -> captured x.
Proof.
  unfold url_tier. destruct (match1 doiOrg_re url) eqn:E; intros H.
  - inversion H; subst.
    eapply (@match1_captured doiOrg_re url_unit); [reflexivity|eauto].
  - eapply (@match1_captured urlDoi_re url_unit); [reflexivity|eauto].
Qed.

Section DetectFacts.

Variable JSON_parse : jsstring -> option json.

Lemma ld_tier_captured d x : ld_tier JSON_parse d = Some x -> captured x.
Proof.
  unfold ld_tier. intros H. apply first_truthy_some in H.
  destruct H as (script & _ & H).
  destruct (JSON_parse (textContent script)); [|discriminate].
  apply extractDOIFromLD_sound in H. destruct H as (s & _ & H).
  eapply doi_in_captured; eauto.
Qed.

Lemma detectDOI_captured p x : detectDOI JSON_parse p = Some x -> captured x.
Proof.
  unfold detectDOI.
  destruct (meta_tier _ _) eqn:E1.
  { intros H; inversion H; subst. eapply meta_tier_captured; eauto. }
  destruct (url_tier _) eqn:E2.
  { intros H; inversion H; subst. eapply url_tier_captured; eauto. }
  destruct (ld_tier _ _) eqn:E3.
  { intros H; inversion H; subst. eapply ld_tier_captured; eauto. }
  destruct (link_tier _) eqn:E4.
  { intros H; inversion H; subst. unfold link_tier in E4.
    apply first_match_some in E4. destruct E4 as (a & _ & E4).
    eapply (@match1_captured link_re link_unit); [reflexivity|eauto]. }
  destruct (script_tier _) eqn:E5.
  { intros H; inversion H; subst. unfold script_tier in E5.
    apply first_match_some in E5. destruct E5 as (a & _ & E5).
    eapply (@match1_captured script_re script_unit); [reflexivity|eauto]. }
  intros H. unfold text_tier in H.
  apply first_match_some in H. destruct H as (a & _ & H).
  eapply (@match1_captured DOI_REGEX doi_unit); [reflexivity|eauto].
Qed.

End DetectFacts.

(** ** [cleanDOI] *)

(** Cleaning cuts a run of trailing punctuation off the end, and nothing
    else. *)
Lemma cleanDOI_cuts d :
  exists w, d = cleanDOI d ++ w /\ forallb trailing_unit w = true.
Proof.
  unfold cleanDOI, replace. destruct (exec trailing_re d) as [res|] eqn:E.
  - apply exec_sound in E.
    destruct E as (Hd & Hl & _ & st' & Hm & Ha & _).
    simpl in Hm. destruct Hm as (mid & _ & Hrest & ->).
    rewrite Hrest in Ha.
    simpl in Hl. destruct Hl as (w1 & w2 & Hw & (n & _ & Hp) & ->).
    apply pow_chr in Hp. destruct Hp as [_ Hp].
    exists w1. rewrite Ha. simpl. rewrite Hd, Hw, Ha, !app_nil_r. auto.
  - exists []. rewrite app_nil_r. auto.
Qed.

Lemma cut_after (p : char -> bool) c : forall A token cleaned w,
  A ++ c :: token = cleaned ++ w ->
  forallb p w = true -> p c = false ->
  exists token', cleaned = A ++ c :: token' /\ token = token' ++ w.
Proof.
  induction A as [|a A IH]; intros token cleaned w H Hw Hc.
  - destruct cleaned as [|x cl]; simpl in H.
    + subst w. simpl in Hw. rewrite Hc in Hw. discriminate.
    + inversion H; subst. exists cl. auto.
  - destruct cleaned as [|x cl]; simpl in H.
    + subst w. simpl in Hw. apply andb_true_iff in Hw. destruct Hw as [_ Hw].
      rewrite forallb_app in Hw. simpl in Hw. rewrite Hc in Hw.
      rewrite andb_false_r in Hw. discriminate.
    + inversion H; subst. destruct (IH _ _ _ H2 Hw Hc) as (t' & -> & ->).
      exists t'. auto.
Qed.

Lemma cleanDOI_captured d :
  captured d -> has_doi_head (cleanDOI d) = true /\ cleanDOI d <> [].
Proof.
  intros (unit & ds & token & Hs).
  destruct (cleanDOI_cuts d) as (w & Hd & Hw).
  destruct Hs as (Hshape & Hds & Hn & Ht).
  rewrite Hshape in Hd at 1.
  change (str "10." ++ ds ++ ch "/" :: token)
    with ((str "10." ++ ds) ++ ch "/" :: token) in Hd.
  destruct (@cut_after trailing_unit _ _ _ _ _ Hd Hw eq_refl) as (t' & Hc & Ht').
  rewrite Hc, <- app_assoc. split.
  - unfold has_doi_head.
    rewrite (@doi_shaped_head (fun _ => true) _ ds t'); [reflexivity|].
    repeat split; auto; try lia. apply forallb_forall. auto.
  - discriminate.
Qed.

End ContentFacts.

Module IdentifierFacts.
Import RegexFacts Content ContentFacts.

Lemma startsWith_split : forall p s,
  startsWith s p = true -> exists r, s = p ++ r.
Proof.
  induction p as [|x p IH]; intros s H.
  - exists s. reflexivity.
  - destruct s as [|y s]; simpl in H; [discriminate|].
    apply andb_true_iff in H. destruct H as [Hxy H].
    apply N.eqb_eq in Hxy. subst y.
    destruct (IH _ H) as (r & ->). exists r. reflexivity.
Qed.

Lemma startsWith_app p r : startsWith (p ++ r) p = true.
Proof.
  induction p as [|x p IH]; simpl; [reflexivity|].
  rewrite N.eqb_refl. exact IH.
Qed.

Lemma includes_self s : includes s s = true.
Proof.
  destruct s; simpl; [reflexivity|].
  rewrite N.eqb_refl. 
  rewrite <- (app_nil_r s) at 1. rewrite startsWith_app. reflexivity.
Qed.

Lemma span_spec p : forall s a b,
  span p s = (a, b) -> s = a ++ b /\ forallb p a = true.
Proof.
  induction s as [|c s IH]; intros a b H; simpl in H.
  - inversion H; subst. auto.
  - destruct (p c) eqn:Hc.
    + destruct (span p s) as [a' b'] eqn:E. inversion H; subst.
      destruct (IH _ _ eq_refl) as [-> Ha]. simpl. rewrite Hc, Ha. auto.
    + inversion H; subst. auto.
Qed.

(** A text with the DOI syntax has the DOI shape. *)
Lemma doi_pattern_shaped unit d :
  doi_pattern unit d = true ->
  exists ds token, doi_shaped unit d ds token /\ token <> [].
Proof.
  unfold doi_pattern, after_doi_head. intros H.
  destruct (startsWith d (str "10.")) eqn:Hp; [|discriminate].
  apply startsWith_split in Hp. destruct Hp as (r & ->).
  change (skipn 3 (str "10." ++ r)) with r in H.
  destruct (span is_digit r) as [ds r'] eqn:Hs.
  apply span_spec in Hs. destruct Hs as [-> Hds].
  destruct ((4 <=? length ds) && (length ds <=? 9)) eqn:Hn; [|discriminate].
  apply andb_true_iff in Hn. destruct Hn as [H4 H9].
  apply Nat.leb_le in H4. apply Nat.leb_le in H9.
  destruct r' as [|c token]; [discriminate|].
  destruct (N.eqb c (ch "/")) eqn:Hc; [|discriminate].
  apply N.eqb_eq in Hc. subst c.
  destruct token as [|t token]; [discriminate|].
  exists ds, (t :: token). repeat split; auto. discriminate.
Qed.

(** A unit of a word is a unit of a DOI token. *)
Lemma word_is_doi_unit c : doi_unit c = false -> is_word c = false.
Proof.
  unfold doi_unit. intros H. apply negb_false_iff in H.
  apply orb_true_iff in H. destruct H as [H|H].
  - unfold is_space in H. unfold is_word, is_lower, is_upper, is_digit, between.
    repeat (apply orb_true_iff in H; destruct H as [H|H]);
      unfold between in H;
      try (apply andb_true_iff in H; destruct H as [H1 H2];
           apply N.leb_le in H1; apply N.leb_le in H2);
      try apply N.eqb_eq in H;
      repeat (apply orb_false_iff; split);
      try (apply andb_false_iff;
           destruct (N.leb_spec 97 c); [right; apply N.leb_gt; lia | left; reflexivity]);
      try (apply N.eqb_neq; lia);
      try (apply andb_false_iff; rewrite !N.leb_gt; lia).
  - simpl in H.
    repeat (apply orb_true_iff in H; destruct H as [H|H]);
      try discriminate; apply N.eqb_eq in H; subst c; reflexivity.
Qed.

Lemma last_rev_head (w : jsstring) sn :
  w <> [] -> exists tl, rev w ++ sn = last w 0%N :: tl.
Proof.
  intros Hw. destruct (exists_last Hw) as (w' & c & ->).
  rewrite last_last, rev_app_distr. simpl. eauto.
Qed.

Lemma last_skip (A token : jsstring) :
  token <> [] -> last (A ++ token) 0%N = last token 0%N.
Proof.
  intros Hne. destruct (exists_last Hne) as (t' & x & ->).
  rewrite app_assoc, !last_last. reflexivity.
Qed.

(** On a text that opens with an identifier ending in a word unit,
    [DOI_REGEX] matches at the start and captures the identifier. *)
Lemma DOI_REGEX_finds id rest_ :
  doi_syntax id = true -> is_word (last id 0%N) = true -> ends_token rest_ ->
  match1 DOI_REGEX (id ++ rest_) = Some id.
Proof.
  intros Hsyn Hlast Hrest.
  apply doi_pattern_shaped in Hsyn.
  destruct Hsyn as (ds & token & (-> & Hds & Hn & Ht) & Hne).
  assert (Hlast' : is_word (last token 0%N) = true).
  { replace (str "10." ++ ds ++ ch "/" :: token)
      with ((str "10." ++ ds ++ [ch "/"]) ++ token) in Hlast
      by (rewrite <- !app_assoc; reflexivity).
    rewrite (last_skip _ Hne) in Hlast. exact Hlast. }
  unfold match1, exec.
  set (id := str "10." ++ ds ++ ch "/" :: token).
  set (final := MState (rev id) rest_ (Some id)).
  assert (Hm : m DOI_REGEX (MState [] (id ++ rest_) None) Some = Some final).
  { unfold DOI_REGEX, doi_body. cbn [seqs].
    rewrite m_seq, m_wordb.
    change (xorb (prev_is_word (MState [] (id ++ rest_) None))
                 (next_is_word (MState [] (id ++ rest_) None))) with true.
    cbv iota beta. rewrite m_seq, m_grp, m_seq.
    replace (id ++ rest_) with (str "10." ++ (ds ++ ch "/" :: token ++ rest_))
      by (unfold id; rewrite <- !app_assoc; reflexivity).
    rewrite m_lit. cbv beta. rewrite m_seq. unfold digit.
    apply m_rep_chr_all; [exact Hds | reflexivity | lia | lia |].
    rewrite m_seq, m_one. unfold plus.
    apply m_rep_chr_all;
      [exact Ht | exact Hrest | destruct token; [congruence|simpl; lia] | exact I |].
    cbv beta.
    { set (st0 := MState [] (str "10." ++ ds ++ ch "/" :: token ++ rest_) None).
      set (st1 := MState _ rest_ None).
      assert (A : advances st0 id st1).
      { unfold st0, st1, id, advances. simpl.
        rewrite !rev_app_distr. simpl. rewrite <- !app_assoc. simpl.
        split; reflexivity. }
      cbn [seen rest]. rewrite (advances_consumed A).
      rewrite m_wordb. unfold prev_is_word, next_is_word, st1. cbn [seen rest].
      destruct (@last_rev_head token (ch "/" :: rev ds ++ rev (str "10.") ++ []) Hne)
        as (tl & Htl).
      rewrite Htl, Hlast'.
      assert (Hfinal : MState (last token 0%N :: tl) rest_ (Some id) = final).
      { unfold final. rewrite <- Htl. f_equal. unfold id. simpl.
        rewrite !rev_app_distr. simpl. rewrite <- !app_assoc. reflexivity. }
      destruct rest_ as [|c r]; cbn [xorb].
      + f_equal. exact Hfinal.
      + simpl in Hrest. rewrite (word_is_doi_unit _ Hrest).
        f_equal. exact Hfinal. } }
  rewrite (exec_from_here _ _ _ Hm). reflexivity.
Qed.

(** ** The prefix that is stripped before the DOI is looked for *)

Lemma strip_prefix_doi s : strip_prefix (str "doi:" ++ s) = s.
Proof. reflexivity. Qed.

Lemma strip_prefix_http s : strip_prefix (str "http://doi.org/" ++ s) = s.
Proof. reflexivity. Qed.

Lemma strip_prefix_https s : strip_prefix (str "https://doi.org/" ++ s) = s.
Proof.
  unfold strip_prefix, replace, exec.
  rewrite exec_from_here
    with (st' := MState (rev (str "https://doi.org/")) s
                        (Some (str "https://doi.org/"))); [reflexivity|].
  unfold prefix_re. rewrite m_seq, m_bol, m_grp, m_alt.
  change (m (lit (str "doi:")) _ _) with (@None mstate). cbv iota.
  cbn [seqs]. rewrite m_seq.
  change (str "https://doi.org/" ++ s)
    with (str "http" ++ ch "s" :: str "://doi.org/" ++ s).
  rewrite m_lit, m_seq. unfold one.
  rewrite m_opt_take by reflexivity.
  change (Chr (N.eqb (ch ":"))) with (one (ch ":")).
  rewrite m_lit. reflexivity.
Qed.

Lemma strip_prefix_none s : strip_prefix (str "10." ++ s) = str "10." ++ s.
Proof.
  unfold strip_prefix, replace, exec.
  change (str "10." ++ s) with (ch "1" :: (ch "0" :: ch "." :: s)).
  rewrite exec_from_next by reflexivity.
  unfold prefix_re. rewrite exec_from_bol by discriminate. reflexivity.
Qed.

Lemma doi_in_finds pre id rest_ :
  In pre doi_prefixes ->
  doi_syntax id = true -> is_word (last id 0%N) = true -> ends_token rest_ ->
  doi_in (pre ++ id ++ rest_) = Some id.
Proof.
  intros Hpre Hsyn Hlast Hrest. unfold doi_in.
  assert (Hstrip : strip_prefix (pre ++ id ++ rest_) = id ++ rest_).
  { destruct (doi_pattern_shaped _ _ Hsyn) as (ds & token & (Hid & _) & _).
    simpl in Hpre.
    destruct Hpre as [<-|[<-|[<-|[<-|[]]]]].
    - rewrite Hid. apply strip_prefix_none.
    - apply strip_prefix_doi.
    - apply strip_prefix_http.
    - apply strip_prefix_https. }
  rewrite Hstrip. apply DOI_REGEX_finds; assumption.
Qed.


End IdentifierFacts.

(* ================================================================== *)
(** * The content script: the properties *)
(* ================================================================== *)

Module ContentProperties.

Import RegexFacts Content ContentFacts IdentifierFacts.

Lemma or_else_nil (s : jsstring) : or_else (Some s) [] = s.
Proof. destruct s; reflexivity. Qed.

(** C10. The JSON-LD walker is a total function, recursing on the items
    of an array and nowhere else; what it returns is null or a string
    with the DOI syntax that [DOI_REGEX] captured from a string held
    under one of the keys doi, DOI, @id, identifier, sameAs. *)
Theorem extractDOIFromLD_returns_doi_from_keys (data : json) :
  (extractDOIFromLD data = None
   \/ exists d s, extractDOIFromLD data = Some d /\ doi_syntax d = true
                  /\ ld_source data s /\ doi_in s = Some d)
  /\ (forall items,
        extractDOIFromLD (JArr items) = first_truthy extractDOIFromLD items)
  /\ (forall members,
        extractDOIFromLD (JObj members)
        = first_match (fun key => ld_value (get key members)) ld_keys).
Proof.
  split; [|split].
  - destruct (extractDOIFromLD data) as [d|] eqn:E; [right|left; reflexivity].
    destruct (extractDOIFromLD_sound _ E) as (s & Hs & Hd).
    exists d, s. repeat split; auto. eapply doi_in_sound; eauto.
  - intros items. simpl. induction items as [|item items IH]; [reflexivity|].
    simpl. rewrite IH. reflexivity.
  - reflexivity.
Qed.

Section Pages.

Variable JSON_parse : jsstring -> option json.

Lemma on_ignore_list_ignored p : on_ignore_list p -> shouldIgnorePage p = true.
Proof.
  intros H. unfold shouldIgnorePage. apply existsb_exists.
  destruct H as [H|(d & Hd & H)].
  - exists (hostname p). split; [exact H | apply includes_self].
  - exists d. auto.
Qed.

(** C6. On a page of an ignored domain no button is attached, whatever
    the page holds, at load time and at the retry. *)
Theorem ignored_page_gets_no_button (p : page) :
  on_ignore_list p ->
  (forall b, init JSON_parse p b = b)
  /\ init JSON_parse p None = None
  /\ (forall later, hostname later = hostname p ->
        contentScript JSON_parse p later = None).
Proof.
  intros H. pose proof (on_ignore_list_ignored H) as Hi.
  assert (Hinit : forall q b, hostname q = hostname p -> init JSON_parse q b = b).
  { intros q b Hq. unfold init.
    replace (shouldIgnorePage q) with true; [reflexivity|].
    unfold shouldIgnorePage in *. rewrite Hq. auto. }
  split; [|split].
  - intros b. apply Hinit. reflexivity.
  - apply Hinit. reflexivity.
  - intros later Hl. unfold contentScript.
    rewrite (Hinit p None eq_refl). apply Hinit. exact Hl.
Qed.

(** C2, as the script has it.  The button holds the candidate of
    [detectDOI] after cleaning, which always opens with [10.], 4 to 9
    digits and a slash; the script goes on with every candidate it finds
    on a page it does not ignore, and checks the cleaned string for
    emptiness only. *)
Theorem init_attaches_cleaned_candidate (p : page) :
  match init JSON_parse p None with
  | Some s =>
      has_doi_head s = true
      /\ shouldIgnorePage p = false
      /\ exists d, detectDOI JSON_parse p = Some d /\ s = cleanDOI d
  | None => shouldIgnorePage p = true \/ detectDOI JSON_parse p = None
  end.
Proof.
  unfold init. destruct (shouldIgnorePage p); [left; reflexivity|].
  destruct (detectDOI JSON_parse p) as [d|] eqn:E; [|right; reflexivity].
  pose proof (detectDOI_captured _ _ E) as Hc.
  destruct (cleanDOI_captured Hc) as [Hh Hne].
  destruct d as [|c d].
  { destruct Hc as (u & ds & t & H & _). discriminate. }
  destruct (cleanDOI (c :: d)) as [|x cl] eqn:Ecl; [congruence|].
  simpl. repeat split; auto. exists (c :: d). auto.
Qed.

End Pages.

(** C2, as it is stated, fails on that page: the cleaned candidate is
    [10.1234/], which has the DOI syntax for no token class, yet the
    button is attached, a click asks the worker for that string, and the
    worker looks it up at every mirror. *)
Lemma comma_page_button_without_doi_syntax :
  let button := init (fun _ => None) comma_page None in
  button = Some (str "10.1234/")
  /\ (forall unit, doi_pattern unit (str "10.1234/") = false)
  /\ test DOI_REGEX (str "10.1234/") = false
  /\ downloadPDF button
     = Some (Message (str "downloadPDF") (Some (str "10.1234/")))
  /\ lookups (snd (snd (Mv3.onMessage offline accepting
                          (Message (str "downloadPDF") (Some (str "10.1234/")))
                          start)))
     = map (fun mirror => lookup_request mirror (str "10.1234/")) SCIHUB_MIRRORS.
Proof. repeat split. Qed.

Lemma ignored_page_gets_no_button_witness :
  on_ignore_list google_page
  /\ init (fun _ => None) google_page None = None.
Proof.
  assert (H : on_ignore_list google_page).
  { right. exists (str "google.com"). split; [left; reflexivity|reflexivity]. }
  split; [exact H|].
  exact (proj1 (proj2 (ignored_page_gets_no_button (fun _ => None) H))).
Defined.

End ContentProperties.

(* ================================================================== *)
(** * Replacing every match *)
(* ================================================================== *)

Module ReplaceFacts.

Import RegexFacts.

(** Where no match starts at the current position, the unit there is
    kept and the search moves on. *)
Lemma skipn_rev_app (sn l : jsstring) : skipn (length sn) (rev sn ++ l) = l.
Proof.
  rewrite skipn_app, skipn_all2 by (rewrite length_rev; lia).
  rewrite length_rev, Nat.sub_diag. reflexivity.
Qed.

Lemma replace_from_next r by_ sn c tl fuel :
  m r (MState sn (c :: tl) None) Some = None ->
  replace_from (S fuel) r by_ sn (c :: tl)
  = c :: replace_from (S fuel) r by_ (c :: sn) tl.
Proof.
  intros H. cbn [replace_from]. rewrite (exec_from_next _ _ _ _ H).
  destruct (exec_from r (c :: sn) tl) as [res|] eqn:E; [|reflexivity].
  apply exec_from_sound in E. destruct E as (skipped & st' & _ & _ & Hb & _).
  assert (G : gap sn res = c :: gap (c :: sn) res).
  { unfold gap. rewrite Hb.
    rewrite (skipn_rev_app (c :: sn) skipped).
    simpl rev. rewrite <- app_assoc. apply skipn_rev_app. }
  rewrite G. reflexivity.
Qed.

(** Where a match of one unit starts at the current position, the
    replacement is written and the search goes on behind it. *)
Lemma replace_from_unit r by_ sn c tl fuel cp :
  m r (MState sn (c :: tl) None) Some = Some (MState (c :: sn) tl cp) ->
  replace_from (S fuel) r by_ sn (c :: tl)
  = by_ ++ replace_from fuel r by_ (c :: sn) tl.
Proof.
  intros H. cbn [replace_from]. rewrite (exec_from_here _ _ _ H).
  assert (A : advances (MState sn (c :: tl) None) [c] (MState (c :: sn) tl cp))
    by (split; reflexivity).
  rewrite (advances_consumed A). cbn [whole before after rest].
  unfold gap. cbn [before]. rewrite skipn_all2 by (rewrite length_rev; lia).
  rewrite rev_involutive. reflexivity.
Qed.

(** Replacing every unit of a class. *)
Lemma replace_from_chr p by_ : forall rs sn fuel,
  length rs < fuel ->
  replace_from fuel (Chr p) by_ sn rs
  = flat_map (fun c => if p c then by_ else [c]) rs.
Proof.
  induction rs as [|c tl IH]; intros sn fuel Hf;
    (destruct fuel as [|fuel]; [simpl in Hf; lia|]).
  - reflexivity.
  - simpl in Hf. destruct (p c) eqn:Hp.
    + rewrite replace_from_unit with (cp := None) by (simpl; rewrite Hp; reflexivity).
      rewrite IH by lia. simpl. rewrite Hp. reflexivity.
    + rewrite replace_from_next by (simpl; rewrite Hp; reflexivity).
      rewrite IH by (simpl; lia). simpl. rewrite Hp. reflexivity.
Qed.

Lemma replaceAll_chr p by_ s :
  replaceAll (Chr p) by_ s = flat_map (fun c => if p c then by_ else [c]) s.
Proof. unfold replaceAll. apply replace_from_chr. lia. Qed.

End ReplaceFacts.

(* ================================================================== *)
(** * The file name *)
(* ================================================================== *)

Module FilenameFacts.

Import ReplaceFacts.

(** The derivation in plain terms: every slash becomes an underscore,
    then the units outside the allowed set are dropped. *)
Lemma slashes_replaced s :
  replaceAll slash_re (str "_") s = map underscore s.
Proof.
  unfold slash_re, one. rewrite replaceAll_chr.
  induction s as [|c s IH]; [reflexivity|].
  cbn [flat_map map]. rewrite IH. unfold underscore at 2.
  destruct (N.eqb (ch "/") c); reflexivity.
Qed.

Lemma unsafe_dropped s : replaceAll unsafe_re [] s = filter allowed s.
Proof.
  unfold unsafe_re. rewrite replaceAll_chr.
  induction s as [|c s IH]; [reflexivity|].
  cbn [flat_map filter]. rewrite IH. destruct (allowed c); reflexivity.
Qed.

Lemma safe_name_plain doi : safe_name doi = filter allowed (map underscore doi).
Proof. unfold safe_name. rewrite slashes_replaced, unsafe_dropped. reflexivity. Qed.

Lemma safe_name_allowed doi : forallb allowed (safe_name doi) = true.
Proof.
  rewrite safe_name_plain. apply forallb_forall.
  intros c Hc. apply filter_In in Hc. tauto.
Qed.

Lemma allowed_fixed s : forallb allowed s = true -> safe_name s = s.
Proof.
  intros H. rewrite safe_name_plain.
  induction s as [|c s IH]; [reflexivity|].
  simpl in H. apply andb_true_iff in H. destruct H as [Hc Hs].
  cbn [map filter]. unfold underscore at 1 2.
  destruct (N.eqb (ch "/") c) eqn:E.
  - apply N.eqb_eq in E. subst c. discriminate.
  - rewrite Hc, (IH Hs). reflexivity.
Qed.

(** C8. The file name derivation is a function of the identifier, its
    result holds allowed units only, and deriving again from the result
    changes nothing. *)
Theorem safe_name_idempotent (doi : jsstring) :
  safe_name (safe_name doi) = safe_name doi
  /\ safe_name doi = filter allowed (map underscore doi)
  /\ forallb allowed (safe_name doi) = true.
Proof.
  split; [|split].
  - apply allowed_fixed, safe_name_allowed.
  - apply safe_name_plain.
  - apply safe_name_allowed.
Qed.

End FilenameFacts.

(* ================================================================== *)
(** * The signature check on the payload *)
(* ================================================================== *)

Module BlobFacts.

Import IdentifierFacts.

#[local] Opaque N.add N.mul N.sub N.div N.modulo.

Ltac bounds :=
  repeat match goal with
  | H : between _ _ _ = true |- _ =>
      unfold between in H; apply andb_true_iff in H; destruct H
  | H : N.leb _ _ = true |- _ => apply N.leb_le in H
  | H : N.ltb _ _ = false |- _ => apply N.ltb_ge in H
  | H : N.ltb _ _ = true |- _ => apply N.ltb_lt in H
  | H : N.eqb _ _ = true |- _ => apply N.eqb_eq in H
  | H : N.eqb _ _ = false |- _ => apply N.eqb_neq in H
  | H : continuation _ = true |- _ => unfold continuation in H
  | H : second_ok _ _ = true |- _ => unfold second_ok in H
  | H : (if ?b then _ else _) = true |- _ =>
      let E := fresh "E" in destruct b eqn:E
  end.

(** A code unit below 128 at the head of a decoded text is the byte at
    the head of the bytes. *)
Lemma utf8_ascii_head bs c r :
  utf8 bs = c :: r -> (c < 128)%N -> exists t, bs = c :: t /\ utf8 t = r.
Proof.
  intros H Hc. destruct bs as [|b0 t0]; [discriminate|].
  cbn [utf8] in H.
  destruct (N.ltb b0 128) eqn:E0.
  { inversion H; subst. eauto. }
  exfalso.
  repeat match type of H with
  | (if ?b then _ else _) = _ => let E := fresh "E" in destruct b eqn:E
  | (match ?l with [] => _ | _ :: _ => _ end) = _ => destruct l
  end; inversion H; subst; clear H; bounds; try lia;
  match goal with
  | Hc : (_ + ?x / ?y < _)%N |- _ =>
      set (q := (x / y)%N) in *; clearbody q; lia
  end.
Qed.

Lemma utf8_ascii_prefix : forall p bs r,
  Forall (fun c => (c < 128)%N) p ->
  utf8 bs = p ++ r -> exists t, bs = p ++ t /\ utf8 t = r.
Proof.
  induction p as [|c p IH]; intros bs r Hp H.
  - exists bs. auto.
  - inversion Hp; subst. simpl in H.
    destruct (utf8_ascii_head _ H H2) as (t & -> & Ht).
    destruct (IH _ _ H3 Ht) as (t' & -> & Ht'). exists t'. auto.
Qed.

Lemma pdf_ascii : Forall (fun c => (c < 128)%N) (str "%PDF-").
Proof. repeat constructor. Qed.

(** The test of the worker holds exactly when the payload opens with the
    five bytes of the signature. *)
Lemma signature_check payload :
  startsWith (blob_text (blob_slice 5 payload)) (str "%PDF-") = true
  <-> firstn 5 payload = str "%PDF-".
Proof.
  unfold blob_slice. split.
  - intros H. apply startsWith_split in H. destruct H as (r & H).
    pose proof (firstn_le_length 5 payload) as Hlen.
    unfold blob_text in H.
    destruct (startsWith (firstn 5 payload) [239; 187; 191]%N) eqn:Eb.
    + apply startsWith_split in Eb. destruct Eb as (t & Eb).
      rewrite Eb in H, Hlen. change (skipn 3 ([239; 187; 191]%N ++ t)) with t in H.
      destruct (utf8_ascii_prefix _ _ pdf_ascii H) as (t' & -> & _).
      simpl in Hlen. lia.
    + destruct (utf8_ascii_prefix _ _ pdf_ascii H) as (t' & Ht & _).
      rewrite Ht in Hlen |- *. destruct t'; [reflexivity|simpl in Hlen; lia].
  - intros ->. reflexivity.
Qed.

End BlobFacts.

(* ================================================================== *)
(** * The mirror loop *)
(* ================================================================== *)

Module LoopFacts.

Lemma lookups_app a b : lookups (a ++ b) = lookups a ++ lookups b.
Proof. apply flat_map_app. Qed.

Lemma downloads_app a b : downloads (a ++ b) = downloads a ++ downloads b.
Proof. apply flat_map_app. Qed.

Section Loop.

Variable World : Type.
Variable findPDFUrl : jsstring -> jsstring -> Run World (option jsstring).
Variable downloadFromUrl : jsstring -> jsstring -> Run World N.

#[local] Abbreviation attempt := (Worker.attempt findPDFUrl downloadFromUrl).
#[local] Abbreviation mirror_loop := (Worker.mirror_loop findPDFUrl downloadFromUrl).
#[local] Abbreviation handleDownload := (Worker.handleDownload findPDFUrl downloadFromUrl).

(** How one attempt ends, by what its two calls do. *)
Lemma attempt_find_throws mirror doi s e s1 :
  findPDFUrl mirror doi s = (Err e, s1) ->
  attempt mirror doi s = (Ok (Continue e), logged mirror doi e s1).
Proof.
  intros H. unfold Worker.attempt, try_catch, bind. rewrite H. reflexivity.
Qed.

Lemma attempt_nothing_found mirror doi s v s1 :
  findPDFUrl mirror doi s = (Ok v, s1) -> truthy v = false ->
  attempt mirror doi s = (Ok (Continue (str "Could not find PDF URL")), s1).
Proof.
  intros H Hv. unfold Worker.attempt, try_catch, bind. rewrite H, Hv. reflexivity.
Qed.

Lemma attempt_download_throws mirror doi s v s1 e s2 :
  findPDFUrl mirror doi s = (Ok v, s1) -> truthy v = true ->
  downloadFromUrl (or_else v []) doi s1 = (Err e, s2) ->
  attempt mirror doi s = (Ok (Continue e), logged mirror doi e s2).
Proof.
  intros H Hv Hd. unfold Worker.attempt, try_catch, bind.
  rewrite H, Hv, Hd. reflexivity.
Qed.

Lemma attempt_downloaded mirror doi s v s1 id s2 :
  findPDFUrl mirror doi s = (Ok v, s1) -> truthy v = true ->
  downloadFromUrl (or_else v []) doi s1 = (Ok id, s2) ->
  attempt mirror doi s = (Ok Returned, s2).
Proof.
  intros H Hv Hd. unfold Worker.attempt, try_catch, bind.
  rewrite H, Hv, Hd. reflexivity.
Qed.

(** An attempt never throws: whatever goes wrong inside is caught. *)
Lemma attempt_returns mirror doi s :
  exists p s', attempt mirror doi s = (Ok p, s').
Proof.
  destruct (findPDFUrl mirror doi s) as [[v|e] s1] eqn:H.
  - destruct (truthy v) eqn:Hv.
    + destruct (downloadFromUrl (or_else v []) doi s1) as [[id|e] s2] eqn:Hd.
      * eexists _, _. eapply attempt_downloaded; eauto.
      * eexists _, _. eapply attempt_download_throws; eauto.
    + eexists _, _. eapply attempt_nothing_found; eauto.
  - eexists _, _. eapply attempt_find_throws; eauto.
Qed.

Lemma mirror_loop_continue mirror more doi lastError s e s1 :
  attempt mirror doi s = (Ok (Continue e), s1) ->
  mirror_loop (mirror :: more) doi lastError s = mirror_loop more doi (Some e) s1.
Proof. intros H. cbn [Worker.mirror_loop]. unfold bind. rewrite H. reflexivity. Qed.

Lemma mirror_loop_return mirror more doi lastError s s1 :
  attempt mirror doi s = (Ok Returned, s1) ->
  mirror_loop (mirror :: more) doi lastError s = (Ok Success, s1).
Proof. intros H. cbn [Worker.mirror_loop]. unfold bind. rewrite H. reflexivity. Qed.

Lemma mirror_loop_returns : forall mirrors doi lastError s,
  exists out s', mirror_loop mirrors doi lastError s = (Ok out, s').
Proof.
  induction mirrors as [|mirror more IH]; intros doi lastError s.
  - eexists _, _. reflexivity.
  - destruct (attempt_returns mirror doi s) as ([|e] & s1 & H).
    + rewrite (@mirror_loop_return mirror more doi lastError s s1 H). eauto.
    + rewrite (@mirror_loop_continue mirror more doi lastError s e s1 H). apply IH.
Qed.

Lemma mirror_loop_all_fail doi : forall mirrors s errors s',
  all_fail findPDFUrl downloadFromUrl doi mirrors s errors s' ->
  forall lastError,
  mirror_loop mirrors doi lastError s
  = (Ok (Failure (or_else (recorded lastError errors) (str "All mirrors failed"))), s').
Proof.
  induction 1 as [s|mirror more s e s1 errors s' Ha Hrest IH]; intros lastError.
  - reflexivity.
  - rewrite (@mirror_loop_continue mirror more doi lastError s e s1 Ha), IH.
    destruct errors; reflexivity.
Qed.

Lemma or_else_some (e d : jsstring) : e <> [] -> or_else (Some e) d = e.
Proof. destruct e; [congruence|reflexivity]. Qed.

(** ** Which lookups a resolution sends *)

Hypothesis find_trace : forall mirror doi s,
  snd (snd (findPDFUrl mirror doi s))
  = snd s ++ [Fetch (lookup_request mirror doi)].

Hypothesis download_trace : forall url doi s,
  lookups (snd (snd (downloadFromUrl url doi s))) = lookups (snd s).

Lemma attempt_lookups mirror doi s :
  lookups (snd (snd (attempt mirror doi s)))
  = lookups (snd s) ++ [lookup_request mirror doi].
Proof.
  pose proof (find_trace mirror doi s) as Hf.
  unfold Worker.attempt, try_catch, bind.
  destruct (findPDFUrl mirror doi s) as [[v|e] s1]; simpl in Hf.
  - destruct (truthy v).
    + pose proof (download_trace (or_else v []) doi s1) as Hd.
      destruct (downloadFromUrl (or_else v []) doi s1) as [[id|e] s2];
        simpl in Hd |- *; [|rewrite lookups_app, app_nil_r];
        rewrite Hd, Hf, lookups_app; reflexivity.
    + simpl. rewrite Hf, lookups_app. reflexivity.
  - simpl. rewrite lookups_app, app_nil_r, Hf, lookups_app. reflexivity.
Qed.

Lemma mirror_loop_lookups doi : forall mirrors lastError s,
  exists n, 
    lookups (snd (snd (mirror_loop mirrors doi lastError s)))
    = lookups (snd s)
      ++ map (fun mirror => lookup_request mirror doi) (firstn n mirrors)
    /\ n <= length mirrors /\ (mirrors <> [] -> 1 <= n).
Proof.
  induction mirrors as [|mirror more IH]; intros lastError s.
  - exists 0. simpl. rewrite app_nil_r. split; [reflexivity|]. split; [lia|congruence].
  - pose proof (attempt_lookups mirror doi s) as Ha.
    destruct (attempt_returns mirror doi s) as ([|e] & s1 & H).
    + rewrite (@mirror_loop_return mirror more doi lastError s s1 H). rewrite H in Ha. exists 1.
      cbn [snd] in *. rewrite Ha. simpl. split; [reflexivity|]. split; lia.
    + rewrite (@mirror_loop_continue mirror more doi lastError s e s1 H). rewrite H in Ha. cbn [snd] in Ha.
      destruct (IH (Some e) s1) as (n & Hn & Hle & _). exists (S n).
      rewrite Hn, Ha, <- app_assoc. simpl. split; [reflexivity|]. split; lia.
Qed.

End Loop.

Lemma lookup_request_injective doi m1 m2 :
  lookup_request m1 doi = lookup_request m2 doi -> m1 = m2.
Proof.
  unfold lookup_request. intros H. inversion H as [H1].
  apply app_inv_tail in H1. exact H1.
Qed.

Lemma NoDup_firstn (A : Type) (l : list A) : forall n,
  NoDup l -> NoDup (firstn n l).
Proof.
  induction l as [|x l IH]; intros n H; destruct n; simpl; try constructor.
  - inversion H; subst. intros Hin. apply H2.
    rewrite <- (firstn_skipn n l). apply in_or_app. left. exact Hin.
  - inversion H; subst. auto.
Qed.

Lemma NoDup_map_injective (A B : Type) (f : A -> B) (l : list A) :
  (forall x y, f x = f y -> x = y) -> NoDup l -> NoDup (map f l).
Proof.
  intros Hf. induction 1 as [|x l Hx Hl IH]; simpl; constructor; auto.
  intros Hin. apply in_map_iff in Hin. destruct Hin as (y & Hy & Hin).
  apply Hf in Hy. subst. contradiction.
Qed.

Lemma mirrors_distinct : NoDup SCIHUB_MIRRORS.
Proof.
  unfold SCIHUB_MIRRORS.
  repeat constructor; simpl; intros H;
    repeat (destruct H as [H|H]; [discriminate|]); exact H.
Qed.

Lemma lookups_distinct doi n :
  NoDup (map (fun mirror => lookup_request mirror doi) (firstn n SCIHUB_MIRRORS)).
Proof.
  apply NoDup_map_injective.
  - intros m1 m2. apply lookup_request_injective.
  - apply NoDup_firstn, mirrors_distinct.
Qed.

End LoopFacts.

(* ================================================================== *)
(** * The two workers: traces and properties *)
(* ================================================================== *)

Module WorkerProperties.

Import LoopFacts BlobFacts.

Ltac trace_done :=
  rewrite ?lookups_app; unfold lookups; simpl; rewrite ?app_nil_r; reflexivity.

Section AnyWorld.

Variable World : Type.
Variable fetch : request -> World -> result response * World.
Variable chrome_download : downloadOptions -> World -> result N * World.
Variable parseFromString : jsstring -> document.

(** ** The lookup of [findPDFUrl] *)

Lemma mv3_find_trace mirror doi (s : state World) :
  snd (snd (Mv3.findPDFUrl fetch mirror doi s))
  = snd s ++ [Fetch (lookup_request mirror doi)].
Proof.
  unfold Mv3.findPDFUrl, bind, call, await, ret, throw.
  destruct (fetch (lookup_request mirror doi) (fst s)) as [[res|e] w']; simpl;
    [|reflexivity].
  destruct (includes _ _); simpl; [reflexivity|].
  destruct (res_text res) as [html|e]; simpl; [|reflexivity].
  destruct (_ && _); reflexivity.
Qed.

Lemma blob_find_trace mirror doi (s : state World) :
  snd (snd (Blob.findPDFUrl fetch parseFromString mirror doi s))
  = snd s ++ [Fetch (lookup_request mirror doi)].
Proof.
  unfold Blob.findPDFUrl, bind, call, await, ret, throw.
  destruct (fetch (lookup_request mirror doi) (fst s)) as [[res|e] w']; simpl;
    [|reflexivity].
  destruct (includes _ _); simpl; [reflexivity|].
  destruct (res_text res) as [html|e]; simpl; [|reflexivity].
  destruct (_ && _); reflexivity.
Qed.

(** ** What [downloadFromUrl] asks of the browser *)

(** The Manifest V3 worker always ends with one call of the download
    manager, for the address it was given. *)
Lemma mv3_download_calls url doi (s : state World) :
  exists head_events,
    snd (snd (Mv3.downloadFromUrl fetch chrome_download url doi s))
    = snd s ++ head_events
      ++ [Download (DownloadOptions (Address url) (filename_of doi) false)]
    /\ lookups head_events = [] /\ downloads head_events = [].
Proof.
  unfold Mv3.downloadFromUrl, bind, try_catch, call, emit, ret.
  destruct (fetch (Request url HEAD None) (fst s)) as [[res|e] w']; simpl.
  - destruct (_ && _); simpl;
      destruct (chrome_download _ _) as [r w'']; simpl.
    + eexists [_; _]. rewrite <- !app_assoc. simpl. auto.
    + eexists [_]. rewrite <- !app_assoc. simpl. auto.
  - destruct (chrome_download _ _) as [r w'']; simpl.
    eexists [_]. rewrite <- !app_assoc. simpl. auto.
Qed.

Lemma mv3_download_trace url doi (s : state World) :
  lookups (snd (snd (Mv3.downloadFromUrl fetch chrome_download url doi s)))
  = lookups (snd s).
Proof.
  destruct (mv3_download_calls url doi s) as (ev & -> & Hl & _).
  rewrite !lookups_app, Hl. simpl. rewrite app_nil_r. reflexivity.
Qed.

Lemma blob_download_trace url doi (s : state World) :
  lookups (snd (snd (Blob.downloadFromUrl fetch chrome_download url doi s)))
  = lookups (snd s).
Proof.
  unfold Blob.downloadFromUrl, bind, try_catch, call, emit, ret, throw, await.
  destruct (fetch (Request url GET None) (fst s)) as [[res|e] w'];
    cbn [fst snd]; [|trace_done].
  destruct (negb (includes _ _)); cbn [fst snd]; [trace_done|].
  destruct (res_blob res) as [blob|e]; cbn [fst snd]; [|trace_done].
  destruct (negb (startsWith (blob_text (blob_slice 5 blob)) (str "%PDF-")));
    cbn [fst snd]; [trace_done|].
  destruct (chrome_download _ _) as [[id|e] w'']; cbn [fst snd]; trace_done.
Qed.

(** C9. The lookups of one resolution are those of a prefix of the mirror
    list, in the order of the list, each mirror looked up once; this
    holds for both workers and whatever the servers do. *)
Theorem lookups_follow_mirror_list (doi : jsstring) (w : World) :
  let mv3 := lookups (snd (snd (Mv3.handleDownload fetch chrome_download doi (w, [])))) in
  let blob := lookups (snd (snd (Blob.handleDownload fetch chrome_download
                                   parseFromString doi (w, [])))) in
  (exists n, 1 <= n <= length SCIHUB_MIRRORS
     /\ mv3 = map (fun mirror => lookup_request mirror doi) (firstn n SCIHUB_MIRRORS))
  /\ NoDup mv3
  /\ (exists n, 1 <= n <= length SCIHUB_MIRRORS
     /\ blob = map (fun mirror => lookup_request mirror doi) (firstn n SCIHUB_MIRRORS))
  /\ NoDup blob.
Proof.
  intros mv3 blob.
  destruct (@mirror_loop_lookups World (Mv3.findPDFUrl fetch)
              (Mv3.downloadFromUrl fetch chrome_download)
              mv3_find_trace mv3_download_trace doi SCIHUB_MIRRORS None (w, []))
    as (n & Hn & Hle & H1).
  destruct (@mirror_loop_lookups World (Blob.findPDFUrl fetch parseFromString)
              (Blob.downloadFromUrl fetch chrome_download)
              blob_find_trace blob_download_trace doi SCIHUB_MIRRORS None (w, []))
    as (n' & Hn' & Hle' & H1').
  assert (Hne : SCIHUB_MIRRORS <> []) by discriminate.
  specialize (H1 Hne). specialize (H1' Hne).
  change (mv3 = map (fun mirror => lookup_request mirror doi) (firstn n SCIHUB_MIRRORS)) in Hn.
  change (blob = map (fun mirror => lookup_request mirror doi) (firstn n' SCIHUB_MIRRORS)) in Hn'.
  repeat split.
  - exists n. auto.
  - rewrite Hn. apply lookups_distinct.
  - exists n'. auto.
  - rewrite Hn'. apply lookups_distinct.
Qed.

End AnyWorld.

Section AnyWorker.

Variable World : Type.
Variable findPDFUrl : jsstring -> jsstring -> Run World (option jsstring).
Variable downloadFromUrl : jsstring -> jsstring -> Run World N.

(** A mirror that fails by its two calls makes the attempt go on with
    the error recorded for it. *)
Lemma mirror_fails_attempt mirror doi s e s1 :
  mirror_fails findPDFUrl downloadFromUrl mirror doi s e s1 ->
  Worker.attempt findPDFUrl downloadFromUrl mirror doi s = (Ok (Continue e), s1).
Proof.
  intros [e0 s0 H|v s0 H Hv|v s0 e0 s2 H Hv Hd].
  - apply attempt_find_throws. exact H.
  - eapply attempt_nothing_found; eauto.
  - eapply attempt_download_throws; eauto.
Qed.

Lemma fail_in_turn_all_fail doi mirrors s errors s' :
  fail_in_turn findPDFUrl downloadFromUrl doi mirrors s errors s' ->
  all_fail findPDFUrl downloadFromUrl doi mirrors s errors s'.
Proof.
  induction 1 as [s|mirror more s e s1 errors s' Hm _ IH].
  - apply all_fail_nil.
  - eapply all_fail_cons; [apply mirror_fails_attempt; exact Hm|exact IH].
Qed.

(** C5, as the code has it.  When every mirror of the list fails, its
    lookup throwing, its lookup finding no address or the download of
    the address throwing, the outcome is a failure that carries the error
    recorded for the last mirror and that one only; but where that error
    is the empty text, the outcome carries "All mirrors failed" in its
    place. *)
Theorem exhausted_mirrors_report_last_error_unless_empty
    (doi : jsstring) (s s' : state World) (errors : list jsstring) :
  fail_in_turn findPDFUrl downloadFromUrl doi SCIHUB_MIRRORS s errors s' ->
  Worker.handleDownload findPDFUrl downloadFromUrl doi s
  = (Ok (Failure match last errors [] with
                 | [] => str "All mirrors failed"
                 | c :: message => c :: message
                 end), s').
Proof.
  intros H. apply fail_in_turn_all_fail in H. unfold Worker.handleDownload.
  rewrite (mirror_loop_all_fail H).
  destruct errors as [|e errors]; [inversion H|].
  cbn [recorded]. destruct (last (e :: errors) []); reflexivity.
Qed.

End AnyWorker.

Ltac fails_all :=
  repeat (eapply all_fail_cons; [vm_compute; reflexivity|]); apply all_fail_nil.

(** C5, as it is stated, fails where the last error has no message: with
    every request rejected so, all four mirrors fail with the empty text
    for an error, and the outcome carries another text. *)
Lemma empty_last_error_is_not_reported :
  let s' := snd (Mv3.handleDownload silent accepting nature_doi start) in
  fail_in_turn (Mv3.findPDFUrl silent) (Mv3.downloadFromUrl silent accepting)
    nature_doi SCIHUB_MIRRORS start [[]; []; []; []] s'
  /\ Mv3.handleDownload silent accepting nature_doi start
     = (Ok (Failure (str "All mirrors failed")), s')
  /\ last [[]; []; []; []] [] <> str "All mirrors failed".
Proof.
  split; [|split; [reflexivity|discriminate]].
  unfold SCIHUB_MIRRORS.
  repeat (eapply one_more; [eapply lookup_throws; reflexivity|]).
  apply none_left.
Qed.

Lemma exhausted_mirrors_report_last_error_unless_empty_witness :
  fst (Mv3.handleDownload offline accepting nature_doi start)
  = Ok (Failure (str "Failed to fetch")).
Proof.
  unfold Mv3.handleDownload.
  erewrite (@exhausted_mirrors_report_last_error_unless_empty unit _ _
              nature_doi start _ (repeat (str "Failed to fetch") 4)).
  - reflexivity.
  - unfold SCIHUB_MIRRORS.
    repeat (eapply one_more; [eapply lookup_throws; reflexivity|]).
    apply none_left.
Defined.

Section Validation.

Variable World : Type.
Variable fetch : request -> World -> result response * World.
Variable chrome_download : downloadOptions -> World -> result N * World.
Variable parseFromString : jsstring -> document.

(** C1, as the two workers have it.  The worker that fetches the payload
    itself refuses a payload that does not open with the signature: with
    "Invalid PDF content" when the payload was served as a PDF, with the
    content type error before it otherwise, and in both cases without
    calling the download manager.  The Manifest V3 worker never reads the
    payload and always calls the download manager with the address. *)
Theorem payload_signature_is_checked_by_blob_worker
    (url doi : jsstring) (s : state World) (res : response) (w1 : World)
    (payload : list N) :
  fetch (Request url GET None) (fst s) = (Ok res, w1) ->
  res_blob res = Ok payload ->
  firstn 5 payload <> str "%PDF-" ->
  let served := or_else (contentType res) [] in
  Blob.downloadFromUrl fetch chrome_download url doi s
  = (Err (if includes served (str "application/pdf")
          then str "Invalid PDF content"
          else str "Response is not a PDF (got " ++ served ++ str ")"),
     (w1, snd s ++ [Fetch (Request url GET None)]))
  /\ downloads (snd (snd (Blob.downloadFromUrl fetch chrome_download url doi s)))
     = downloads (snd s)
  /\ downloads (snd (snd (Mv3.downloadFromUrl fetch chrome_download url doi s)))
     = downloads (snd s)
       ++ [DownloadOptions (Address url) (filename_of doi) false].
Proof.
  intros Hf Hb Hsig served.
  assert (Hres : Blob.downloadFromUrl fetch chrome_download url doi s
    = (Err (if includes served (str "application/pdf")
            then str "Invalid PDF content"
            else str "Response is not a PDF (got " ++ served ++ str ")"),
       (w1, snd s ++ [Fetch (Request url GET None)]))).
  { unfold Blob.downloadFromUrl, bind, call, await, throw. rewrite Hf.
    cbn [fst snd]. fold served.
    destruct (includes served (str "application/pdf")); cbn [negb]; [|reflexivity].
    rewrite Hb.
    destruct (startsWith (blob_text (blob_slice 5 payload)) (str "%PDF-")) eqn:E.
    - apply signature_check in E. contradiction.
    - reflexivity. }
  split; [exact Hres|]. split.
  - rewrite Hres. cbn [snd]. rewrite downloads_app. simpl. apply app_nil_r.
  - destruct (mv3_download_calls fetch chrome_download url doi s) as (ev & -> & _ & Hd).
    rewrite !downloads_app, Hd. reflexivity.
Qed.

#[local] Abbreviation find := (Blob.findPDFUrl fetch parseFromString).
#[local] Abbreviation down := (Blob.downloadFromUrl fetch chrome_download).

(** C3, as the worker has it.  A resolution never throws; whatever goes
    wrong inside one attempt (the lookup throws, no reference is found,
    or the download of a resolved reference throws, a validation failure
    included) is recorded and the next mirror is tried; and the error of
    a download that fails at the last mirror, after the others failed, is
    the error of the request. *)
Theorem errors_in_one_attempt_go_on_to_next_mirror (doi : jsstring) :
  (forall s, exists out s',
     Blob.handleDownload fetch chrome_download parseFromString doi s = (Ok out, s'))
  /\ (forall mirror more lastError s e s1,
        find mirror doi s = (Err e, s1) ->
        Worker.mirror_loop find down (mirror :: more) doi lastError s
        = Worker.mirror_loop find down more doi (Some e) (logged mirror doi e s1))
  /\ (forall mirror more lastError s v s1,
        find mirror doi s = (Ok v, s1) -> truthy v = false ->
        Worker.mirror_loop find down (mirror :: more) doi lastError s
        = Worker.mirror_loop find down more doi
            (Some (str "Could not find PDF URL")) s1)
  /\ (forall mirror more lastError s v s1 e s2,
        find mirror doi s = (Ok v, s1) -> truthy v = true ->
        down (or_else v []) doi s1 = (Err e, s2) ->
        Worker.mirror_loop find down (mirror :: more) doi lastError s
        = Worker.mirror_loop find down more doi (Some e) (logged mirror doi e s2))
  /\ (forall s errors s1 v s2 e s3,
        all_fail find down doi (removelast SCIHUB_MIRRORS) s errors s1 ->
        find (last SCIHUB_MIRRORS []) doi s1 = (Ok v, s2) -> truthy v = true ->
        down (or_else v []) doi s2 = (Err e, s3) -> e <> [] ->
        Blob.handleDownload fetch chrome_download parseFromString doi s
        = (Ok (Failure e), logged (last SCIHUB_MIRRORS []) doi e s3)).
Proof.
  split; [|split; [|split; [|split]]].
  - intros s. apply mirror_loop_returns.
  - intros mirror more lastError s e s1 H.
    apply mirror_loop_continue. apply attempt_find_throws. exact H.
  - intros mirror more lastError s v s1 H Hv.
    apply mirror_loop_continue. eapply attempt_nothing_found; eauto.
  - intros mirror more lastError s v s1 e s2 H Hv Hd.
    apply mirror_loop_continue. eapply attempt_download_throws; eauto.
  - intros s errors s1 v s2 e s3 Hfail H Hv Hd He.
    unfold Blob.handleDownload, Worker.handleDownload.
    assert (Hall : all_fail find down doi SCIHUB_MIRRORS s (errors ++ [e])
                     (logged (last SCIHUB_MIRRORS []) doi e s3)).
    { change SCIHUB_MIRRORS
        with (removelast SCIHUB_MIRRORS ++ [last SCIHUB_MIRRORS []]) at 1.
      clear - Hfail H Hv Hd.
      induction Hfail as [s|mirror more s e0 s0 errors s' Ha Hrest IH].
      - simpl. eapply all_fail_cons; [|apply all_fail_nil].
        eapply attempt_download_throws; eauto.
      - simpl. eapply all_fail_cons; [exact Ha|]. apply IH; assumption. }
    rewrite (mirror_loop_all_fail Hall).
    destruct (errors ++ [e]) as [|x l] eqn:E.
    { destruct errors; discriminate. }
    cbn [recorded]. rewrite <- E, last_last, or_else_some by exact He.
    reflexivity.
Qed.

End Validation.

(** C1, as it is stated, fails for the Manifest V3 worker: the address
    serves a page of HTML, and the download manager is called for it. *)
Lemma mv3_worker_downloads_without_signature :
  let url := str "https://sci-hub.vg/downloads/paper.pdf" in
  let run := Mv3.downloadFromUrl html_fetch accepting url nature_doi start in
  fst (html_fetch (Request url GET None) tt)
    = Ok (Response url (Some (str "text/html"))
            (Ok (str "<html>Not found</html>")) (Ok html_bytes))
  /\ firstn 5 html_bytes <> str "%PDF-"
  /\ fst run = Ok 1%N
  /\ downloads (snd (snd run))
     = [DownloadOptions (Address url) (str "10.1038_nature12373.pdf") false].
Proof. repeat split. discriminate. Qed.

Lemma payload_signature_is_checked_by_blob_worker_witness :
  fst (Blob.downloadFromUrl (stateless second_mirror_works) accepting
         bad_file nature_doi start)
  = Err (str "Invalid PDF content").
Proof.
  rewrite (proj1 (@payload_signature_is_checked_by_blob_worker unit
             (stateless second_mirror_works) accepting bad_file nature_doi
             start (pdf_response bad_file html_bytes) tt html_bytes
             eq_refl eq_refl ltac:(discriminate))).
  reflexivity.
Defined.

(** C3, as it is stated, fails: the first mirror resolves a reference
    whose download fails the signature check, yet the request succeeds at
    the second mirror; and with the other mirrors out of reach the request
    reports their network error, not the validation failure. *)
Lemma validation_failure_is_not_reported :
  let find := Blob.findPDFUrl (stateless second_mirror_works) empty_page in
  let first := find (str "https://sci-hub.vg") nature_doi start in
  fst first = Ok (Some bad_file)
  /\ fst (Blob.downloadFromUrl (stateless second_mirror_works) accepting
            bad_file nature_doi (snd first))
     = Err (str "Invalid PDF content")
  /\ fst (Blob.handleDownload (stateless second_mirror_works) accepting
            empty_page nature_doi start)
     = Ok Success
  /\ fst (Blob.handleDownload (stateless only_bad_file) accepting
            empty_page nature_doi start)
     = Ok (Failure (str "Failed to fetch")).
Proof. repeat split. Qed.

Lemma errors_in_one_attempt_go_on_to_next_mirror_witness :
  fst (Blob.handleDownload (stateless last_mirror_bad_file) accepting
         empty_page nature_doi start)
  = Ok (Failure (str "Invalid PDF content")).
Proof.
  pose proof (proj2 (proj2 (proj2 (proj2
    (@errors_in_one_attempt_go_on_to_next_mirror unit
       (stateless last_mirror_bad_file) accepting empty_page nature_doi))))) as H.
  erewrite (H start (repeat (str "Failed to fetch") 3)).
  - reflexivity.
  - simpl removelast. fails_all.
  - vm_compute. reflexivity.
  - reflexivity.
  - vm_compute. reflexivity.
  - discriminate.
Defined.

End WorkerProperties.

(* ================================================================== *)
(** * Normalizing the reference found on the mirror's page *)
(* ================================================================== *)

Module UrlFacts.

Import RegexFacts ReplaceFacts IdentifierFacts.

(** A literal that is not at the current position does not match. *)
Lemma m_lit_fails : forall p sn rs cp k,
  startsWith rs p = false -> m (lit p) (MState sn rs cp) k = None.
Proof.
  induction p as [|x p IH]; intros sn rs cp k H; [discriminate|].
  destruct rs as [|y rs]; simpl in H.
  - destruct p; reflexivity.
  - destruct p as [|x' p'].
    + simpl in *. rewrite andb_true_r in H. rewrite H. reflexivity.
    + change (lit (x :: x' :: p')) with (Seq (one x) (lit (x' :: p'))).
      rewrite m_seq. simpl m at 1. cbn [rest].
      destruct (N.eqb x y) eqn:E; [|reflexivity].
      simpl in H. apply IH. exact H.
Qed.

Lemma decode_ampersands_here r :
  decode_ampersands (str "&amp;" ++ r) = ch "&" :: decode_ampersands r.
Proof. reflexivity. Qed.

Lemma decode_ampersands_next c tl :
  startsWith (c :: tl) (str "&amp;") = false ->
  decode_ampersands (c :: tl) = c :: decode_ampersands tl.
Proof.
  intros H. cbn [decode_ampersands].
  destruct tl as [|c2 [|c3 [|c4 [|c5 r]]]]; try reflexivity.
  rewrite H. reflexivity.
Qed.

(** The pattern [/&amp;/g] replaced by [&]: the decoding of the
    specification. *)
Lemma amp_replaced : forall n rs sn fuel,
  length rs <= n -> length rs < fuel ->
  replace_from fuel Mv3.amp_re (str "&") sn rs = decode_ampersands rs.
Proof.
  induction n as [|n IH]; intros rs sn fuel Hn Hf;
    (destruct fuel as [|fuel]; [lia|]).
  - destruct rs; [reflexivity|simpl in Hn; lia].
  - destruct rs as [|c tl]; [reflexivity|].
    destruct (startsWith (c :: tl) (str "&amp;")) eqn:E.
    + apply startsWith_split in E. destruct E as (r & E). rewrite E.
      rewrite decode_ampersands_here.
      assert (Hm : m Mv3.amp_re (MState sn (str "&amp;" ++ r) None) Some
                   = Some (MState (rev (str "&amp;") ++ sn) r None))
        by apply m_lit.
      cbn [replace_from]. rewrite (exec_from_here _ _ _ Hm).
      assert (A : advances (MState sn (str "&amp;" ++ r) None) (str "&amp;")
                    (MState (rev (str "&amp;") ++ sn) r None))
        by (split; reflexivity).
      rewrite (advances_consumed A). cbn [whole before after rest].
      unfold gap. cbn [before]. rewrite skipn_all2 by (rewrite length_rev; lia).
      rewrite rev_involutive.
      change (str "&amp;") with [38; 97; 109; 112; 59]%N. cbv iota.
      rewrite IH.
      * reflexivity.
      * rewrite E in Hn. simpl in Hn. lia.
      * rewrite E in Hf. simpl in Hf. lia.
    + rewrite replace_from_next by (apply m_lit_fails; exact E).
      rewrite decode_ampersands_next by exact E.
      rewrite IH; [reflexivity| |]; simpl in *; lia.
Qed.

Lemma decode_amp_replaced s :
  replaceAll Mv3.amp_re (str "&") s = decode_ampersands s.
Proof. unfold replaceAll. apply amp_replaced with (n := length s); lia. Qed.

Lemma m_one_fails c x sn tl cp k :
  N.eqb c x = false -> m (one c) (MState sn (x :: tl) cp) k = None.
Proof. intros H. simpl. rewrite H. reflexivity. Qed.

(** Where [/#.*$/] matches in a text without line terminators: from the
    first [#] to the end. *)
Lemma fragment_found : forall rs sn,
  no_line_terminator rs = true ->
  exec_from Mv3.fragment_re sn rs =
  match span not_hash rs with
  | (_, []) => None
  | (a, h :: t) => Some (MResult (rev sn ++ a) (h :: t) None [])
  end.
Proof.
  induction rs as [|c tl IH]; intros sn Hlt.
  - reflexivity.
  - simpl in Hlt. apply andb_true_iff in Hlt. destruct Hlt as [_ Hlt].
    cbn [span]. unfold not_hash at 1.
    destruct (N.eqb (ch "#") c) eqn:E; cbn [negb].
    + apply N.eqb_eq in E. subst c.
      assert (Hm : m Mv3.fragment_re (MState sn (ch "#" :: tl) None) Some
                   = Some (MState (rev tl ++ ch "#" :: sn) [] None)).
      { unfold Mv3.fragment_re. cbn [seqs]. rewrite m_seq, m_one, m_seq.
        unfold star, dot. rewrite <- (app_nil_r tl) at 1.
        apply m_rep_chr_all; auto; try lia; try exact Hlt. }
      rewrite (exec_from_here _ _ _ Hm).
      assert (A : advances (MState sn (ch "#" :: tl) None) (ch "#" :: tl)
                    (MState (rev tl ++ ch "#" :: sn) [] None)).
      { split; simpl; rewrite <- ?app_assoc, ?app_nil_r; reflexivity. }
      rewrite (advances_consumed A), app_nil_r. reflexivity.
    + rewrite exec_from_next.
      * rewrite IH by exact Hlt.
        destruct (span not_hash tl) as [a [|h t]]; [reflexivity|].
        simpl. rewrite <- app_assoc. reflexivity.
      * unfold Mv3.fragment_re. cbn [seqs]. rewrite m_seq.
        apply m_one_fails. exact E.
Qed.

Lemma fragment_stripped s :
  no_line_terminator s = true ->
  replace Mv3.fragment_re [] s = strip_fragment s.
Proof.
  intros H. unfold replace, exec, strip_fragment. rewrite (@fragment_found s [] H).
  fold not_hash.
  destruct (span not_hash s) as [a [|h t]] eqn:E; simpl.
  - apply span_spec in E. destruct E as [-> _]. apply app_nil_r.
  - apply app_nil_r.
Qed.

(** ** Line terminators are not brought in by trimming and decoding *)

Lemma dropWhile_keeps (p q : char -> bool) s :
  forallb q s = true -> forallb q (dropWhile p s) = true.
Proof.
  induction s as [|c s IH]; intros H; simpl; [reflexivity|].
  simpl in H. apply andb_true_iff in H. destruct H as [Hc Hs].
  destruct (p c); [auto|]. simpl. rewrite Hc, Hs. reflexivity.
Qed.

Lemma forallb_rev (q : char -> bool) s : forallb q (rev s) = forallb q s.
Proof.
  induction s as [|c s IH]; [reflexivity|].
  simpl. rewrite forallb_app, IH. simpl. rewrite andb_true_r. apply andb_comm.
Qed.

Lemma trim_keeps (q : char -> bool) s :
  forallb q s = true -> forallb q (trim s) = true.
Proof.
  intros H. unfold trim, dropWhileEnd.
  rewrite forallb_rev. apply dropWhile_keeps. rewrite forallb_rev.
  apply dropWhile_keeps. exact H.
Qed.

Lemma decode_keeps (q : char -> bool) :
  q (ch "&") = true ->
  forall n s, length s <= n ->
  forallb q s = true -> forallb q (decode_ampersands s) = true.
Proof.
  intros Hq. induction n as [|n IH]; intros s Hn H.
  - destruct s; [reflexivity|simpl in Hn; lia].
  - destruct s as [|c tl]; [reflexivity|].
    destruct (startsWith (c :: tl) (str "&amp;")) eqn:E.
    + apply startsWith_split in E. destruct E as (r & E). rewrite E in *.
      rewrite decode_ampersands_here. simpl. rewrite Hq. apply IH.
      * simpl in Hn. lia.
      * simpl in H. repeat (apply andb_true_iff in H; destruct H as [_ H]).
        exact H.
    + rewrite decode_ampersands_next by exact E.
      simpl in H. apply andb_true_iff in H. destruct H as [Hc Hs].
      simpl. rewrite Hc. apply IH; [simpl in Hn; lia|exact Hs].
Qed.

(** What [normalizeUrl] computes, in the words of the specification. *)
Lemma normalizeUrl_normalized ref mirror :
  no_line_terminator ref = true ->
  Mv3.normalizeUrl ref mirror =
  match ref with
  | [] => None
  | _ :: _ => Some (normalized ref mirror)
  end.
Proof.
  intros H. destruct ref as [|c ref]; [reflexivity|].
  unfold Mv3.normalizeUrl, normalized, resolve.
  rewrite decode_amp_replaced, fragment_stripped.
  - repeat match goal with
           | |- context [if ?b then _ else _] => destruct b
           end; reflexivity.
  - apply (@decode_keeps _ eq_refl (length (trim (c :: ref))));
      [lia|]. apply trim_keeps. exact H.
Qed.

(** Every step of the scan but the inline-script one hands its reference
    to [normalizeUrl]. *)
Lemma scan_normalizes html mirror u :
  Mv3.scan html mirror = Some u ->
  (exists ref, In (Some ref) (references html)
               /\ Mv3.normalizeUrl ref mirror = Some u)
  \/ Mv3.script_url html = Some u.
Proof.
  unfold Mv3.scan, references. intros H.
  repeat match type of H with
  | match ?x with Some _ => _ | None => _ end = _ =>
      let r := fresh "r" in
      destruct x as [r|] eqn:?;
        [first [ right; exact H
               | left; exists r; split; [simpl; auto 10 | exact H] ] |]
  end.
  discriminate.
Qed.

(** The worker that parses the page gets its references from the parser,
    entities decoded; its [normalizeUrl] does the rest. *)
Lemma blob_normalizeUrl_normalized ref mirror :
  no_line_terminator ref = true ->
  Blob.normalizeUrl (Some ref) mirror =
  match ref with
  | [] => None
  | _ :: _ => Some (resolve mirror (strip_fragment (trim ref)))
  end.
Proof.
  intros H. destruct ref as [|c ref]; [reflexivity|].
  unfold Blob.normalizeUrl, resolve.
  change Blob.fragment_re with Mv3.fragment_re.
  rewrite fragment_stripped by (apply trim_keeps; exact H).
  repeat match goal with
         | |- context [if ?b then _ else _] => destruct b
         end; reflexivity.
Qed.

(** C4, as the worker has it.  A reference taken from the page by any
    step but the inline-script one is handed to [normalizeUrl], which,
    for a reference without line terminators, trims it, decodes [&amp;]
    (left to the parser in the worker that parses the page), strips the
    fragment and resolves the result against the mirror base by the four
    cases; the inline-script step returns the absolute address it matched
    as it stands. *)
Theorem references_are_normalized_except_in_scripts (html mirror : jsstring) :
  (forall u, Mv3.scan html mirror = Some u ->
     (exists ref, In (Some ref) (references html)
                  /\ Mv3.normalizeUrl ref mirror = Some u)
     \/ Mv3.script_url html = Some u)
  /\ (forall ref, no_line_terminator ref = true ->
        Mv3.normalizeUrl ref mirror =
        match ref with
        | [] => None
        | _ :: _ => Some (resolve mirror
                            (strip_fragment (decode_ampersands (trim ref))))
        end)
  /\ (forall ref, no_line_terminator ref = true ->
        Blob.normalizeUrl (Some ref) mirror =
        match ref with
        | [] => None
        | _ :: _ => Some (resolve mirror (strip_fragment (trim ref)))
        end)
  /\ (forall url,
        resolve mirror url =
        if startsWith url (str "//") then str "https:" ++ url
        else if startsWith url (str "/") then mirror ++ url
        else if startsWith url (str "http") then url
        else mirror ++ str "/" ++ url).
Proof.
  split; [|split; [|split]].
  - intros u. apply scan_normalizes.
  - intros ref H. apply normalizeUrl_normalized. exact H.
  - intros ref H. apply blob_normalizeUrl_normalized. exact H.
  - reflexivity.
Qed.

(** C4, as it is stated, fails at the inline-script step: the address
    goes out with its fragment and its entity, where [normalizeUrl] would
    have removed both.  And a fragment that holds a line break is not
    stripped by [normalizeUrl] either. *)
Lemma script_reference_is_not_normalized :
  let mirror := str "https://sci-hub.vg" in
  Mv3.scan script_page mirror
    = Some (str "https://cdn.example/a.pdf#page=2&amp;zoom=1")
  /\ Mv3.normalizeUrl (str "https://cdn.example/a.pdf#page=2&amp;zoom=1") mirror
    = Some (str "https://cdn.example/a.pdf")
  /\ Mv3.normalizeUrl (str "/a.pdf#x" ++ [10%N] ++ str "y") mirror
    = Some (mirror ++ str "/a.pdf#x" ++ [10%N] ++ str "y").
Proof. repeat split. Qed.

Lemma references_are_normalized_except_in_scripts_witness :
  Mv3.normalizeUrl (str " //cdn.example/a.pdf?x=1&amp;y=2#view=FitH ")
                   (str "https://sci-hub.vg")
  = Some (str "https://cdn.example/a.pdf?x=1&y=2").
Proof.
  rewrite (proj1 (proj2 (references_are_normalized_except_in_scripts
                           [] (str "https://sci-hub.vg")))
             (str " //cdn.example/a.pdf?x=1&amp;y=2#view=FitH ") eq_refl).
  reflexivity.
Defined.

End UrlFacts.

(* ================================================================== *)
(** * The mirror loop: what it asks of the browser, and when it stops *)
(* ================================================================== *)

Module TraceFacts.

Import LoopFacts.

Section LoopTrace.

Variable World : Type.
Variable findPDFUrl : jsstring -> jsstring -> Run World (option jsstring).
Variable downloadFromUrl : jsstring -> jsstring -> Run World N.

#[local] Abbreviation attempt := (Worker.attempt findPDFUrl downloadFromUrl).
#[local] Abbreviation mirror_loop := (Worker.mirror_loop findPDFUrl downloadFromUrl).

(** What the two calls of an attempt are assumed to add to the trace. *)
Variable P : event -> Prop.
Variable doi : jsstring.

Hypothesis find_adds : forall mirror s,
  adds (findPDFUrl mirror doi) s [Fetch (lookup_request mirror doi)].

Hypothesis download_adds : forall url s,
  exists events,
    adds (downloadFromUrl url doi) s events
    /\ Forall P events
    /\ lookups events = []
    /\ length (downloads events) <= 1
    /\ (forall id s', downloadFromUrl url doi s = (Ok id, s') ->
          exists before o, events = before ++ [Download o]).

Hypothesis P_fetch : forall r, P (Fetch r).
Hypothesis P_log : forall t, P (Log t).

(** How an attempt ends and what it adds. *)
Lemma attempt_adds mirror s :
  exists p s' events,
    attempt mirror doi s = (Ok p, s')
    /\ snd s' = snd s ++ Fetch (lookup_request mirror doi) :: events
    /\ Forall P events
    /\ lookups events = []
    /\ length (downloads events) <= 1
    /\ (p = Returned -> exists before o, events = before ++ [Download o]).
Proof.
  pose proof (find_adds mirror s) as Hf. unfold adds in Hf.
  unfold Worker.attempt, try_catch, bind.
  destruct (findPDFUrl mirror doi s) as [[v|e] s1]; cbn [snd] in Hf.
  - destruct (truthy v).
    + destruct (download_adds (or_else v []) s1) as (ev & Hd & HP & Hl & Hn & Hok).
      unfold adds in Hd.
      destruct (downloadFromUrl (or_else v []) doi s1) as [[id|e] s2] eqn:E;
        cbn [snd] in Hd.
      * exists Returned, s2, ev. cbn [ret]. repeat split; auto.
        -- rewrite Hd, Hf, <- app_assoc. reflexivity.
        -- intros _. eapply Hok. reflexivity.
      * eexists (Continue e), _, (ev ++ [Log _]). unfold emit, ret. cbn [fst snd].
        repeat split.
        -- rewrite Hd, Hf, <- !app_assoc. reflexivity.
        -- apply Forall_app. split; [exact HP|]. constructor; [apply P_log|constructor].
        -- rewrite lookups_app, Hl. reflexivity.
        -- rewrite downloads_app. simpl. rewrite app_nil_r. exact Hn.
        -- discriminate.
    + eexists _, s1, []. cbn [ret].
      repeat split; auto; try discriminate.
  - eexists (Continue e), _, [Log _]. unfold emit, ret. cbn [fst snd].
    repeat split.
    + rewrite Hf, <- app_assoc. reflexivity.
    + constructor; [apply P_log|constructor].
    + simpl. lia.
    + discriminate.
Qed.

(** The loop as a whole. *)
Lemma mirror_loop_adds : forall mirrors lastError s,
  exists out s' events,
    mirror_loop mirrors doi lastError s = (Ok out, s')
    /\ snd s' = snd s ++ events
    /\ Forall P events
    /\ length (downloads events) <= length (lookups events)
    /\ length (lookups events) <= length mirrors
    /\ (out = Success -> exists before o, events = before ++ [Download o])
    /\ (forall e, out = Failure e ->
          lookups events = map (fun mirror => lookup_request mirror doi) mirrors).
Proof.
  induction mirrors as [|mirror more IH]; intros lastError s.
  - eexists _, s, []. cbn [Worker.mirror_loop ret]. repeat split; auto.
    + rewrite app_nil_r. reflexivity.
    + discriminate.
  - destruct (attempt_adds mirror s) as (p & s1 & ev & Ha & Htr & HP & Hl & Hn & Hret).
    destruct p as [|e].
    + rewrite (@mirror_loop_return _ _ _ mirror more doi lastError s s1 Ha).
      exists Success, s1, (Fetch (lookup_request mirror doi) :: ev).
      assert (Hlk : lookups (Fetch (lookup_request mirror doi) :: ev)
                    = [lookup_request mirror doi]).
      { change (Fetch (lookup_request mirror doi) :: ev)
          with ([Fetch (lookup_request mirror doi)] ++ ev).
        rewrite lookups_app, Hl. reflexivity. }
      assert (Hdl : downloads (Fetch (lookup_request mirror doi) :: ev)
                    = downloads ev) by reflexivity.
      split; [reflexivity|]. split; [exact Htr|].
      split; [constructor; [apply P_fetch|exact HP]|].
      split; [rewrite Hlk, Hdl; simpl; lia|].
      split; [rewrite Hlk; simpl; lia|].
      split; [|discriminate].
      intros _. destruct (Hret eq_refl) as (b & o & ->).
      exists (Fetch (lookup_request mirror doi) :: b), o. reflexivity.
    + rewrite (@mirror_loop_continue _ _ _ mirror more doi lastError s e s1 Ha).
      destruct (IH (Some e) s1) as (out & s' & ev' & Hloop & Htr' & HP' & Hc & Hm & Hs & Hfail).
      exists out, s', ((Fetch (lookup_request mirror doi) :: ev) ++ ev').
      assert (Hlk : lookups ((Fetch (lookup_request mirror doi) :: ev) ++ ev')
                    = lookup_request mirror doi :: lookups ev').
      { rewrite lookups_app.
        change (Fetch (lookup_request mirror doi) :: ev)
          with ([Fetch (lookup_request mirror doi)] ++ ev).
        rewrite lookups_app, Hl. reflexivity. }
      assert (Hdl : downloads ((Fetch (lookup_request mirror doi) :: ev) ++ ev')
                    = downloads ev ++ downloads ev').
      { rewrite downloads_app.
        change (Fetch (lookup_request mirror doi) :: ev)
          with ([Fetch (lookup_request mirror doi)] ++ ev).
        rewrite downloads_app. reflexivity. }
      split; [exact Hloop|].
      split; [rewrite Htr', Htr, <- app_assoc; reflexivity|].
      split; [apply Forall_app; split; [|exact HP'];
              constructor; [apply P_fetch|exact HP]|].
      split; [rewrite Hlk, Hdl, length_app; simpl; lia|].
      split; [rewrite Hlk; simpl; lia|].
      split.
      * intros Hout. destruct (Hs Hout) as (b & o & ->).
        exists ((Fetch (lookup_request mirror doi) :: ev) ++ b), o.
        rewrite <- app_assoc. reflexivity.
      * intros e' Hout. rewrite Hlk, (Hfail e' Hout). reflexivity.
Qed.

End LoopTrace.

End TraceFacts.

(* ================================================================== *)
(** * The two workers: their calls of the download manager *)
(* ================================================================== *)

Module DownloadFacts.

Import LoopFacts BlobFacts TraceFacts.

Ltac each_event :=
  repeat (apply Forall_cons; [first [exact I | assumption]|]); apply Forall_nil.

Section AnyWorld.

Variable World : Type.
Variable fetch : request -> World -> result response * World.
Variable chrome_download : downloadOptions -> World -> result N * World.
Variable parseFromString : jsstring -> document.

Lemma blob_find_adds doi mirror (s : state World) :
  adds (Blob.findPDFUrl fetch parseFromString mirror doi) s
       [Fetch (lookup_request mirror doi)].
Proof.
  unfold adds, Blob.findPDFUrl, bind, call, await, ret, throw.
  destruct (fetch (lookup_request mirror doi) (fst s)) as [[res|e] w'];
    cbn [fst snd]; [|reflexivity].
  destruct (includes _ _); cbn [fst snd]; [reflexivity|].
  destruct (res_text res) as [html|e]; cbn [fst snd]; [|reflexivity].
  destruct (_ && _); reflexivity.
Qed.

Lemma mv3_find_adds doi mirror (s : state World) :
  adds (Mv3.findPDFUrl fetch mirror doi) s [Fetch (lookup_request mirror doi)].
Proof.
  unfold adds, Mv3.findPDFUrl, bind, call, await, ret, throw.
  destruct (fetch (lookup_request mirror doi) (fst s)) as [[res|e] w'];
    cbn [fst snd]; [|reflexivity].
  destruct (includes _ _); cbn [fst snd]; [reflexivity|].
  destruct (res_text res) as [html|e]; cbn [fst snd]; [|reflexivity].
  destruct (_ && _); reflexivity.
Qed.

(** What the download of the blob worker adds to the trace. *)
Lemma blob_download_adds doi url (s : state World) :
  exists events,
    adds (Blob.downloadFromUrl fetch chrome_download url doi) s events
    /\ Forall (signed_download doi) events
    /\ lookups events = []
    /\ length (downloads events) <= 1
    /\ (forall id s',
          Blob.downloadFromUrl fetch chrome_download url doi s = (Ok id, s') ->
          exists before o, events = before ++ [Download o]).
Proof.
  unfold adds, Blob.downloadFromUrl, bind, try_catch, call, emit, ret, throw, await.
  destruct (fetch (Request url GET None) (fst s)) as [[res|e] w'];
    cbn [fst snd].
  2:{ exists [Fetch (Request url GET None)].
      repeat split; auto; try (repeat constructor); discriminate. }
  destruct (negb (includes _ _)); cbn [fst snd].
  { exists [Fetch (Request url GET None)].
    repeat split; auto; try (repeat constructor); discriminate. }
  destruct (res_blob res) as [blob|e]; cbn [fst snd].
  2:{ exists [Fetch (Request url GET None)].
      repeat split; auto; try (repeat constructor); discriminate. }
  destruct (startsWith (blob_text (blob_slice 5 blob)) (str "%PDF-")) eqn:Esig;
    cbn [negb fst snd].
  2:{ exists [Fetch (Request url GET None)].
      repeat split; auto; try (repeat constructor); discriminate. }
  apply signature_check in Esig.
  assert (Hsigned : signed_download doi
            (Download (DownloadOptions (ObjectURL blob) (filename_of doi) false))).
  { simpl. repeat split; auto. exists blob. auto. }
  destruct (chrome_download _ w') as [[id|e] w'']; cbn [fst snd].
  - exists [Fetch (Request url GET None);
            Download (DownloadOptions (ObjectURL blob) (filename_of doi) false)].
    split; [rewrite <- app_assoc; reflexivity|].
    split; [each_event|].
    split; [reflexivity|]. split; [simpl; lia|].
    intros _ _ _. eexists [_], _. reflexivity.
  - exists [Fetch (Request url GET None);
            Download (DownloadOptions (ObjectURL blob) (filename_of doi) false);
            Revoke blob].
    split; [rewrite <- !app_assoc; reflexivity|].
    split; [each_event|].
    split; [reflexivity|]. split; [simpl; lia|]. discriminate.
Qed.

(** What the download of the Manifest V3 worker adds to the trace. *)
Lemma mv3_download_adds doi url (s : state World) :
  exists events,
    adds (Mv3.downloadFromUrl fetch chrome_download url doi) s events
    /\ Forall (direct_download doi) events
    /\ lookups events = []
    /\ length (downloads events) <= 1
    /\ (forall id s',
          Mv3.downloadFromUrl fetch chrome_download url doi s = (Ok id, s') ->
          exists before o, events = before ++ [Download o]).
Proof.
  assert (Hd : direct_download doi
            (Download (DownloadOptions (Address url) (filename_of doi) false))).
  { simpl. repeat split; auto. exists url. auto. }
  unfold adds, Mv3.downloadFromUrl, bind, try_catch, call, emit, ret.
  destruct (fetch (Request url HEAD None) (fst s)) as [[res|e] w']; cbn [fst snd].
  - destruct (_ && _); cbn [fst snd];
      destruct (chrome_download _ w') as [r w'']; cbn [fst snd].
    + eexists.
      split; [rewrite <- !app_assoc; cbn [app]; reflexivity|].
      split; [each_event|].
      split; [reflexivity|]. split; [simpl; lia|].
      intros _ _ _. eexists [_; _], _. reflexivity.
    + exists [Fetch (Request url HEAD None);
              Download (DownloadOptions (Address url) (filename_of doi) false)].
      split; [rewrite <- !app_assoc; reflexivity|].
      split; [each_event|].
      split; [reflexivity|]. split; [simpl; lia|].
      intros _ _ _. eexists [_], _. reflexivity.
  - destruct (chrome_download _ w') as [r w'']; cbn [fst snd].
    exists [Fetch (Request url HEAD None);
            Download (DownloadOptions (Address url) (filename_of doi) false)].
    split; [rewrite <- !app_assoc; reflexivity|].
    split; [each_event|].
    split; [reflexivity|]. split; [simpl; lia|].
    intros _ _ _. eexists [_], _. reflexivity.
Qed.

(** X1. Whatever the servers send, every call of the download manager
    that a resolution of the blob worker makes is for a blob that opens
    with the five bytes of the PDF signature, under the file name derived
    from the DOI and without a save dialog. *)
Theorem blob_worker_downloads_signed_files_only (doi : jsstring) (s : state World) :
  exists events,
    snd (snd (Blob.handleDownload fetch chrome_download parseFromString doi s))
    = snd s ++ events
    /\ Forall (signed_download doi) events.
Proof.
  destruct (@mirror_loop_adds World (Blob.findPDFUrl fetch parseFromString)
              (Blob.downloadFromUrl fetch chrome_download)
              (signed_download doi) doi
              (blob_find_adds doi) (blob_download_adds doi)
              (fun _ => I) (fun _ => I) SCIHUB_MIRRORS None s)
    as (out & s' & events & Hrun & Htr & HP & _).
  exists events. unfold Blob.handleDownload, Worker.handleDownload.
  rewrite Hrun. auto.
Qed.

(** X2. One resolution looks up at most four mirrors and calls the
    download manager at most once per mirror looked up, in either
    worker; the Manifest V3 worker always passes a remote address, the
    file name derived from the DOI, and no save dialog. *)
Theorem at_most_one_download_per_lookup (doi : jsstring) (s : state World) :
  (exists events,
     snd (snd (Mv3.handleDownload fetch chrome_download doi s)) = snd s ++ events
     /\ length (downloads events) <= length (lookups events) <= 4
     /\ Forall (direct_download doi) events)
  /\ (exists events,
     snd (snd (Blob.handleDownload fetch chrome_download parseFromString doi s))
     = snd s ++ events
     /\ length (downloads events) <= length (lookups events) <= 4).
Proof.
  split.
  - destruct (@mirror_loop_adds World (Mv3.findPDFUrl fetch)
                (Mv3.downloadFromUrl fetch chrome_download)
                (direct_download doi) doi
                (mv3_find_adds doi) (mv3_download_adds doi)
                (fun _ => I) (fun _ => I) SCIHUB_MIRRORS None s)
      as (out & s' & events & Hrun & Htr & HP & Hd & Hl & _).
    exists events. unfold Mv3.handleDownload, Worker.handleDownload.
    rewrite Hrun. simpl in Hl. auto.
  - destruct (@mirror_loop_adds World (Blob.findPDFUrl fetch parseFromString)
                (Blob.downloadFromUrl fetch chrome_download)
                (signed_download doi) doi
                (blob_find_adds doi) (blob_download_adds doi)
                (fun _ => I) (fun _ => I) SCIHUB_MIRRORS None s)
      as (out & s' & events & Hrun & Htr & HP & Hd & Hl & _).
    exists events. unfold Blob.handleDownload, Worker.handleDownload.
    rewrite Hrun. simpl in Hl. auto.
Qed.

(** X3. A resolution never throws.  It answers with success only right
    after a call of the download manager, which is then the last thing it
    asked of the browser; and it answers with a failure only after it has
    looked up all four mirrors. *)
Theorem outcome_follows_the_trace (doi : jsstring) (s : state World) :
  (exists out s' events,
     Mv3.handleDownload fetch chrome_download doi s = (Ok out, s')
     /\ snd s' = snd s ++ events
     /\ (out = Success -> ends_with_download events)
     /\ (forall e, out = Failure e ->
           lookups events
           = map (fun mirror => lookup_request mirror doi) SCIHUB_MIRRORS))
  /\ (exists out s' events,
     Blob.handleDownload fetch chrome_download parseFromString doi s = (Ok out, s')
     /\ snd s' = snd s ++ events
     /\ (out = Success -> ends_with_download events)
     /\ (forall e, out = Failure e ->
           lookups events
           = map (fun mirror => lookup_request mirror doi) SCIHUB_MIRRORS)).
Proof.
  split.
  - destruct (@mirror_loop_adds World (Mv3.findPDFUrl fetch)
                (Mv3.downloadFromUrl fetch chrome_download)
                (direct_download doi) doi
                (mv3_find_adds doi) (mv3_download_adds doi)
                (fun _ => I) (fun _ => I) SCIHUB_MIRRORS None s)
      as (out & s' & events & Hrun & Htr & _ & _ & _ & Hs & Hf).
    exists out, s', events. auto.
  - destruct (@mirror_loop_adds World (Blob.findPDFUrl fetch parseFromString)
                (Blob.downloadFromUrl fetch chrome_download)
                (signed_download doi) doi
                (blob_find_adds doi) (blob_download_adds doi)
                (fun _ => I) (fun _ => I) SCIHUB_MIRRORS None s)
      as (out & s' & events & Hrun & Htr & _ & _ & _ & Hs & Hf).
    exists out, s', events. auto.
Qed.

(** X4. The Manifest V3 worker's download returns what the download
    manager answers for the address: the HEAD request before it, whether
    it fails or reports another content type, changes nothing but the
    log. *)
Theorem head_request_never_decides (url doi : jsstring) (s : state World) :
  let after_head := snd (fetch (Request url HEAD None) (fst s)) in
  let opts := DownloadOptions (Address url) (filename_of doi) false in
  fst (Mv3.downloadFromUrl fetch chrome_download url doi s)
  = fst (chrome_download opts after_head)
  /\ fst (snd (Mv3.downloadFromUrl fetch chrome_download url doi s))
     = snd (chrome_download opts after_head).
Proof.
  unfold Mv3.downloadFromUrl, bind, try_catch, call, emit, ret.
  destruct (fetch (Request url HEAD None) (fst s)) as [[res|e] w']; cbn [fst snd].
  - destruct (_ && _); cbn [fst snd];
      destruct (chrome_download _ w') as [r w'']; split; reflexivity.
  - destruct (chrome_download _ w') as [r w'']; split; reflexivity.
Qed.

(** X5. For a payload that is served as a PDF and opens with the
    signature, the blob worker's download returns what the download
    manager answers for the blob: its id, or its error message after the
    object URL has been revoked. *)
Theorem blob_download_passes_on_the_answer
    (url doi : jsstring) (s : state World) (res : response) (w1 : World)
    (payload : list N) :
  fetch (Request url GET None) (fst s) = (Ok res, w1) ->
  includes (or_else (contentType res) []) (str "application/pdf") = true ->
  res_blob res = Ok payload ->
  firstn 5 payload = str "%PDF-" ->
  let opts := DownloadOptions (ObjectURL payload) (filename_of doi) false in
  let asked := snd s ++ [Fetch (Request url GET None); Download opts] in
  Blob.downloadFromUrl fetch chrome_download url doi s =
  match chrome_download opts w1 with
  | (Ok id, w2) => (Ok id, (w2, asked))
  | (Err message, w2) => (Err message, (w2, asked ++ [Revoke payload]))
  end.
Proof.
  intros Hf Hc Hb Hsig opts asked.
  unfold Blob.downloadFromUrl, bind, try_catch, call, emit, ret, throw, await.
  rewrite Hf. cbn [fst snd]. rewrite Hc, Hb. cbn [negb].
  apply signature_check in Hsig. rewrite Hsig. cbn [negb fst snd].
  fold opts. unfold asked.
  destruct (chrome_download opts w1) as [[id|e] w2]; cbn [fst snd];
    rewrite <- ?app_assoc; reflexivity.
Qed.

End AnyWorld.

Section AnyWorker.

Variable World : Type.
Variable findPDFUrl : jsstring -> jsstring -> Run World (option jsstring).
Variable downloadFromUrl : jsstring -> jsstring -> Run World N.

(** X6. The listener answers every request for a download of a
    non-empty DOI with an outcome and never lets an exception out; any
    other message is left unanswered and has no effect. *)
Theorem listener_answers_download_requests
    (request : Content.message) (s : state World) :
  if JS.eqb (Content.action request) (str "downloadPDF")
     && truthy (Content.doi request)
  then exists out s',
         Worker.onMessage findPDFUrl downloadFromUrl request s = (Ok (Some out), s')
  else Worker.onMessage findPDFUrl downloadFromUrl request s = (Ok None, s).
Proof.
  unfold Worker.onMessage.
  destruct (JS.eqb _ _ && truthy _); [|reflexivity].
  unfold try_catch, bind, Worker.handleDownload.
  destruct (mirror_loop_returns findPDFUrl downloadFromUrl SCIHUB_MIRRORS
              (or_else (Content.doi request) []) None s) as (out & s' & H).
  rewrite H. exists out, s'. reflexivity.
Qed.

End AnyWorker.

Lemma blob_download_passes_on_the_answer_witness :
  fst (Blob.downloadFromUrl (stateless second_mirror_works) accepting
         good_file nature_doi start)
  = Ok 1%N.
Proof.
  rewrite (@blob_download_passes_on_the_answer unit
             (stateless second_mirror_works) accepting good_file nature_doi
             start (pdf_response good_file pdf_bytes) tt pdf_bytes
             eq_refl eq_refl eq_refl eq_refl).
  reflexivity.
Defined.

End DownloadFacts.

(* ================================================================== *)
(** * The scan of the Manifest V3 worker: its button step *)
(* ================================================================== *)

Module ScanFacts.

Import RegexFacts.

(** Every result of a global search is a result of [exec] from some
    position. *)
Lemma matches_from_sound r : forall fuel sn rs res,
  In res (matches_from fuel r sn rs) ->
  exists sn' rs', exec_from r sn' rs' = Some res.
Proof.
  induction fuel as [|fuel IH]; intros sn rs res H; simpl in H; [contradiction|].
  destruct (exec_from r sn rs) as [res0|] eqn:E; [|contradiction].
  destruct H as [<-|H]; [eauto|].
  destruct (whole res0) as [|x w]; [destruct (after res0) as [|c tl]|];
    [contradiction|apply IH in H; exact H|apply IH in H; exact H].
Qed.

(** Group 1 of a result is a text of one of the pattern's groups. *)
Lemma exec_from_group r sn rs res w :
  exec_from r sn rs = Some res -> group1 res = Some w ->
  exists body, In body (groups r) /\ lang body w.
Proof.
  intros E Hg. apply exec_from_sound in E.
  destruct E as (skipped & st' & _ & Hm & _ & Hc & _).
  apply matches_cap in Hm. simpl in Hm. rewrite <- Hc, Hg in Hm.
  destruct Hm as [Hm|(body & w' & Hin & Hl & Hw)]; [discriminate|].
  inversion Hw; subst. eauto.
Qed.

Lemma first_match_none (A : Type) (f : A -> option jsstring) : forall l,
  (forall x, In x l -> f x = None) -> Content.first_match f l = None.
Proof.
  induction l as [|x l IH]; intros H; simpl; [reflexivity|].
  rewrite (H x (or_introl eq_refl)). apply IH. intros y Hy. apply H. right. exact Hy.
Qed.

(** The location pattern matches only a text that holds a quote. *)
Lemma location_needs_quote s :
  forallb Mv3.unquoted s = true -> match1 Mv3.location_re s = None.
Proof.
  intros Hs. unfold match1.
  destruct (exec Mv3.location_re s) as [res|] eqn:E; [|reflexivity].
  exfalso. apply exec_sound in E. destruct E as (Hd & Hl & _).
  unfold Mv3.location_re in Hl. cbn [seqs lang] in Hl.
  destruct Hl as (w1 & r1 & Hw & _ & w2 & r2 & -> & _ & w3 & r3 & -> & _
                  & w4 & r4 & -> & _ & w5 & r5 & -> & Hq & _).
  destruct Hq as (c & -> & Hc).
  rewrite Hd, Hw in Hs. rewrite !forallb_app in Hs. simpl in Hs.
  unfold Mv3.unquoted in Hs at 6. rewrite Hc in Hs. simpl in Hs.
  rewrite !andb_false_r in Hs. simpl in Hs. rewrite ?andb_false_r in Hs.
  discriminate.
Qed.

(** X7. The button step of the Manifest V3 worker never finds a
    reference, whatever the page: the handler text it takes from a button
    tag stops before the first quote, and the location pattern it then
    applies to that text needs a quote to match. *)
Theorem mv3_button_step_finds_nothing (html : jsstring) :
  Mv3.button_ref html = None.
Proof.
  unfold Mv3.button_ref. apply first_match_none. intros bm Hbm.
  destruct (group1 bm) as [onclick|] eqn:Hg; [|reflexivity].
  rewrite location_needs_quote; [reflexivity|].
  unfold matchAll in Hbm. apply matches_from_sound in Hbm.
  destruct Hbm as (sn' & rs' & E).
  destruct (exec_from_group _ _ _ E Hg) as (body & Hin & Hl).
  simpl in Hin. destruct Hin as [<-|[]].
  apply lang_rep_chr in Hl. apply Hl.
Qed.

End ScanFacts.

(* ================================================================== *)
(** * [cleanDOI]: what it cuts *)
(* ================================================================== *)

Module CleanFacts.

Import RegexFacts Content UrlFacts.

Lemma dropWhile_app (p : char -> bool) : forall a b,
  dropWhile p (a ++ b) =
  if forallb p a then dropWhile p b else dropWhile p a ++ b.
Proof.
  induction a as [|c a IH]; intros b; simpl; [reflexivity|].
  destruct (p c); simpl; [apply IH|reflexivity].
Qed.

Lemma dropWhileEnd_cons (p : char -> bool) c tl :
  dropWhileEnd p (c :: tl) =
  if forallb p (c :: tl) then [] else c :: dropWhileEnd p tl.
Proof.
  unfold dropWhileEnd. simpl rev. rewrite dropWhile_app, forallb_rev.
  simpl. destruct (forallb p tl) eqn:Htl.
  - assert (H : dropWhile p (rev tl) = []).
    { rewrite <- forallb_rev in Htl. revert Htl.
      induction (rev tl) as [|x l IH]; simpl; [reflexivity|].
      destruct (p x); simpl; [exact IH|discriminate]. }
    rewrite H, andb_true_r. destruct (p c); reflexivity.
  - rewrite andb_false_r, rev_app_distr. reflexivity.
Qed.

Lemma dropWhile_head (p : char -> bool) : forall s c t,
  dropWhile p s = c :: t -> p c = false.
Proof.
  induction s as [|x s IH]; intros c t H; simpl in H; [discriminate|].
  destruct (p x) eqn:Hx; [eauto|]. inversion H; subst. exact Hx.
Qed.

Lemma dropWhile_idem (p : char -> bool) s :
  dropWhile p (dropWhile p s) = dropWhile p s.
Proof.
  destruct (dropWhile p s) as [|c t] eqn:E; [reflexivity|].
  simpl. rewrite (dropWhile_head _ _ E). reflexivity.
Qed.

Lemma dropWhileEnd_last (p : char -> bool) s d :
  p d = false -> p (last (dropWhileEnd p s) d) = false.
Proof.
  intros Hd. unfold dropWhileEnd.
  destruct (dropWhile p (rev s)) as [|c t] eqn:E; [exact Hd|].
  simpl. rewrite last_last. exact (dropWhile_head _ _ E).
Qed.

Section TrailingRun.

Variable p : char -> bool.

(** [[...]+$] for a class. *)
#[local] Abbreviation run_re := (Seq (plus (Chr p)) Eol).

(** The pattern matches at a position only if all that is left there is
    a run of the class, and not an empty one. *)
Lemma run_only sn rs cp k res :
  m run_re (MState sn rs cp) k = Some res -> forallb p rs = true /\ rs <> [].
Proof.
  intros H. apply m_sound in H. destruct H as (st' & Hm & _).
  simpl in Hm. destruct Hm as (mid & Hrun & Hend & _).
  assert (Hl : exists w, advances (MState sn rs cp) w mid
                         /\ lang (plus (Chr p)) w).
  { apply matches_lang. exact Hrun. }
  destruct Hl as (w & [_ Hr] & Hl). simpl in Hr.
  rewrite Hend, app_nil_r in Hr. subst w.
  apply lang_rep_chr in Hl. destruct Hl as [[Hlo _] Hp].
  split; [exact Hp|]. destruct rs; [simpl in Hlo; lia|discriminate].
Qed.

Lemma run_matches sn c rs :
  forallb p (c :: rs) = true ->
  exists st', m run_re (MState sn (c :: rs) None) Some = Some st'
              /\ rest st' = [].
Proof.
  intros H. exists (MState (rev (c :: rs) ++ sn) [] None). split; [|reflexivity].
  rewrite m_seq. rewrite <- (app_nil_r (c :: rs)) at 1. unfold plus.
  apply m_rep_chr_all; [exact H|exact I|simpl; lia|exact I|reflexivity].
Qed.

(** Where the search finds the pattern: at the start of the run that
    ends the text. *)
Lemma run_found : forall rs sn,
  match exec_from run_re sn rs with
  | Some res => before res = rev sn ++ dropWhileEnd p rs /\ after res = []
  | None => dropWhileEnd p rs = rs
  end.
Proof.
  induction rs as [|c tl IH]; intros sn.
  - simpl exec_from.
    destruct (m run_re (MState sn [] None) Some) as [st'|] eqn:E.
    + apply run_only in E. destruct E as [_ E]. congruence.
    + reflexivity.
  - rewrite dropWhileEnd_cons.
    destruct (forallb p (c :: tl)) eqn:Hall.
    + destruct (run_matches sn _ _ Hall) as (st' & E & Hr).
      rewrite (exec_from_here _ _ _ E). cbn [before after].
      rewrite app_nil_r. auto.
    + assert (E : m run_re (MState sn (c :: tl) None) Some = None).
      { destruct (m run_re (MState sn (c :: tl) None) Some) eqn:E; [|reflexivity].
        apply run_only in E. destruct E as [E _]. congruence. }
      rewrite (exec_from_next _ _ _ _ E).
      specialize (IH (c :: sn)).
      destruct (exec_from run_re (c :: sn) tl) as [res|].
      * destruct IH as [Hb Ha]. split; [|exact Ha].
        rewrite Hb. simpl. rewrite <- app_assoc. reflexivity.
      * rewrite IH. reflexivity.
Qed.

(** Replacing the first match by nothing cuts the run that ends the
    text. *)
Lemma run_cut s : replace run_re [] s = dropWhileEnd p s.
Proof.
  unfold replace, exec. pose proof (run_found s []) as H.
  destruct (exec_from run_re [] s) as [res|].
  - destruct H as [-> ->]. simpl. apply app_nil_r.
  - symmetry. exact H.
Qed.

End TrailingRun.

(** X8. [cleanDOI] removes the whole run of the units [.,;)]] that ends
    the text and nothing else; cleaning twice changes nothing more, and
    what is left never ends in one of these units. *)
Theorem cleanDOI_cuts_the_trailing_run (doi : jsstring) :
  cleanDOI doi = dropWhileEnd trailing_unit doi
  /\ cleanDOI (cleanDOI doi) = cleanDOI doi
  /\ trailing_unit (last (cleanDOI doi) 0%N) = false.
Proof.
  unfold cleanDOI, trailing_re. rewrite !run_cut. split; [reflexivity|]. split.
  - unfold dropWhileEnd. rewrite rev_involutive, dropWhile_idem. reflexivity.
  - apply dropWhileEnd_last. reflexivity.
Qed.

End CleanFacts.

(* ================================================================== *)
(** * The greedy loop and the word boundary that ends [DOI_REGEX] *)
(* ================================================================== *)

Module GreedyFacts.

Import RegexFacts Content ContentFacts IdentifierFacts CleanFacts.

(** If the rest of the pattern succeeds after some run of units of the
    class, the loop succeeds. *)
Lemma rep_chr_some p k : forall w fuel lo sn tl cp res,
  forallb p w = true -> lo <= length w -> lo + length (w ++ tl) < fuel ->
  k (MState (rev w ++ sn) tl cp) = Some res ->
  exists res',
    rep fuel (m (Chr p)) true lo None (MState sn (w ++ tl) cp) k = Some res'.
Proof.
  induction w as [|c w IH]; intros fuel lo sn tl cp res Hw Hlo Hf Hk.
  - simpl in *. destruct fuel as [|fuel]; [lia|]. destruct lo; [|lia].
    simpl.
    match goal with
    | |- exists _, match ?a with _ => _ end = _ => destruct a
    end; eauto.
  - simpl in Hw. apply andb_true_iff in Hw. destruct Hw as [Hc Hw].
    destruct fuel as [|fuel]; [lia|].
    simpl rev in Hk. rewrite <- app_assoc in Hk. simpl app in Hk.
    simpl length in *. destruct lo as [|lo]; simpl.
    + rewrite Hc.
      replace (length (w ++ tl) =? S (length (w ++ tl))) with false
        by (symmetry; apply Nat.eqb_neq; lia).
      destruct (IH fuel 0 (c :: sn) tl cp res) as (res' & E); auto; try lia.
      simpl in E. rewrite E. eauto.
    + rewrite Hc. apply IH with (res := res); auto; lia.
Qed.

(** The loop hands over after the longest run of units of the class
    after which the rest of the pattern succeeds. *)
Lemma rep_chr_greedy p k : forall fuel lo sn rs cp res,
  lo + length rs < fuel ->
  rep fuel (m (Chr p)) true lo None (MState sn rs cp) k = Some res ->
  exists w tl, rs = w ++ tl /\ forallb p w = true /\ lo <= length w
    /\ k (MState (rev w ++ sn) tl cp) = Some res
    /\ (forall u c tl', tl = u ++ c :: tl' -> forallb p (u ++ [c]) = true ->
          k (MState (rev (w ++ u ++ [c]) ++ sn) tl' cp) = None).
Proof.
  induction fuel as [|fuel IH]; intros lo sn rs cp res Hf H; [lia|].
  assert (Hstep : forall c tl0 lo' res0,
            p c = true -> lo' + length tl0 < fuel ->
            rep fuel (m (Chr p)) true lo' None (MState (c :: sn) tl0 cp) k
              = Some res0 ->
            exists w tl, c :: tl0 = w ++ tl /\ forallb p w = true
              /\ S lo' <= length w
              /\ k (MState (rev w ++ sn) tl cp) = Some res0
              /\ (forall u c' tl', tl = u ++ c' :: tl' ->
                    forallb p (u ++ [c']) = true ->
                    k (MState (rev (w ++ u ++ [c']) ++ sn) tl' cp) = None)).
  { intros c tl0 lo' res0 Hc Hf' E. apply IH in E; [|exact Hf'].
    destruct E as (w & tl & -> & Hw & Hlo & Hk & Hlong).
    exists (c :: w), tl. simpl. rewrite Hc, Hw, <- app_assoc. simpl.
    repeat split; auto; try lia.
    intros u c' tl' Htl Hu. specialize (Hlong u c' tl' Htl Hu).
    rewrite <- app_assoc. exact Hlong. }
  assert (Hstop : forall c tl0, p c = false ->
            forall u c' tl', c :: tl0 = u ++ c' :: tl' ->
              forallb p (u ++ [c']) = true -> False).
  { intros c tl0 Hc u c' tl' Htl Hu.
    destruct u as [|x u]; simpl in Htl, Hu; inversion Htl; subst;
      rewrite Hc in Hu; discriminate. }
  cbn [rep] in H. destruct lo as [|lo].
  - cbn [hi_is_zero pred_hi] in H.
    destruct rs as [|c tl0].
    + cbn [m rest] in H. exists [], []. repeat split; auto.
      intros u c tl' Htl. destruct u; discriminate.
    + cbn [m rest seen cap] in H. destruct (p c) eqn:Hc.
      * cbn [rest length] in H.
        replace (length tl0 =? S (length tl0)) with false in H
          by (symmetry; apply Nat.eqb_neq; lia).
        match type of H with
        | match ?a with _ => _ end = _ => destruct a as [res0|] eqn:E
        end;
          change (rep fuel (m (Chr p)) true 0 None (MState (c :: sn) tl0 cp) k
                  = Some res0) in E
          || change (rep fuel (m (Chr p)) true 0 None (MState (c :: sn) tl0 cp) k
                     = None) in E.
        -- inversion H; subst res0.
           destruct (Hstep c tl0 0 res Hc) as (w & tl & Hrs & Hw & _ & Hk & Hl);
             [simpl in Hf; lia|exact E|].
           exists w, tl. repeat split; auto. lia.
        -- exists [], (c :: tl0). repeat split; auto.
           intros u c' tl' Htl Hu. simpl app.
           destruct (k (MState (rev (u ++ [c']) ++ sn) tl' cp)) as [res1|] eqn:Ek;
             [|reflexivity].
           exfalso.
           assert (Hw : exists w', u ++ [c'] = c :: w' /\ tl0 = w' ++ tl').
           { destruct u as [|x u]; simpl in Htl; inversion Htl; subst.
             - exists []. auto.
             - exists (u ++ [c']). rewrite <- app_assoc. auto. }
           destruct Hw as (w' & Hw' & ->). rewrite Hw' in Hu, Ek.
           simpl in Hu. apply andb_true_iff in Hu. destruct Hu as [_ Hu].
           simpl rev in Ek. rewrite <- app_assoc in Ek. simpl app in Ek.
           destruct (@rep_chr_some p k w' fuel 0 (c :: sn) tl' cp res1 Hu)
             as (res' & E'); [lia|simpl in Hf; simpl; lia|exact Ek|].
           congruence.
      * exists [], (c :: tl0). repeat split; auto.
        intros u c' tl' Htl Hu. exfalso. exact (Hstop c tl0 Hc u c' tl' Htl Hu).
  - cbn [pred_hi] in H. destruct rs as [|c tl0]; cbn [m rest seen cap] in H;
      [discriminate|].
    destruct (p c) eqn:Hc; [|discriminate].
    apply (Hstep c tl0 lo res Hc); [simpl in Hf; lia|exact H].
Qed.

Lemma m_rep_chr_greedy p k lo sn rs cp res :
  m (Rep true lo None (Chr p)) (MState sn rs cp) k = Some res ->
  exists w tl, rs = w ++ tl /\ forallb p w = true /\ lo <= length w
    /\ k (MState (rev w ++ sn) tl cp) = Some res
    /\ (forall u c tl', tl = u ++ c :: tl' -> forallb p (u ++ [c]) = true ->
          k (MState (rev (w ++ u ++ [c]) ++ sn) tl' cp) = None).
Proof.
  intros H.
  change (m (Rep true lo None (Chr p)) (MState sn rs cp) k)
    with (rep (lo + length rs + 1) (m (Chr p)) true lo None (MState sn rs cp) k)
    in H.
  apply rep_chr_greedy in H; [exact H|lia].
Qed.

Lemma span_stop p : forall s a b,
  span p s = (a, b) -> match b with [] => True | c :: _ => p c = false end.
Proof.
  induction s as [|c s IH]; intros a b H; simpl in H.
  - inversion H; subst. exact I.
  - destruct (p c) eqn:Hc.
    + destruct (span p s) as [a' b'] eqn:E. inversion H; subst.
      exact (IH _ _ eq_refl).
    + inversion H; subst. exact Hc.
Qed.

(** A run in which no position is a word boundary, before a unit that is
    not of a word, holds no unit of a word. *)
Lemma no_boundary_run : forall u tl',
  (forall pre c post, u = pre ++ c :: post ->
     xorb (is_word c)
          (match post ++ tl' with x :: _ => is_word x | [] => false end)
     = false) ->
  match tl' with x :: _ => is_word x | [] => false end = false ->
  forallb (fun c => negb (is_word c)) u = true.
Proof.
  induction u as [|c u IH]; intros tl' Hall Hend; [reflexivity|].
  assert (Hu : forallb (fun c => negb (is_word c)) u = true).
  { apply IH with (tl' := tl'); [|exact Hend].
    intros pre c' post ->. apply (Hall (c :: pre) c' post). reflexivity. }
  specialize (Hall [] c u eq_refl). simpl.
  rewrite Hu, andb_true_r.
  assert (Hnext : match u ++ tl' with x :: _ => is_word x | [] => false end = false).
  { destruct u as [|x u]; [exact Hend|].
    simpl in Hu. apply andb_true_iff in Hu. destruct Hu as [Hx _].
    apply negb_true_iff in Hx. exact Hx. }
  rewrite Hnext in Hall. destruct (is_word c); [discriminate|reflexivity].
Qed.

Lemma word_not_trailing c : is_word c = true -> trailing_unit c = false.
Proof.
  intros H. destruct (trailing_unit c) eqn:E; [|reflexivity].
  unfold trailing_unit in E. simpl in E.
  repeat (apply orb_true_iff in E; destruct E as [E|E]);
    try discriminate; apply N.eqb_eq in E; subst c; discriminate.
Qed.

Lemma dropWhileEnd_same (p : char -> bool) s :
  p (last s 0%N) = false -> s <> [] -> dropWhileEnd p s = s.
Proof.
  intros Hl Hs. destruct (exists_last Hs) as (s' & c & ->).
  rewrite last_last in Hl. unfold dropWhileEnd.
  rewrite rev_app_distr. simpl. rewrite Hl. simpl.
  rewrite rev_involutive. reflexivity.
Qed.

(** Where the pattern matches, the text it captures ends in a unit of a
    word. *)
Lemma DOI_REGEX_ends_in_word sn rs st' :
  m DOI_REGEX (MState sn rs None) Some = Some st' ->
  exists d, cap st' = Some d /\ d <> [] /\ is_word (last d 0%N) = true.
Proof.
  intros H. unfold DOI_REGEX, doi_body in H. cbn [seqs] in H.
  rewrite m_seq, m_wordb in H.
  destruct (xorb _ _) in H; [|discriminate].
  set (st := MState sn rs None) in *.
  rewrite m_seq, m_grp, m_seq in H.
  apply m_sound in H. destruct H as (s1 & M1 & H). cbv beta in H.
  rewrite m_seq in H.
  apply m_sound in H. destruct H as (s2 & M2 & H). cbv beta in H.
  rewrite m_seq in H.
  apply m_sound in H. destruct H as (s3 & M3 & H). cbv beta in H.
  destruct (matches_lang _ _ _ M1) as (x1 & A1 & _).
  destruct (matches_lang _ _ _ M2) as (x2 & A2 & _).
  destruct (matches_lang _ _ _ M3) as (x3 & A3 & _).
  pose proof (advances_trans (advances_trans A1 A2) A3) as A.
  clear M1 M2 M3 A1 A2 A3.
  set (pre := (x1 ++ x2) ++ x3) in *. clearbody pre. clear x1 x2 x3 s1 s2.
  destruct s3 as [sn3 rs3 cp3]. unfold plus in H.
  apply m_rep_chr_greedy in H.
  destruct H as (w & tl & -> & Hw & Hlo & Hk & Hlong).
  assert (Hne : w <> []) by (destruct w; [simpl in Hlo; lia|discriminate]).
  destruct A as [As Ar]. cbn [seen rest] in As, Ar.
  assert (Acap : forall x tl2,
            consumed st (MState (rev (w ++ x) ++ sn3) tl2 cp3) = pre ++ w ++ x).
  { intros x tl2. unfold consumed. cbn [seen]. rewrite As.
    unfold st. cbn [seen].
    rewrite !length_app, !length_rev, !length_app.
    replace (length w + length x + (length pre + length sn) - length sn)
      with (length (rev (w ++ x) ++ rev pre))
      by (rewrite !length_app, !length_rev, !length_app; lia).
    rewrite app_assoc, firstn_app, firstn_all, Nat.sub_diag. simpl.
    rewrite app_nil_r, rev_app_distr, !rev_involutive. reflexivity. }
  cbn [seen rest] in Hk. rewrite m_wordb in Hk.
  destruct (xorb _ _) eqn:Hb in Hk; [|discriminate].
  inversion Hk; subst st'; clear Hk. cbn [cap].
  pose proof (Acap [] tl) as Hd. rewrite !app_nil_r in Hd. rewrite Hd.
  exists (pre ++ w). split; [reflexivity|].
  split; [destruct pre; destruct w; try discriminate; congruence|].
  rewrite (last_skip _ Hne).
  unfold prev_is_word, next_is_word in Hb. cbn [seen rest] in Hb.
  destruct (@last_rev_head w sn3 Hne) as (sn4 & Hhead). rewrite Hhead in Hb.
  destruct (is_word (last w 0%N)) eqn:Hlast; [reflexivity|]. exfalso.
  simpl in Hb.
  destruct tl as [|c0 tl0]; [discriminate|].
  destruct (span doi_unit (c0 :: tl0)) as [u tl'] eqn:Hspan.
  pose proof (span_stop _ _ Hspan) as Hstop.
  apply span_spec in Hspan. destruct Hspan as [Htl Hu].
  assert (Hun : forallb (fun c => negb (is_word c)) u = true).
  { apply no_boundary_run with (tl' := tl').
    - intros pre' c post ->.
      assert (Hpc : forallb doi_unit (pre' ++ [c]) = true).
      { rewrite forallb_app in Hu. rewrite forallb_app.
        apply andb_true_iff in Hu. destruct Hu as [H1 H2].
        simpl in H2. apply andb_true_iff in H2. destruct H2 as [H2 _].
        rewrite H1. simpl. rewrite H2. reflexivity. }
      assert (Hsplit : c0 :: tl0 = pre' ++ c :: post ++ tl').
      { rewrite Htl, <- app_assoc. reflexivity. }
      specialize (Hlong pre' c (post ++ tl') Hsplit Hpc).
      cbn [seen rest] in Hlong. rewrite m_wordb in Hlong.
      unfold prev_is_word, next_is_word in Hlong. cbn [seen rest] in Hlong.
      rewrite !app_assoc, rev_app_distr in Hlong. simpl in Hlong.
      destruct (xorb (is_word c) _) eqn:Hx in Hlong; [discriminate|].
      exact Hx.
    - destruct tl' as [|x tl']; [reflexivity|].
      apply word_is_doi_unit. exact Hstop. }
  destruct u as [|x u].
  - simpl in Htl. subst tl'. apply word_is_doi_unit in Hstop. congruence.
  - simpl in Htl. inversion Htl; subst x. simpl in Hun.
    rewrite Hb in Hun. discriminate.
Qed.

Lemma exec_from_at r : forall rs sn res,
  exec_from r sn rs = Some res ->
  exists sn' rs' st', m r (MState sn' rs' None) Some = Some st'
                      /\ group1 res = cap st'.
Proof.
  induction rs as [|c tl IH]; intros sn res H; simpl in H.
  - destruct (m r (MState sn [] None) Some) as [st'|] eqn:E; [|discriminate].
    inversion H; subst. eauto.
  - destruct (m r (MState sn (c :: tl) None) Some) as [st'|] eqn:E.
    + inversion H; subst. eauto.
    + eauto.
Qed.

(** X9. Whatever [DOI_REGEX] captures has the DOI syntax and ends in a
    letter, a digit or an underscore: the greedy token is given back unit
    by unit until the closing word boundary holds.  [cleanDOI] therefore
    changes nothing in what the meta tags, the JSON-LD blocks and the
    visible text yield. *)
Theorem DOI_REGEX_capture_needs_no_cleaning (s d : jsstring) :
  match1 DOI_REGEX s = Some d ->
  doi_syntax d = true /\ is_word (last d 0%N) = true /\ cleanDOI d = d.
Proof.
  intros H. split; [exact (DOI_REGEX_sound _ H)|]. revert H.
  unfold match1, exec. intros H.
  destruct (exec_from DOI_REGEX [] s) as [res|] eqn:E; [|discriminate].
  apply exec_from_at in E. destruct E as (sn' & rs' & st' & Hm & Hg).
  apply DOI_REGEX_ends_in_word in Hm. destruct Hm as (d' & Hc & Hne & Hw).
  assert (d' = d) by congruence. subst d'. split; [exact Hw|].
  unfold cleanDOI, trailing_re. rewrite run_cut.
  apply dropWhileEnd_same; [|exact Hne]. apply word_not_trailing. exact Hw.
Qed.

Lemma DOI_REGEX_capture_needs_no_cleaning_witness :
  doi_syntax (str "10.1038/nature12373") = true
  /\ is_word (last (str "10.1038/nature12373") 0%N) = true
  /\ cleanDOI (str "10.1038/nature12373") = str "10.1038/nature12373".
Proof.
  apply (@DOI_REGEX_capture_needs_no_cleaning
           (str "see doi:10.1038/nature12373).") (str "10.1038/nature12373")).
  reflexivity.
Defined.

End GreedyFacts.

(* ================================================================== *)
(** * What the two scans hand to the download *)
(* ================================================================== *)

Module AddressFacts.

Import RegexFacts Content ContentFacts IdentifierFacts UrlFacts.

Lemma startsWith_longer : forall p s t,
  startsWith s p = true -> startsWith (s ++ t) p = true.
Proof.
  induction p as [|x p IH]; intros s t H; [reflexivity|].
  destruct s as [|y s]; simpl in H; [discriminate|].
  apply andb_true_iff in H. destruct H as [Hxy H].
  simpl. rewrite Hxy. simpl. apply IH. exact H.
Qed.

(** The four cases of the resolution all give an address that opens as
    the mirror's own does. *)
Lemma resolved_opens_with_http mirror url u :
  startsWith mirror (str "http") = true ->
  (if startsWith url (str "//") then Some (str "https:" ++ url)
   else if startsWith url (str "/") then Some (mirror ++ url)
   else if startsWith url (str "http") then Some url
   else Some (mirror ++ str "/" ++ url)) = Some u ->
  startsWith u (str "http") = true.
Proof.
  intros Hm H.
  destruct (startsWith url (str "//")).
  { inversion H; subst. reflexivity. }
  destruct (startsWith url (str "/")).
  { inversion H; subst. apply startsWith_longer. exact Hm. }
  destruct (startsWith url (str "http")) eqn:E.
  { inversion H; subst. exact E. }
  inversion H; subst. apply startsWith_longer. exact Hm.
Qed.

Lemma mv3_normalizeUrl_opens_with_http mirror ref u :
  startsWith mirror (str "http") = true ->
  Mv3.normalizeUrl ref mirror = Some u -> startsWith u (str "http") = true.
Proof.
  intros Hm H. unfold Mv3.normalizeUrl in H.
  destruct ref as [|c ref]; [discriminate|].
  exact (resolved_opens_with_http _ _ Hm H).
Qed.

Lemma blob_normalizeUrl_opens_with_http mirror ref u :
  startsWith mirror (str "http") = true ->
  Blob.normalizeUrl ref mirror = Some u -> startsWith u (str "http") = true.
Proof.
  intros Hm H. unfold Blob.normalizeUrl in H.
  destruct ref as [[|c ref]|]; try discriminate.
  exact (resolved_opens_with_http _ _ Hm H).
Qed.

(** What the pattern for addresses in inline scripts captures opens with
    the scheme. *)
Lemma pdfUrl_opens_with_http txt u :
  match1 Mv3.pdfUrl_re txt = Some u -> startsWith u (str "http") = true.
Proof.
  intros H. apply match1_sound in H. destruct H as (body & Hin & Hl).
  simpl in Hin. destruct Hin as [<-|[]].
  cbn [seqs lang] in Hl. destruct Hl as (w1 & w2 & -> & Hw1 & _).
  apply (@lang_lit (str "http") w1) in Hw1. subst w1. reflexivity.
Qed.

Lemma button_pick_opens_with_http mirror otherwise u : forall buttons,
  startsWith mirror (str "http") = true ->
  (otherwise = Some u -> startsWith u (str "http") = true) ->
  Blob.button_pick buttons mirror otherwise = Some u ->
  startsWith u (str "http") = true.
Proof.
  induction buttons as [|btn more IH]; intros Hm Ho H;
    cbn [Blob.button_pick] in H; [auto|].
  destruct (match1 Blob.location_re _) in H; [|auto].
  exact (blob_normalizeUrl_opens_with_http _ _ Hm H).
Qed.

(** X10. Every address either scan returns for a mirror opens with
    [http], as the mirror's own address does.  It is therefore never
    empty, and the download is always tried with it. *)
Theorem scans_return_addresses_that_open_with_http
    (mirror html : jsstring) (d : document) :
  startsWith mirror (str "http") = true ->
  (forall u, Mv3.scan html mirror = Some u ->
     startsWith u (str "http") = true /\ truthy (Some u) = true)
  /\ (forall u, Blob.pick d mirror = Some u ->
     startsWith u (str "http") = true /\ truthy (Some u) = true).
Proof.
  intros Hm.
  assert (Htruthy : forall u, startsWith u (str "http") = true ->
            startsWith u (str "http") = true /\ truthy (Some u) = true).
  { intros u Hu. split; [exact Hu|]. destruct u; [discriminate|reflexivity]. }
  split; intros u H; apply Htruthy.
  - apply scan_normalizes in H. destruct H as [(ref & _ & H)|H].
    + exact (mv3_normalizeUrl_opens_with_http _ _ Hm H).
    + unfold Mv3.script_url in H. apply first_match_some in H.
      destruct H as (sm & _ & H).
      destruct (group1 sm) as [txt|]; [|discriminate].
      exact (pdfUrl_opens_with_http _ H).
  - unfold Blob.pick in H.
    destruct (querySelector d [[Tag "iframe"; Has "src"]]);
      [exact (blob_normalizeUrl_opens_with_http _ _ Hm H)|].
    destruct (querySelector d [[Tag "embed"; Eq "type" "application/pdf"; Has "src"]]);
      [exact (blob_normalizeUrl_opens_with_http _ _ Hm H)|].
    destruct (querySelector d [[Tag "embed"; Has "src"]]);
      [exact (blob_normalizeUrl_opens_with_http _ _ Hm H)|].
    assert (Hrest : forall v,
      Blob.button_pick (querySelectorAll d [[Tag "button"; Has "onclick"]]) mirror
        (first_match (fun script => match1 Blob.pdfUrl_re (textContent script))
           (querySelectorAll d [[Tag "script"]])) = Some v ->
      startsWith v (str "http") = true).
    { intros v Hv. revert Hv. apply button_pick_opens_with_http; [exact Hm|].
      intros Hs. apply first_match_some in Hs. destruct Hs as (sc & _ & Hs).
      exact (pdfUrl_opens_with_http _ Hs). }
    unfold Blob.object_pick in H.
    destruct (querySelector d [[Tag "object"; Has "data"]]); [|auto].
    destruct (_ || _) in H; [|auto].
    exact (blob_normalizeUrl_opens_with_http _ _ Hm H).
Qed.

Lemma scans_return_addresses_that_open_with_http_witness :
  startsWith (str "https://cdn.example/a.pdf#page=2&amp;zoom=1") (str "http") = true
  /\ truthy (Some (str "https://cdn.example/a.pdf#page=2&amp;zoom=1")) = true.
Proof.
  apply (proj1 (@scans_return_addresses_that_open_with_http (str "https://sci-hub.vg")
                  script_page (document_of []) eq_refl)).
  reflexivity.
Defined.

End AddressFacts.

(* ================================================================== *)
(** * File names that coincide *)
(* ================================================================== *)

Module CollisionFacts.

Import ReplaceFacts FilenameFacts.

(** X11. The file name forgets what the derivation removes, so distinct
    identifiers can share one: a slash and an underscore give the same
    name, and a unit that is dropped might as well not be there.  The
    name is never longer than the identifier and its extension. *)
Theorem distinct_identifiers_share_a_file_name (a b : jsstring) (c : char) :
  allowed (underscore c) = false ->
  filename_of (a ++ c :: b) = filename_of (a ++ b)
  /\ filename_of (a ++ ch "/" :: b) = filename_of (a ++ ch "_" :: b)
  /\ length (filename_of (a ++ c :: b)) <= length (a ++ b) + 4.
Proof.
  intros Hc. unfold filename_of. rewrite !safe_name_plain.
  rewrite !map_app, !filter_app. cbn [map filter]. rewrite Hc.
  split; [reflexivity|]. split; [reflexivity|].
  rewrite <- filter_app, <- map_app, length_app.
  pose proof (filter_length_le allowed (map underscore (a ++ b))) as Hle.
  rewrite length_map in Hle. simpl. lia.
Qed.

Lemma distinct_identifiers_share_a_file_name_witness :
  filename_of (str "10.1000/a(b") = filename_of (str "10.1000/ab")
  /\ filename_of (str "10.1000/ab") = filename_of (str "10.1000_ab")
  /\ length (filename_of (str "10.1000/a(b")) <= 14.
Proof.
  destruct (@distinct_identifiers_share_a_file_name
              (str "10.1000/a") (str "b") (ch "(") eq_refl) as (H1 & _ & H3).
  split; [exact H1|]. split; [|exact H3].
  exact (proj1 (proj2 (@distinct_identifiers_share_a_file_name
                         (str "10.1000") (str "ab") (ch "(") eq_refl))).
Defined.

End CollisionFacts.

(* ================================================================== *)
(** * [normalizeUrl]: the two workers side by side, and two edges *)
(* ================================================================== *)

Module NormalizeFacts.

Import RegexFacts Content IdentifierFacts UrlFacts.

Lemma decode_ampersands_none : forall n s,
  length s <= n ->
  forallb (fun c => negb (N.eqb (ch "&") c)) s = true ->
  decode_ampersands s = s.
Proof.
  induction n as [|n IH]; intros s Hn H.
  - destruct s; [reflexivity|simpl in Hn; lia].
  - destruct s as [|c tl]; [reflexivity|].
    cbn [forallb] in H. apply andb_true_iff in H. destruct H as [Hc Htl].
    rewrite decode_ampersands_next.
    + rewrite IH; [reflexivity|simpl in Hn; lia|exact Htl].
    + apply negb_true_iff in Hc.
      change (startsWith (c :: tl) (str "&amp;"))
        with (N.eqb (ch "&") c && startsWith tl (str "amp;")).
      rewrite Hc. reflexivity.
Qed.

Lemma dropWhile_all (p : char -> bool) : forall s,
  forallb p s = true -> dropWhile p s = [].
Proof.
  induction s as [|c s IH]; intros H; [reflexivity|].
  simpl in H. apply andb_true_iff in H. destruct H as [Hc Hs].
  simpl. rewrite Hc. auto.
Qed.

(** The pattern for the fragment matches nowhere before a line
    terminator. *)
Lemma fragment_not_before_break sn rs cp k :
  no_line_terminator rs = false ->
  m Mv3.fragment_re (MState sn rs cp) k = None.
Proof.
  intros Hlt.
  destruct (m Mv3.fragment_re (MState sn rs cp) k) as [res|] eqn:E;
    [|reflexivity].
  exfalso. apply m_sound in E. destruct E as (st' & Hm & _).
  unfold Mv3.fragment_re in Hm. cbn [seqs] in Hm.
  destruct Hm as (mid1 & M1 & mid2 & M2 & Hend & _).
  destruct (matches_lang _ _ _ M1) as (w1 & [_ A1] & L1).
  destruct (matches_lang _ _ _ M2) as (w2 & [_ A2] & L2).
  cbn [rest] in A1. rewrite A1, A2, Hend, app_nil_r in Hlt.
  apply lang_rep_chr in L2. destruct L2 as [_ L2].
  destruct L1 as (c & -> & Hc). apply N.eqb_eq in Hc. subst c.
  unfold no_line_terminator in Hlt. rewrite forallb_app, L2 in Hlt.
  discriminate.
Qed.

Lemma exec_from_skip r : forall A sn B,
  (forall A1 c A2, A = A1 ++ c :: A2 ->
     m r (MState (rev A1 ++ sn) (c :: A2 ++ B) None) Some = None) ->
  exec_from r sn (A ++ B) = exec_from r (rev A ++ sn) B.
Proof.
  induction A as [|c A IH]; intros sn B H; [reflexivity|].
  simpl app. rewrite exec_from_next by (apply (H [] c A); reflexivity).
  rewrite IH.
  - simpl rev. rewrite <- app_assoc. reflexivity.
  - intros A1 c' A2 ->. specialize (H (c :: A1) c' A2 eq_refl).
    simpl rev in H. rewrite <- app_assoc in H. exact H.
Qed.

(** X12. Where the reference holds no ampersand, the two workers
    normalize it alike: decoding [&amp;] is all that the Manifest V3
    worker adds. *)
Theorem workers_normalize_alike_without_ampersand (url mirror : jsstring) :
  forallb (fun c => negb (N.eqb (ch "&") c)) url = true ->
  Mv3.normalizeUrl url mirror = Blob.normalizeUrl (Some url) mirror.
Proof.
  intros H. destruct url as [|c url]; [reflexivity|].
  unfold Mv3.normalizeUrl, Blob.normalizeUrl.
  change Blob.fragment_re with Mv3.fragment_re.
  rewrite decode_amp_replaced.
  assert (Hd : decode_ampersands (trim (c :: url)) = trim (c :: url)).
  { apply decode_ampersands_none with (n := length (trim (c :: url)));
      [apply Nat.le_refl|]. apply trim_keeps. exact H. }
  rewrite Hd. reflexivity.
Qed.

Lemma workers_normalize_alike_without_ampersand_witness :
  Mv3.normalizeUrl (str " /downloads/a.pdf#view=FitH ") (str "https://sci-hub.ru")
  = Blob.normalizeUrl (Some (str " /downloads/a.pdf#view=FitH "))
      (str "https://sci-hub.ru").
Proof.
  apply (@workers_normalize_alike_without_ampersand
           (str " /downloads/a.pdf#view=FitH ") (str "https://sci-hub.ru")).
  reflexivity.
Defined.

(** X13. A reference that is not empty but holds white space only is
    not refused: both workers resolve it to the mirror's root. *)
Theorem blank_reference_resolves_to_mirror_root (url mirror : jsstring) :
  url <> [] -> forallb is_space url = true ->
  Mv3.normalizeUrl url mirror = Some (mirror ++ str "/")
  /\ Blob.normalizeUrl (Some url) mirror = Some (mirror ++ str "/").
Proof.
  intros Hne Hsp.
  assert (Ht : trim url = []).
  { unfold trim. rewrite (dropWhile_all _ _ Hsp). reflexivity. }
  destruct url as [|c url]; [congruence|].
  unfold Mv3.normalizeUrl, Blob.normalizeUrl. rewrite Ht. split; reflexivity.
Qed.

Lemma blank_reference_resolves_to_mirror_root_witness :
  Mv3.normalizeUrl (str "  ") (str "https://sci-hub.al")
  = Some (str "https://sci-hub.al/")
  /\ Blob.normalizeUrl (Some (str "  ")) (str "https://sci-hub.al")
     = Some (str "https://sci-hub.al/").
Proof.
  apply (@blank_reference_resolves_to_mirror_root (str "  ")
           (str "https://sci-hub.al")); [discriminate|reflexivity].
Defined.

(** X14. The fragment is cut in the last line only: what stands before
    a line terminator is kept as it is, a [#] included, and in what
    follows the last one everything from the first [#] on goes. *)
Theorem fragment_is_cut_in_the_last_line_only (pre post : jsstring) (lt : char) :
  is_line_terminator lt = true -> no_line_terminator post = true ->
  replace Mv3.fragment_re [] (pre ++ lt :: post)
  = pre ++ lt :: strip_fragment post
  /\ replace Blob.fragment_re [] (pre ++ lt :: post)
     = pre ++ lt :: strip_fragment post.
Proof.
  intros Hlt Hpost.
  change Blob.fragment_re with Mv3.fragment_re.
  assert (H : replace Mv3.fragment_re [] (pre ++ lt :: post)
              = pre ++ lt :: strip_fragment post); [|split; exact H].
  unfold replace, exec.
  replace (pre ++ lt :: post) with ((pre ++ [lt]) ++ post) at 1
    by (rewrite <- app_assoc; reflexivity).
  rewrite exec_from_skip.
  - rewrite (@fragment_found post _ Hpost). unfold strip_fragment.
    destruct (span not_hash post) as [a [|h t]] eqn:E.
    + apply span_spec in E. destruct E as [-> _]. cbn [fst].
      rewrite app_nil_r. reflexivity.
    + cbn [before after fst app]. rewrite !app_nil_r, rev_involutive.
      rewrite <- app_assoc. reflexivity.
  - intros A1 c A2 HA. apply fragment_not_before_break.
    assert (Hin : In lt (c :: A2 ++ post)).
    { assert (Hl : In lt (A1 ++ c :: A2)) by (rewrite <- HA; apply in_or_app; simpl; auto).
      apply in_app_or in Hl. destruct Hl as [Hl|Hl].
      - (* lt within A1 as well as at the end *)
        assert (Hlast : In lt (c :: A2)).
        { destruct (exists_last (l := c :: A2)) as (l' & x & Hx); [discriminate|].
          assert (x = lt).
          { rewrite Hx, app_assoc in HA.
            apply app_inj_tail in HA. destruct HA as [_ HA]. auto. }
          subst x. rewrite Hx. apply in_or_app. simpl. auto. }
        simpl in Hlast. simpl. destruct Hlast; auto. right. apply in_or_app. auto.
      - simpl in Hl. simpl. destruct Hl; auto. right. apply in_or_app. auto. }
    destruct (no_line_terminator (c :: A2 ++ post)) eqn:E; [|reflexivity].
    unfold no_line_terminator in E.
    rewrite forallb_forall in E. specialize (E lt Hin).
    rewrite Hlt in E. discriminate.
Qed.

Lemma fragment_is_cut_in_the_last_line_only_witness :
  replace Mv3.fragment_re [] (str "a.pdf#p" ++ 10%N :: str "b#q")
  = str "a.pdf#p" ++ 10%N :: str "b"
  /\ replace Blob.fragment_re [] (str "a.pdf#p" ++ 10%N :: str "b#q")
     = str "a.pdf#p" ++ 10%N :: str "b".
Proof.
  apply (@fragment_is_cut_in_the_last_line_only (str "a.pdf#p") (str "b#q") 10%N);
    reflexivity.
Defined.

End NormalizeFacts.

(* ================================================================== *)
(** * From the click to the status line *)
(* ================================================================== *)

Module ClickFacts.

Import Content LoopFacts.

Section Click.

Variable World : Type.
Variable findPDFUrl : jsstring -> jsstring -> Run World (option jsstring).
Variable downloadFromUrl : jsstring -> jsstring -> Run World N.

(** The error a resolution reports is never the empty text. *)
Lemma mirror_loop_failure_nonempty doi : forall mirrors lastError s e s',
  mirror_loop findPDFUrl downloadFromUrl mirrors doi lastError s
    = (Ok (Failure e), s') -> e <> [].
Proof.
  induction mirrors as [|mirror more IH]; intros lastError s e s' H.
  - simpl in H. unfold ret in H. inversion H.
    destruct lastError as [[|c l]|]; discriminate.
  - destruct (attempt_returns findPDFUrl downloadFromUrl mirror doi s)
      as ([|e0] & s1 & Ha).
    + rewrite (@mirror_loop_return _ _ _ mirror more doi lastError s s1 Ha) in H.
      discriminate.
    + rewrite (@mirror_loop_continue _ _ _ mirror more doi lastError s e0 s1 Ha) in H.
      exact (IH _ _ _ _ H).
Qed.

(** X15. Whenever the callback of the click runs, with
    [chrome.runtime.lastError] set or not, without a response or with
    the one a worker's listener has sent, it takes the loading mark off
    and leaves a status line that is displayed and not empty; the line
    is in the plain colour only after a success without [lastError].  The
    error text a worker sends is in particular never empty. *)
Theorem callback_leaves_a_visible_status
    (request : message) (s : state World) (lastError : bool)
    (response : option outcome) :
  response = None
  \/ (exists s', Worker.onMessage findPDFUrl downloadFromUrl request s
                 = (Ok response, s')) ->
  let shown := Panel.respond lastError response in
  Panel.loading shown = false
  /\ Panel.display (Panel.line shown) = str "block"
  /\ Panel.textContent (Panel.line shown) <> []
  /\ (Panel.color (Panel.line shown) = str "#a0a0a0"
      <-> lastError = false /\ response = Some Success).
Proof.
  intros Hresponse.
  assert (Hout : forall e, response = Some (Failure e) -> e <> []).
  { intros e ->. destruct Hresponse as [H|(s' & H)]; [discriminate|].
    unfold Worker.onMessage in H.
    destruct (JS.eqb _ _ && truthy _); [|discriminate].
    unfold try_catch, bind, Worker.handleDownload, ret in H.
    destruct (mirror_loop_returns findPDFUrl downloadFromUrl SCIHUB_MIRRORS
                (or_else (doi request) []) None s) as (out & s1 & Hrun).
    rewrite Hrun in H. inversion H; subst out.
    exact (mirror_loop_failure_nonempty _ _ _ _ Hrun). }
  unfold Panel.respond. destruct lastError.
  { cbn. repeat split; try discriminate. intros [H _]. discriminate. }
  destruct response as [[|e]|].
  - cbn. repeat split; discriminate.
  - specialize (Hout e eq_refl). destruct e as [|c e]; [congruence|].
    cbn. repeat split; try discriminate. intros [_ H]. discriminate.
  - cbn. repeat split; try discriminate. intros [_ H]. discriminate.
Qed.

End Click.

Lemma callback_leaves_a_visible_status_witness :
  let shown := Panel.respond false (Some (Failure (str "Failed to fetch"))) in
  Panel.loading shown = false
  /\ Panel.display (Panel.line shown) = str "block"
  /\ Panel.textContent (Panel.line shown) <> []
  /\ (Panel.color (Panel.line shown) = str "#a0a0a0"
      <-> false = false /\ Some (Failure (str "Failed to fetch")) = Some Success).
Proof.
  apply (@callback_leaves_a_visible_status unit
           (Blob.findPDFUrl offline empty_page)
           (Blob.downloadFromUrl offline accepting)
           (Message (str "downloadPDF") (Some nature_doi)) start false
           (Some (Failure (str "Failed to fetch")))).
  right.
  exists (snd (Blob.onMessage offline accepting empty_page
                 (Message (str "downloadPDF") (Some nature_doi)) start)).
  reflexivity.
Defined.

End ClickFacts.

(* ================================================================== *)
(** * [DOI_REGEX]: punctuation after the identifier *)
(* ================================================================== *)

Module BoundaryFacts.

Import RegexFacts Content ContentFacts IdentifierFacts GreedyFacts.

Lemma m_rep_chr_some p k w lo sn tl cp res :
  forallb p w = true -> lo <= length w ->
  k (MState (rev w ++ sn) tl cp) = Some res ->
  exists res',
    m (Rep true lo None (Chr p)) (MState sn (w ++ tl) cp) k = Some res'.
Proof.
  intros Hw Hlo Hk.
  change (m (Rep true lo None (Chr p)) (MState sn (w ++ tl) cp) k)
    with (rep (lo + length (w ++ tl) + 1) (m (Chr p)) true lo None
            (MState sn (w ++ tl) cp) k).
  apply rep_chr_some with (res := res); auto. lia.
Qed.

(** The loop stops after a run when the rest of the pattern succeeds
    there and fails after every longer run. *)
Lemma m_rep_chr_longest p k w lo sn tl cp res :
  forallb p w = true -> lo <= length w ->
  k (MState (rev w ++ sn) tl cp) = Some res ->
  (forall u c tl', tl = u ++ c :: tl' -> forallb p (u ++ [c]) = true ->
     k (MState (rev (w ++ u ++ [c]) ++ sn) tl' cp) = None) ->
  m (Rep true lo None (Chr p)) (MState sn (w ++ tl) cp) k = Some res.
Proof.
  intros Hw Hlo Hk Hlong.
  destruct (@m_rep_chr_some p k w lo sn tl cp res Hw Hlo Hk) as (res' & E).
  rewrite E. f_equal.
  apply m_rep_chr_greedy in E.
  destruct E as (w' & tl' & Heq & Hw' & _ & Hk' & Hlong').
  apply app_eq_app in Heq. destruct Heq as (l & [[-> ->]|[-> ->]]).
  - (* the loop stopped earlier *)
    destruct l as [|x l];
      [rewrite app_nil_r in Hk; cbn [app] in Hk'; congruence|].
    destruct (exists_last (l := x :: l)) as (u & c & Hl); [discriminate|].
    rewrite Hl in *. rewrite forallb_app in Hw.
    apply andb_true_iff in Hw. destruct Hw as [_ Hw].
    rewrite <- app_assoc in Hlong'. simpl in Hlong'.
    rewrite (Hlong' u c tl eq_refl Hw) in Hk. discriminate.
  - (* the loop went further *)
    destruct l as [|x l];
      [rewrite app_nil_r in Hk'; cbn [app] in Hk; congruence|].
    destruct (exists_last (l := x :: l)) as (u & c & Hl); [discriminate|].
    rewrite Hl in *. rewrite forallb_app in Hw'.
    apply andb_true_iff in Hw'. destruct Hw' as [_ Hw'].
    rewrite <- app_assoc in Hlong. simpl in Hlong.
    rewrite (Hlong u c tl' eq_refl Hw') in Hk'. discriminate.
Qed.

(** A run of units of a class at the head of a text that goes on with
    a unit outside the class lies within what stands before that unit. *)
Lemma run_within (p : char -> bool) : forall (junk rest_ u : jsstring) c tl',
  junk ++ rest_ = u ++ c :: tl' ->
  forallb p (u ++ [c]) = true ->
  match rest_ with [] => True | x :: _ => p x = false end ->
  exists j2, junk = u ++ c :: j2 /\ tl' = j2 ++ rest_.
Proof.
  induction junk as [|y junk IH]; intros rest_ u c tl' Heq Hu Hrest.
  - simpl in Heq. subst rest_. exfalso.
    destruct u as [|x u]; simpl in Hrest, Hu;
      rewrite Hrest in Hu; discriminate.
  - destruct u as [|x u]; simpl in Heq; inversion Heq; subst.
    + exists junk. auto.
    + simpl in Hu. apply andb_true_iff in Hu. destruct Hu as [_ Hu].
      destruct (IH _ _ _ _ H1 Hu Hrest) as (j2 & -> & ->).
      exists j2. auto.
Qed.

(** X16. Punctuation after an identifier stays outside of what
    [DOI_REGEX] captures: on a text that opens with an identifier ending
    in a unit of a word, goes on with units of the token class that are
    not of a word, and then ends or leaves the token class, the pattern
    captures the identifier and nothing more. *)
Theorem DOI_REGEX_leaves_punctuation_out (id junk rest_ : jsstring) :
  doi_syntax id = true -> is_word (last id 0%N) = true ->
  forallb (fun c => doi_unit c && negb (is_word c)) junk = true ->
  ends_token rest_ ->
  match1 DOI_REGEX (id ++ junk ++ rest_) = Some id.
Proof.
  intros Hsyn Hlast Hjunk Hrest.
  apply doi_pattern_shaped in Hsyn.
  destruct Hsyn as (ds & token & (-> & Hds & Hn & Ht) & Hne).
  assert (Hlast' : is_word (last token 0%N) = true).
  { replace (str "10." ++ ds ++ ch "/" :: token)
      with ((str "10." ++ ds ++ [ch "/"]) ++ token) in Hlast
      by (rewrite <- !app_assoc; reflexivity).
    rewrite (last_skip _ Hne) in Hlast. exact Hlast. }
  assert (Hnext : forall j r, forallb (fun c => doi_unit c && negb (is_word c)) j = true ->
            ends_token r ->
            match j ++ r with x :: _ => is_word x | [] => false end = false).
  { intros [|x j] r Hj Hr.
    - destruct r as [|x r]; [reflexivity|]. apply word_is_doi_unit. exact Hr.
    - simpl in Hj. apply andb_true_iff in Hj. destruct Hj as [Hx _].
      apply andb_true_iff in Hx. destruct Hx as [_ Hx].
      apply negb_true_iff in Hx. exact Hx. }
  unfold match1, exec.
  set (id := str "10." ++ ds ++ ch "/" :: token).
  set (final := MState (rev id) (junk ++ rest_) (Some id)).
  assert (Hm : m DOI_REGEX (MState [] (id ++ junk ++ rest_) None) Some = Some final).
  { unfold DOI_REGEX, doi_body. cbn [seqs].
    rewrite m_seq, m_wordb.
    change (xorb (prev_is_word (MState [] (id ++ junk ++ rest_) None))
                 (next_is_word (MState [] (id ++ junk ++ rest_) None))) with true.
    cbv iota beta. rewrite m_seq, m_grp, m_seq.
    replace (id ++ junk ++ rest_)
      with (str "10." ++ (ds ++ ch "/" :: token ++ junk ++ rest_))
      by (unfold id; rewrite <- !app_assoc; reflexivity).
    rewrite m_lit. cbv beta. rewrite m_seq. unfold digit.
    apply m_rep_chr_all; [exact Hds | reflexivity | lia | lia |].
    rewrite m_seq, m_one. unfold plus.
    set (st0 := MState [] (str "10." ++ ds ++ ch "/" :: token ++ junk ++ rest_) None).
    assert (Acap : consumed st0
                     (MState (rev token ++ ch "/" :: rev ds ++ rev (str "10.") ++ [])
                             (junk ++ rest_) None)
                   = id).
    { apply advances_consumed.
      unfold st0, id, advances. cbn [seen rest]. split.
      - rewrite !app_nil_r, !rev_app_distr. cbn [rev app].
        rewrite <- !app_assoc. reflexivity.
      - rewrite <- !app_assoc. reflexivity. }
    apply m_rep_chr_longest.
    - exact Ht.
    - destruct token; [congruence|simpl; lia].
    - cbn [seen rest]. rewrite Acap.
      rewrite m_wordb. unfold prev_is_word, next_is_word. cbn [seen rest].
      destruct (@last_rev_head token (ch "/" :: rev ds ++ rev (str "10.") ++ []) Hne)
        as (tl & Htl).
      rewrite Htl, Hlast', (Hnext junk rest_ Hjunk Hrest). cbn [xorb].
      f_equal. unfold final. rewrite <- Htl. f_equal. unfold id. simpl.
      rewrite !rev_app_distr. simpl. rewrite <- !app_assoc. reflexivity.
    - intros u c tl' Htl Hu.
      assert (Hu' : forallb doi_unit (u ++ [c]) = true) by exact Hu.
      destruct (@run_within doi_unit junk rest_ u c tl' Htl Hu' Hrest)
        as (j2 & Hj & ->).
      cbn [seen rest]. rewrite m_wordb.
      unfold prev_is_word, next_is_word. cbn [seen rest].
      rewrite !app_assoc, rev_app_distr. simpl.
      rewrite Hj in Hjunk. rewrite forallb_app in Hjunk.
      apply andb_true_iff in Hjunk. destruct Hjunk as [_ Hjunk].
      simpl in Hjunk. apply andb_true_iff in Hjunk. destruct Hjunk as [Hc Hj2].
      apply andb_true_iff in Hc. destruct Hc as [_ Hc].
      apply negb_true_iff in Hc. rewrite Hc, (Hnext j2 rest_ Hj2 Hrest).
      reflexivity. }
  rewrite (exec_from_here _ _ _ Hm). reflexivity.
Qed.

Lemma DOI_REGEX_leaves_punctuation_out_witness :
  match1 DOI_REGEX (str "10.1038/nature12373" ++ str ")." ++ str " and more")
  = Some (str "10.1038/nature12373").
Proof.
  apply (@DOI_REGEX_leaves_punctuation_out
           (str "10.1038/nature12373") (str ").") (str " and more"));
    reflexivity.
Defined.

End BoundaryFacts.

(* ================================================================== *)
(** * The address of the page as a source of the identifier *)
(* ================================================================== *)

Module AddressTierFacts.

Import RegexFacts Content ContentFacts IdentifierFacts UrlFacts.

(** An optional literal that is there is taken first. *)
Lemma m_opt_lit_take s sn tl cp k :
  s <> [] ->
  m (opt (lit s)) (MState sn (s ++ tl) cp) k =
  match k (MState (rev s ++ sn) tl cp) with
  | Some res => Some res
  | None => k (MState sn (s ++ tl) cp)
  end.
Proof.
  intros Hs. unfold opt.
  change (m (Rep true 0 (Some 1) (lit s)) (MState sn (s ++ tl) cp) k)
    with (rep (0 + length (s ++ tl) + 1) (m (lit s)) true 0 (Some 1)
            (MState sn (s ++ tl) cp) k).
  rewrite Nat.add_1_r. cbn [Nat.add rep hi_is_zero pred_hi pred].
  rewrite m_lit. cbn [rest].
  replace (length tl =? length (s ++ tl)) with false
    by (symmetry; apply Nat.eqb_neq; rewrite length_app;
        destruct s; [congruence|simpl; lia]).
  destruct s as [|c s]; [congruence|]. cbn [app length rep hi_is_zero].
  reflexivity.
Qed.

(** An optional literal that is not there is passed over. *)
Lemma m_opt_lit_skip s sn rs cp k :
  startsWith rs s = false ->
  m (opt (lit s)) (MState sn rs cp) k = k (MState sn rs cp).
Proof.
  intros Hs. unfold opt.
  change (m (Rep true 0 (Some 1) (lit s)) (MState sn rs cp) k)
    with (rep (0 + length rs + 1) (m (lit s)) true 0 (Some 1)
            (MState sn rs cp) k).
  rewrite Nat.add_1_r. cbn [Nat.add rep hi_is_zero pred_hi pred].
  rewrite m_lit_fails by exact Hs. reflexivity.
Qed.

(** The group every DOI pattern of the script shares, at the head of a
    text that opens with an identifier and then ends or leaves the token
    class, captures the identifier. *)
Lemma doi_group_captures unit id rest_ sn :
  doi_pattern unit id = true ->
  match rest_ with [] => True | c :: _ => unit c = false end ->
  m (Grp (doi_body unit)) (MState sn (id ++ rest_) None) Some
  = Some (MState (rev id ++ sn) rest_ (Some id)).
Proof.
  intros Hsyn Hrest.
  apply doi_pattern_shaped in Hsyn.
  destruct Hsyn as (ds & token & (-> & Hds & Hn & Ht) & Hne).
  set (id := str "10." ++ ds ++ ch "/" :: token).
  unfold doi_body. cbn [seqs]. rewrite m_grp, m_seq.
  replace (id ++ rest_) with (str "10." ++ (ds ++ ch "/" :: token ++ rest_))
    by (unfold id; rewrite <- !app_assoc; reflexivity).
  rewrite m_lit. cbv beta. rewrite m_seq. unfold digit.
  apply m_rep_chr_all; [exact Hds | reflexivity | lia | lia |].
  rewrite m_seq, m_one. unfold plus.
  apply m_rep_chr_all;
    [exact Ht | exact Hrest | destruct token; [congruence|simpl; lia] | exact I |].
  cbn [seen rest].
  set (st0 := MState sn (str "10." ++ ds ++ ch "/" :: token ++ rest_) None).
  set (st1 := MState _ rest_ None).
  assert (A : advances st0 id st1).
  { unfold st0, st1, id, advances. cbn [seen rest]. split.
    - rewrite !rev_app_distr. cbn [rev app]. rewrite <- !app_assoc. reflexivity.
    - rewrite <- !app_assoc. reflexivity. }
  rewrite (advances_consumed A). f_equal. f_equal.
  unfold id. rewrite !rev_app_distr. cbn [rev app]. rewrite <- !app_assoc.
  reflexivity.
Qed.

(** The resolver's addresses: the scheme with or without [s], the host
    with or without [dx.]. *)
Lemma doiOrg_re_finds scheme sub id rest_ :
  In scheme [str "http"; str "https"] -> In sub [[]; str "dx."] ->
  doi_pattern url_unit id = true ->
  match rest_ with [] => True | c :: _ => url_unit c = false end ->
  match1 doiOrg_re (scheme ++ str "://" ++ sub ++ str "doi.org/" ++ id ++ rest_)
  = Some id.
Proof.
  intros Hscheme Hsub Hsyn Hrest. unfold match1, exec.
  set (href := scheme ++ str "://" ++ sub ++ str "doi.org/" ++ id ++ rest_).
  assert (Hhost : forall sn,
            m (seqs [opt (lit (str "dx.")); lit (str "doi.org/");
                     Grp (doi_body url_unit)])
              (MState sn (sub ++ str "doi.org/" ++ id ++ rest_) None) Some
            = Some (MState (rev id ++ rev (str "doi.org/") ++ rev sub ++ sn)
                           rest_ (Some id))).
  { intros sn. cbn [seqs]. rewrite m_seq.
    simpl in Hsub. destruct Hsub as [<-|[<-|[]]].
    - cbn [app]. rewrite m_opt_lit_skip by reflexivity.
      rewrite m_seq, m_lit. apply doi_group_captures; assumption.
    - rewrite m_opt_lit_take by discriminate.
      rewrite m_seq, m_lit.
      rewrite (@doi_group_captures url_unit id rest_ _ Hsyn Hrest).
      reflexivity. }
  assert (Hm : exists st', m doiOrg_re (MState [] href None) Some = Some st'
                           /\ cap st' = Some id).
  { unfold doiOrg_re, href. cbn [seqs]. rewrite m_seq.
    simpl in Hscheme. destruct Hscheme as [<-|[<-|[]]].
    - rewrite m_lit, m_seq. unfold one at 1.
      rewrite m_opt_skip by (destruct sub; reflexivity).
      rewrite m_seq, m_lit.
      change (m (Seq (opt (lit (str "dx.")))
                     (Seq (lit (str "doi.org/")) (Grp (doi_body url_unit)))))
        with (m (seqs [opt (lit (str "dx.")); lit (str "doi.org/");
                       Grp (doi_body url_unit)])).
      rewrite Hhost. eexists. split; reflexivity.
    - change (str "https" ++ str "://" ++ sub ++ str "doi.org/" ++ id ++ rest_)
        with (str "http" ++ ch "s" :: str "://" ++ sub ++ str "doi.org/" ++ id ++ rest_).
      rewrite m_lit, m_seq. unfold one at 1.
      rewrite m_opt_take by reflexivity.
      rewrite m_seq, m_lit.
      change (m (Seq (opt (lit (str "dx.")))
                     (Seq (lit (str "doi.org/")) (Grp (doi_body url_unit)))))
        with (m (seqs [opt (lit (str "dx.")); lit (str "doi.org/");
                       Grp (doi_body url_unit)])).
      rewrite Hhost. eexists. split; reflexivity. }
  destruct Hm as (st' & Hm & Hc).
  rewrite (exec_from_here _ _ _ Hm). exact Hc.
Qed.

Section Resolver.

Variable JSON_parse : jsstring -> option json.

(** X17. On a page at the resolver's own address, [http] or [https],
    [doi.org] or [dx.doi.org], whose meta tags give no identifier, the
    identifier in the address is what [detectDOI] returns: everything
    from [10.] up to the end, a white space, a [?] or a [#]. *)
Theorem resolver_address_gives_the_identifier
    (p : page) (scheme sub id rest_ : jsstring) :
  In scheme [str "http"; str "https"] -> In sub [[]; str "dx."] ->
  href p = scheme ++ str "://" ++ sub ++ str "doi.org/" ++ id ++ rest_ ->
  doi_pattern url_unit id = true ->
  match rest_ with [] => True | c :: _ => url_unit c = false end ->
  meta_tier (doc p) metaSelectors = None ->
  detectDOI JSON_parse p = Some id.
Proof.
  intros Hscheme Hsub Hhref Hsyn Hrest Hmeta.
  unfold detectDOI, url_tier. rewrite Hmeta, Hhref.
  rewrite (@doiOrg_re_finds scheme sub id rest_ Hscheme Hsub Hsyn Hrest).
  reflexivity.
Qed.

End Resolver.

Lemma resolver_address_gives_the_identifier_witness :
  detectDOI (fun _ => None)
    (Page (str "dx.doi.org") (str "https://dx.doi.org/10.1234/a.b?x=1")
          (document_of []))
  = Some (str "10.1234/a.b").
Proof.
  apply (@resolver_address_gives_the_identifier (fun _ => None)
           (Page (str "dx.doi.org") (str "https://dx.doi.org/10.1234/a.b?x=1")
                 (document_of []))
           (str "https") (str "dx.") (str "10.1234/a.b") (str "?x=1"));
    try reflexivity; simpl; auto.
Defined.

End AddressTierFacts.

(* ================================================================== *)
(** * The meta tags as a source of the identifier *)
(* ================================================================== *)

Module MetaTagProperties.

Import RegexFacts Content ContentFacts IdentifierFacts UrlFacts GreedyFacts
       BoundaryFacts NormalizeFacts.

(** ** The prefix that is stripped, in plain terms *)



(** ** Where [DOI_REGEX] finds the identifier in a text *)






Section Pages.

Variable JSON_parse : jsstring -> option json.


End Pages.



End MetaTagProperties.

(* ================================================================== *)
(** * The button step of the worker that parses the page *)
(* ================================================================== *)

Module ButtonFacts.

Import RegexFacts Content IdentifierFacts UrlFacts GreedyFacts BoundaryFacts.

Lemma m_chr p c sn tl cp k :
  m (Chr p) (MState sn (c :: tl) cp) k =
  if p c then k (MState (c :: sn) tl cp) else None.
Proof. reflexivity. Qed.

Lemma quote_not_space q : char_in [dq; sq] q = true -> is_space q = false.
Proof.
  intros H. simpl in H.
  repeat (apply orb_true_iff in H; destruct H as [H|H]);
    try discriminate; apply N.eqb_eq in H; subst q; reflexivity.
Qed.

(** The location pattern on a handler that opens with the assignment:
    it captures the whole run between the quote and the next one, if
    that run holds [.pdf] after its first unit. *)
Lemma location_re_finds q a b tail :
  char_in [dq; sq] q = true ->
  a <> [] -> forallb Mv3.unquoted (a ++ str ".pdf" ++ b) = true ->
  match tail with [] => True | c :: _ => Mv3.unquoted c = false end ->
  match1 Mv3.location_re
    (str "location.href=" ++ q :: (a ++ str ".pdf" ++ b) ++ tail)
  = Some (a ++ str ".pdf" ++ b).
Proof.
  intros Hq Ha Hrun Htail.
  set (run := a ++ str ".pdf" ++ b) in *.
  set (sn := q :: rev (str "location.href=")).
  set (st := MState sn (run ++ tail) None).
  (* what the rest of the group does after the first loop *)
  set (K := fun st' : mstate =>
              m (Seq (lit (str ".pdf")) (star (Chr Mv3.unquoted))) st'
                (fun st'' => Some (MState (seen st'') (rest st'')
                                          (Some (consumed st st''))))).
  assert (Hafter : forall w x,
            run = w ++ str ".pdf" ++ x ->
            K (MState (rev w ++ sn) (str ".pdf" ++ x ++ tail) None)
            = Some (MState (rev run ++ sn) tail (Some run))).
  { intros w x Hsplit. unfold K. rewrite m_seq, m_lit. unfold star.
    assert (Hx : forallb Mv3.unquoted x = true).
    { rewrite Hsplit, !forallb_app in Hrun.
      apply andb_true_iff in Hrun. destruct Hrun as [_ Hrun].
      apply andb_true_iff in Hrun. destruct Hrun as [_ Hrun]. exact Hrun. }
    apply m_rep_chr_all; [exact Hx|exact Htail|lia|exact I|].
    cbn [seen rest].
    assert (A : advances st run
                  (MState (rev x ++ rev (str ".pdf") ++ rev w ++ sn) tail None)).
    { unfold st, advances. cbn [seen rest]. split; [|reflexivity].
      rewrite Hsplit, !rev_app_distr, <- !app_assoc. reflexivity. }
    rewrite (advances_consumed A). f_equal. f_equal.
    rewrite Hsplit, !rev_app_distr, <- !app_assoc. reflexivity. }
  assert (Hloop : m (plus (Chr Mv3.unquoted)) st K
                  = Some (MState (rev run ++ sn) tail (Some run))).
  { unfold plus, st.
    destruct (m (Rep true 1 None (Chr Mv3.unquoted))
                (MState sn (run ++ tail) None) K) as [res|] eqn:E.
    - apply m_rep_chr_greedy in E.
      destruct E as (w & tl & Heq & Hw & _ & Hk & _).
      destruct (startsWith tl (str ".pdf")) eqn:Hs.
      + apply startsWith_split in Hs. destruct Hs as (r & ->).
        assert (Hsplit : exists x, run = w ++ str ".pdf" ++ x /\ r = x ++ tail).
        { assert (Hp : forallb Mv3.unquoted ((w ++ str ".pd") ++ [ch "f"]) = true).
          { rewrite !forallb_app, Hw. reflexivity. }
          assert (Heq' : run ++ tail = (w ++ str ".pd") ++ ch "f" :: r).
          { rewrite Heq, <- app_assoc. reflexivity. }
          destruct (@run_within Mv3.unquoted run tail _ _ _ Heq' Hp Htail)
            as (x & Hr & Hx).
          exists x. split; [|exact Hx]. rewrite Hr, <- app_assoc. reflexivity. }
        destruct Hsplit as (x & Hsplit & ->).
        rewrite (Hafter w x Hsplit) in Hk. congruence.
      + unfold K in Hk. rewrite m_seq, m_lit_fails in Hk by exact Hs.
        discriminate.
    - exfalso.
      assert (Ha' : forallb Mv3.unquoted a = true).
      { unfold run in Hrun. rewrite forallb_app in Hrun.
        apply andb_true_iff in Hrun. tauto. }
      destruct (@m_rep_chr_some Mv3.unquoted K a 1 sn (str ".pdf" ++ b ++ tail)
                  None (MState (rev run ++ sn) tail (Some run)) Ha')
        as (res' & E').
      + destruct a; [congruence|simpl; lia].
      + apply (Hafter a b). reflexivity.
      + unfold run in E. rewrite <- !app_assoc in E. congruence. }
  unfold match1, exec.
  assert (Hm : m Mv3.location_re
                 (MState [] (str "location.href=" ++ q :: run ++ tail) None) Some
               = Some (MState (rev run ++ sn) tail (Some run))).
  { unfold Mv3.location_re. cbn [seqs].
    change (str "location.href=" ++ q :: run ++ tail)
      with (str "location.href" ++ ch "=" :: q :: run ++ tail).
    rewrite m_seq, m_lit, m_seq. unfold Mv3.ws at 1, star, space.
    rewrite <- (app_nil_l (ch "=" :: q :: run ++ tail)).
    rewrite m_rep_chr_all with (res := MState (rev run ++ sn) tail (Some run));
      [reflexivity|reflexivity|reflexivity|simpl; lia|exact I|].
    cbn [rev app]. rewrite m_seq, m_one, m_seq. unfold Mv3.ws, star, space.
    rewrite <- (app_nil_l (q :: run ++ tail)).
    rewrite m_rep_chr_all with (res := MState (rev run ++ sn) tail (Some run));
      [reflexivity|reflexivity|exact (quote_not_space _ Hq)|simpl; lia|exact I|].
    cbn [rev app]. rewrite m_seq. unfold Mv3.quote, any_of.
    rewrite m_chr, Hq. rewrite m_grp. cbn [seqs]. rewrite m_seq.
    exact Hloop. }
  rewrite (exec_from_here _ _ _ Hm). reflexivity.
Qed.

(** X18. In the worker that parses the page the button step does find
    its reference: for a button whose handler is an assignment to
    [location.href] of a quoted text holding [.pdf] after its first unit,
    the whole quoted text is taken, escaped slashes are unescaped and the
    result is normalized, whatever buttons follow. *)
Theorem blob_button_step_takes_the_quoted_address
    (btn : element) (more : list element) (mirror : jsstring)
    (otherwise : option jsstring) (q : char) (a b tail : jsstring) :
  char_in [dq; sq] q = true ->
  a <> [] -> forallb Mv3.unquoted (a ++ str ".pdf" ++ b) = true ->
  match tail with [] => True | c :: _ => Mv3.unquoted c = false end ->
  getAttribute btn "onclick"
  = Some (str "location.href=" ++ q :: (a ++ str ".pdf" ++ b) ++ tail) ->
  Blob.button_pick (btn :: more) mirror otherwise
  = Blob.normalizeUrl
      (Some (replaceAll Mv3.escaped_slash_re (str "/") (a ++ str ".pdf" ++ b)))
      mirror.
Proof.
  intros Hq Ha Hrun Htail Hattr. cbn [Blob.button_pick]. rewrite Hattr.
  assert (Ho : or_else (Some (str "location.href=" ++ q
                                :: (a ++ str ".pdf" ++ b) ++ tail)) []
               = str "location.href=" ++ q :: (a ++ str ".pdf" ++ b) ++ tail)
    by reflexivity.
  rewrite Ho. unfold Blob.location_re.
  rewrite (@location_re_finds q a b tail Hq Ha Hrun Htail). reflexivity.
Qed.

Lemma blob_button_step_takes_the_quoted_address_witness :
  Blob.button_pick
    [Element (str "button")
       [(str "onclick", str "location.href='/downloads/a.pdf?download=true'")] []]
    (str "https://sci-hub.ru") None
  = Some (str "https://sci-hub.ru/downloads/a.pdf?download=true").
Proof.
  rewrite (@blob_button_step_takes_the_quoted_address
             (Element (str "button")
                [(str "onclick",
                  str "location.href='/downloads/a.pdf?download=true'")] [])
             [] (str "https://sci-hub.ru") None sq
             (str "/downloads/a") (str "?download=true") [sq]);
    reflexivity || discriminate.
Defined.

End ButtonFacts.
